(** * train.py: the training-loop orchestration, embedded and verified

    A shallow embedding of [src/train.py]: the checkpoint writer
    [save_model_complete], the class-count selection of [setup], the two
    evaluation passes [valid] and [mAp], and the step/epoch loop of [train].

    - Python integers are [Z]; [%] and [//] have floor semantics and raise
      on a zero divisor.
    - An accuracy is the exact fraction in [Q] that numpy's
      [(preds == labels).mean()] rounds to a float.
    - Dictionaries (checkpoint files, state dicts) are [gmap string _].
    - Exceptions are an explicit outcome of every statement, and the
      [while True] loop takes fuel, one unit per epoch.
    - What [train] does to the outside world (loads, saves, metrics,
      evaluation passes, backward passes, optimizer updates) is recorded in
      a trace.
    - Tensors are opaque: a parameter tensor is a [Z], a micro-batch is a
      list of (sample, label) pairs, and the network itself (the class it
      predicts, the effect of an SGD update) is a Section variable.  Loaders
      yield the same non-empty batches in every epoch.

    Not modelled, because no control decision depends on it: loss
    values (the [AverageMeter] class is modelled on its own, over floats
    whose arithmetic is left open), mixed precision (apex amp), progress
    bars, the [logging] module and random seeds.  The DistributedDataParallel
    wrapper is not modelled either: [weights] is the state dict of
    whatever object the name [model] is bound to.  Of torchnet's meters
    only the ConfusionMeter is modelled; [torch.save] is assumed to
    succeed. *)

From Stdlib Require Import ZArith QArith Qminmax Reals Lra Lia.
From stdpp Require Import gmap strings list.

Open Scope Z_scope.

(** ** Python values and exceptions *)

Inductive pyerr :=
  | ZeroDivisionError
  | TypeError
  | UnboundLocalError (name : string)
  | FileNotFoundError (file : string)
  | KeyError (key : string)
  | RuntimeError
  | IndexError
  | AssertionError
  | AttributeError
  | OverflowError.

(** The values stored in a checkpoint file: [None], an int, a float, or a
    tensor, or a state dictionary (parameter name to tensor). *)
Inductive pyobj :=
  | PNone
  | PInt (z : Z)
  | PFloat (q : Q)
  | PTensor (t : Z)
  | PStateDict (sd : gmap string Z).

(** [bool(v)]: [None], [0], [0.0] and the empty dict are falsy. *)
Definition truthy (v : pyobj) : bool :=
  match v with
  | PNone => false
  | PInt z => negb (z =? 0)
  | PFloat q => negb (Qeq_bool q 0)
  | PTensor t => negb (t =? 0)
  | PStateDict sd => negb (bool_decide (sd = ∅))
  end.

Definition to_number (v : pyobj) : option Q :=
  match v with
  | PInt z => Some (inject_Z z)
  | PFloat q => Some q
  | _ => None
  end.

Definition Qlt_bool (a b : Q) : bool := negb (Qle_bool b a).

(** A micro-batch: the (sample, label) pairs of one loader item. *)
Abbreviation batch := (list (Z * Z)).

(** ** File names of checkpoints *)

Inductive filename :=
  | step_checkpoint (step : Z)
      (* "step_{}_checkpoint.pth".format(step) *)
  | best_acc_checkpoint (step : Z) (accuracy : pyobj).
      (* "best_acc_step_{}_acc_{}_checkpoint.pth".format(step, accuracy) *)

(** [os.path.join(dir, name)] *)
Record path := Join { path_dir : string; path_name : filename }.

(** ** Observable actions, most recent first in the trace *)

Inductive event :=
  | EMakedirs (dir : string)
  | ETorchLoad (file : string)
  | EBackward (b : batch)
  | EClipGradNorm
  | EOptimizerStep (accumulated : list batch)
  | EAddScalar (tag : string) (global_step : Z)
  | EValid (global_step : Z) (accuracy : Q)
  | EmAp (global_step : Z)
  | ETorchSave (file : path) (content : gmap string pyobj)
  | EWriterClose.

(** ** Command-line arguments and the data the run is given *)

Record Args := {
  name : string;
  dataset : string;
  output_dir : string;
  output_dir_every_checkpoint : string;
  input_dir : option string;
  train_batch_size : Z;
  eval_every : Z;
  num_steps : Z;
  decay_type : string;
  warmup_steps : Z;
  local_rank : Z;
  gradient_accumulation_steps : Z
}.

(** What [get_loader] and the file system provide. *)
Record Env := {
  files : gmap string (gmap string pyobj);   (* what torch.load finds *)
  train_loader : list batch;
  test_loader : list batch
}.

(** ** The state threaded through [train] *)

Record state := {
  weights : gmap string Z;       (* model.state_dict() *)
  momentum : gmap string Z;      (* optimizer.state_dict() *)
  grads : list batch;            (* micro-batches accumulated in .grad since zero_grad *)
  last_epoch : Z;                (* the scheduler's step count *)
  global_step : Z;
  best_acc : pyobj;
  writer : option string;        (* None: the local name is unbound *)
  trace : list event
}.

Definition set_weights (w : gmap string Z) (s : state) : state :=
  {| weights := w; momentum := momentum s; grads := grads s;
     last_epoch := last_epoch s; global_step := global_step s;
     best_acc := best_acc s; writer := writer s; trace := trace s |}.

Definition set_momentum (m : gmap string Z) (s : state) : state :=
  {| weights := weights s; momentum := m; grads := grads s;
     last_epoch := last_epoch s; global_step := global_step s;
     best_acc := best_acc s; writer := writer s; trace := trace s |}.

Definition set_grads (g : list batch) (s : state) : state :=
  {| weights := weights s; momentum := momentum s; grads := g;
     last_epoch := last_epoch s; global_step := global_step s;
     best_acc := best_acc s; writer := writer s; trace := trace s |}.

Definition set_last_epoch (n : Z) (s : state) : state :=
  {| weights := weights s; momentum := momentum s; grads := grads s;
     last_epoch := n; global_step := global_step s;
     best_acc := best_acc s; writer := writer s; trace := trace s |}.

Definition set_global_step (n : Z) (s : state) : state :=
  {| weights := weights s; momentum := momentum s; grads := grads s;
     last_epoch := last_epoch s; global_step := n;
     best_acc := best_acc s; writer := writer s; trace := trace s |}.

Definition set_best_acc (b : pyobj) (s : state) : state :=
  {| weights := weights s; momentum := momentum s; grads := grads s;
     last_epoch := last_epoch s; global_step := global_step s;
     best_acc := b; writer := writer s; trace := trace s |}.

Definition set_writer (w : option string) (s : state) : state :=
  {| weights := weights s; momentum := momentum s; grads := grads s;
     last_epoch := last_epoch s; global_step := global_step s;
     best_acc := best_acc s; writer := w; trace := trace s |}.

Definition emit (e : event) (s : state) : state :=
  {| weights := weights s; momentum := momentum s; grads := grads s;
     last_epoch := last_epoch s; global_step := global_step s;
     best_acc := best_acc s; writer := writer s; trace := e :: trace s |}.

(** ** A state-and-exception monad *)

Inductive outcome (A : Type) :=
  | Ok (a : A) (s : state)
  | Raise (e : pyerr) (s : state)
  | OutOfFuel (s : state).
Arguments Ok {A} a s.
Arguments Raise {A} e s.
Arguments OutOfFuel {A} s.

Definition M (A : Type) : Type := state -> outcome A.

Definition ret {A} (a : A) : M A := fun s => Ok a s.
Definition raise {A} (e : pyerr) : M A := fun s => Raise e s.
Definition bind {A B} (c : M A) (k : A -> M B) : M B :=
  fun s => match c s with
           | Ok a s' => k a s'
           | Raise e s' => Raise e s'
           | OutOfFuel s' => OutOfFuel s'
           end.
Definition get : M state := fun s => Ok s s.
Definition modify (f : state -> state) : M unit := fun s => Ok tt (f s).
Definition log (e : event) : M unit := modify (emit e).

Declare Scope py_scope.
Delimit Scope py_scope with py.
Notation "x <- c ;; k" := (bind c (fun x => k))
  (at level 100, c at next level, right associativity) : py_scope.
Notation "c ;; k" := (bind c (fun _ => k))
  (at level 100, right associativity) : py_scope.
Open Scope py_scope.

Definition final_state {A} (o : outcome A) : state :=
  match o with
  | Ok _ s => s
  | Raise _ s => s
  | OutOfFuel s => s
  end.

(** [a % b] and [a // b] on Python ints: floor semantics, as [Z.modulo]
    and [Z.div] have; a zero divisor raises. *)
Definition py_mod (a b : Z) : M Z :=
  if b =? 0 then raise ZeroDivisionError else ret (a mod b).
Definition py_floordiv (a b : Z) : M Z :=
  if b =? 0 then raise ZeroDivisionError else ret (a / b).

(** [a < b]: defined between numbers only. *)
Definition py_lt (a b : pyobj) : M bool :=
  match to_number a, to_number b with
  | Some x, Some y => ret (Qlt_bool x y)
  | _, _ => raise TypeError
  end.

(** [d[key]] *)
Definition getitem (d : gmap string pyobj) (key : string) : M pyobj :=
  match d !! key with
  | Some v => ret v
  | None => raise (KeyError key)
  end.

(** [args.local_rank in [-1, 0]] *)
Definition primary (args : Args) : bool :=
  (local_rank args =? -1) || (local_rank args =? 0).

(** Reading the local [writer] to pass it to a callee. *)
Definition read_writer : M string :=
  s <- get ;;
  match writer s with
  | Some w => ret w
  | None => raise (UnboundLocalError "writer")
  end.

(** [writer.add_scalar(tag, ..., global_step=step)] *)
Definition add_scalar (tag : string) (step : Z) : M unit :=
  read_writer ;; log (EAddScalar tag step).

(** [torch.load(file)] *)
Definition torch_load (env : Env) (file : string) : M (gmap string pyobj) :=
  log (ETorchLoad file) ;;
  match files env !! file with
  | Some d => ret d
  | None => raise (FileNotFoundError file)
  end.

(** [model.load_state_dict(sd)], strict: the keys must be the model's.
    When they are not, every parameter that [sd] also names has been
    copied by the time RuntimeError is raised. *)
Definition load_state_dict (sd : gmap string Z) : M unit :=
  s <- get ;;
  if bool_decide (dom sd = dom (weights s))
  then modify (set_weights sd)
  else modify (set_weights ((sd ∩ weights s) ∪ weights s)) ;; raise RuntimeError.

(** A value used as a state dictionary. *)
Definition as_state_dict (v : pyobj) : M (gmap string Z) :=
  match v with
  | PStateDict sd => ret sd
  | _ => raise TypeError
  end.

(** The tensor an entry of a file holds, if it is one. *)
Definition tensor_of (v : pyobj) : option Z :=
  match v with
  | PTensor t => Some t
  | _ => None
  end.

(** [model.load_state_dict(checkpoint)] on a whole file: an entry that is
    not a tensor is one more error of the strict load, reported like the
    others after the matching tensors have been copied. *)
Definition load_state_dict_file (d : gmap string pyobj) : M unit :=
  let sd := omap tensor_of d in
  if bool_decide (dom sd = dom d) then load_state_dict sd
  else
    s <- get ;;
    modify (set_weights ((sd ∩ weights s) ∪ weights s)) ;;
    raise RuntimeError.

(** ** save_model_complete (lines 59-70) *)

Definition save_model_complete (args : Args) (accuracy : pyobj) (step : Z) : M unit :=
  s <- get ;;
  let checkpoint_file :=
    if negb (truthy accuracy)
    then Join (output_dir_every_checkpoint args) (step_checkpoint step)
    else Join (output_dir args) (best_acc_checkpoint step accuracy) in
  log (ETorchSave checkpoint_file
         (<["step" := PInt step]>
          (<["model_state_dict" := PStateDict (weights s)]>
           (<["optimizer_state_dict" := PStateDict (momentum s)]>
            (<["best_accuracy" := accuracy]> ∅))))).

(** ** setup (lines 77-82): the class count of the classifier head *)

Definition num_classes (args : Args) : Z :=
  if String.eqb (dataset args) "cifar10" then 10
  else if String.eqb (dataset args) "stanford40" then 40
  else 100.

(** ** simple_accuracy (line 50): [(preds == labels).mean()] *)

(** Both arrays have one entry per sample of the test set, which is not
    empty. *)
Definition simple_accuracy (preds labels : list Z) : Q :=
  inject_Z (Z.of_nat (length (filter (fun pl => bool_decide (pl.1 = pl.2)) (zip preds labels))))
  / inject_Z (Z.of_nat (length preds)).

(** ** torchnet's ConfusionMeter and torch's one_hot, as mAp uses them *)

Inductive result (A : Type) :=
  | Done (a : A)
  | Failed (e : pyerr).
Arguments Done {A} a.
Arguments Failed {A} e.

Definition lift {A} (r : result A) : M A :=
  match r with
  | Done a => ret a
  | Failed e => raise e
  end.

(** [torch.nn.functional.one_hot(y, num_classes=n)]: every class value must
    be non-negative and smaller than [n]. *)
Definition one_hot (y : list Z) (n : Z) : result (list (list Z)) :=
  if forallb (fun c => (0 <=? c) && (c <? n)) y
  then Done (map (fun c => map (fun j => if j =? c then 1 else 0) (seqZ 0 n)) y)
  else Failed RuntimeError.

(** [np.argmax(row)]: the first index of the largest entry. *)
Fixpoint argmax_from (i best_i best : Z) (row : list Z) : Z :=
  match row with
  | [] => best_i
  | x :: r => if best <? x then argmax_from (i + 1) i x r
              else argmax_from (i + 1) best_i best r
  end.

Definition argmax (row : list Z) : Z :=
  match row with
  | [] => 0
  | x :: r => argmax_from 1 0 x r
  end.

Record ConfusionMeter := {
  cm_k : Z;
  conf : list (list Z)
}.

(** [tnt.meter.ConfusionMeter(k)]: a k-by-k matrix of zero counts. *)
Definition new_ConfusionMeter (k : Z) : ConfusionMeter :=
  {| cm_k := k;
     conf := replicate (Z.to_nat k) (replicate (Z.to_nat k) 0) |}.

(** [conf_matrix.add(probs, one_hot_y)]: [probs] has [width] columns and
    [predicted] holds their row-wise argmax (a class index, so not
    negative); the meter asserts that both sides have [k] columns, then
    counts (target, predicted) pairs. *)
Definition ConfusionMeter_add (m : ConfusionMeter) (width : Z)
    (predicted : list Z) (target : list (list Z)) : result ConfusionMeter :=
  if negb (length predicted =? length target)%nat then Failed AssertionError
  else if negb (width =? cm_k m) then Failed AssertionError
  else if negb (forallb (fun row => Z.of_nat (length row) =? cm_k m) target)
  then Failed AssertionError
  else Done {| cm_k := cm_k m;
               conf := fold_left
                 (fun c pt => alter (alter Z.succ (Z.to_nat pt.1))
                                    (Z.to_nat (argmax pt.2)) c)
                 (zip predicted target) (conf m) |}.

(** The checkpoint that [mAp] reloads when called with [global_step = -1]. *)
Definition mAp_checkpoint_file : string :=
  "/content/best_acc/TrainedModels/best_acc_step_100_acc_0.9081706435285611_checkpoint.pth".

Section Network.

(** The class the network predicts for a sample under given weights
    (the argmax of its logits), and the effect of one SGD-with-momentum
    update on weights and momentum buffers given the accumulated
    micro-batches. *)
Variable predict : gmap string Z -> Z -> Z.
Variable sgd : gmap string Z -> gmap string Z -> list batch ->
               gmap string Z * gmap string Z.

(** *** valid (lines 109-160) *)

Definition valid (args : Args) (env : Env) (step : Z) : M Q :=
  s <- get ;;
  let all_preds := flat_map (map (fun xy => predict (weights s) xy.1)) (test_loader env) in
  let all_label := flat_map (map snd) (test_loader env) in
  match test_loader env with
  | [] => raise IndexError                    (* all_preds[0] on an empty list *)
  | _ :: _ =>
      let accuracy := simple_accuracy all_preds all_label in
      log (EValid step accuracy) ;;
      add_scalar "test/accuracy" step ;;
      add_scalar "test/loss" step ;;
      ret accuracy
  end.

(** *** mAp (lines 162-202) *)

(** The loop of lines 183-195 over the test loader; [width] is the
    number of columns of the network's output. *)
Fixpoint mAp_batches (w : gmap string Z) (width : Z) (conf_matrix : ConfusionMeter)
    (loader : list batch) : result ConfusionMeter :=
  match loader with
  | [] => Done conf_matrix
  | b :: rest =>
      match one_hot (map snd b) 40 with
      | Failed e => Failed e
      | Done one_hot_y =>
          let preds := map (fun xy => predict w xy.1) b in
          match ConfusionMeter_add conf_matrix width preds one_hot_y with
          | Failed e => Failed e
          | Done conf_matrix' => mAp_batches w width conf_matrix' rest
          end
      end
  end.

(** Lines 176-195: the confusion meter that [mAp] builds and fills. *)
Definition mAp_meters (args : Args) (env : Env) (w : gmap string Z) :
    result ConfusionMeter :=
  mAp_batches w (num_classes args) (new_ConfusionMeter 40) (test_loader env).

Definition mAp (args : Args) (env : Env) (step : Z) : M unit :=
  (if step =? -1 then
     checkpoint_continue <- torch_load env mAp_checkpoint_file ;;
     v <- getitem checkpoint_continue "model_state_dict" ;;
     sd <- as_state_dict v ;;
     load_state_dict sd
   else ret tt) ;;
  s <- get ;;
  lift (mAp_meters args env (weights s)) ;;
  match test_loader env with
  | [] => raise AttributeError                (* test_map.value() without scores *)
  | _ :: _ =>
      log (EmAp step) ;;
      add_scalar "test/mAp" step
  end.

(** *** train (lines 204-356) *)

(** Lines 277-288: loading the checkpoint named by [--input_dir]. *)
Definition resume (args : Args) (env : Env) : M unit :=
  match input_dir args with
  | None => ret tt
  | Some checkpoint_file =>
      if String.eqb checkpoint_file "" then ret tt
      else
        checkpoint <- torch_load env checkpoint_file ;;
        if bool_decide ("model_state_dict" ∈ dom checkpoint) then
          v <- getitem checkpoint "model_state_dict" ;;
          sd <- as_state_dict v ;;
          load_state_dict sd ;;
          b <- getitem checkpoint "best_accuracy" ;;
          modify (set_best_acc b)
        else
          load_state_dict_file checkpoint
  end.

(** Lines 342-344: keep the checkpoint when the accuracy is a new best. *)
Definition update_best (args : Args) (accuracy : Q) : M unit :=
  s <- get ;;
  lt <- py_lt (best_acc s) (PFloat accuracy) ;;
  if lt then
    save_model_complete args (PFloat accuracy) (global_step s) ;;
    modify (set_best_acc (PFloat accuracy))
  else ret tt.

(** Lines 338-345: the evaluation block. *)
Definition evaluate (args : Args) (env : Env) : M unit :=
  s <- get ;;
  read_writer ;;
  accuracy <- valid args env (global_step s) ;;
  read_writer ;;
  mAp args env (global_step s) ;;
  update_best args accuracy.

(** [optimizer.step()] *)
Definition optimizer_step : M unit :=
  s <- get ;;
  let wm := sgd (weights s) (momentum s) (grads s) in
  log (EOptimizerStep (grads s)) ;;
  modify (set_weights wm.1) ;;
  modify (set_momentum wm.2).

(** [(step + 1) % args.gradient_accumulation_steps == 0] *)
Definition window_complete (args : Args) (step : Z) : M bool :=
  r <- py_mod (step + 1) (gradient_accumulation_steps args) ;;
  ret (r =? 0).

(** Lines 305-315: forward and backward pass on one micro-batch; the
    gradients add to those already accumulated. *)
Definition accumulate (b : batch) : M unit :=
  log (EBackward b) ;;
  modify (fun s => set_grads (b :: grads s) s).

(** Lines 318-326: the optimizer update that closes a window. *)
Definition optimizer_update : M unit :=
  log EClipGradNorm ;;
  modify (fun s => set_last_epoch (last_epoch s + 1) s) ;;    (* scheduler.step() *)
  optimizer_step ;;
  modify (set_grads []) ;;                                    (* optimizer.zero_grad() *)
  modify (fun s => set_global_step (global_step s + 1) s).

(** Lines 328-348: metrics, periodic evaluation and the exit test;
    returns whether [break] is executed. *)
Definition report_and_evaluate (args : Args) (env : Env) : M bool :=
  (if primary args then
     s <- get ;;
     add_scalar "train/loss" (global_step s) ;;
     add_scalar "train/lr" (global_step s)
   else ret tt) ;;
  s <- get ;;
  r <- py_mod (global_step s) (eval_every args) ;;
  (if (r =? 0) && primary args then evaluate args env else ret tt) ;;
  s <- get ;;
  r <- py_mod (global_step s) (num_steps args) ;;
  ret (r =? 0).

(** Lines 305-348: the body of the loop over an epoch's batches; returns
    whether [break] was executed. *)
Definition micro_batch (args : Args) (env : Env) (step : Z) (b : batch) : M bool :=
  accumulate b ;;
  complete <- window_complete args step ;;
  if complete : bool then
    optimizer_update ;;
    report_and_evaluate args env
  else ret false.

(** Line 304: [for step, batch in enumerate(epoch_iterator)]. *)
Fixpoint for_batches (args : Args) (env : Env) (step : Z) (batches : list batch) : M unit :=
  match batches with
  | [] => ret tt
  | b :: rest =>
      broke <- micro_batch args env step b ;;
      if broke : bool then ret tt else for_batches args env (step + 1) rest
  end.

(** Lines 297-351: one iteration of [while True]; returns whether the
    loop is left. *)
Definition epoch (args : Args) (env : Env) : M bool :=
  for_batches args env 0 (train_loader env) ;;
  s <- get ;;
  r <- py_mod (global_step s) (num_steps args) ;;
  ret (r =? 0).

Fixpoint train_loop (fuel : nat) (args : Args) (env : Env) : M unit :=
  match fuel with
  | O => fun s => OutOfFuel s
  | S fuel' =>
      stop <- epoch args env ;;
      if stop : bool then ret tt else train_loop fuel' args env
  end.

(** Lines 206-294: everything [train] does before the loop. *)
Definition startup (args : Args) (env : Env) : M unit :=
  (if primary args then
     log (EMakedirs (output_dir args)) ;;
     modify (set_writer (Some ("logs/" +:+ name args)))
   else ret tt) ;;
  py_floordiv (train_batch_size args) (gradient_accumulation_steps args) ;;
  modify (set_momentum ∅) ;;                    (* a new SGD optimizer *)
  modify (set_last_epoch 0) ;;                  (* a new scheduler *)
  modify (set_global_step 0) ;;
  modify (set_best_acc (PInt 0)) ;;
  resume args env ;;
  modify (set_grads []) ;;                      (* model.zero_grad() *)
  read_writer ;;
  mAp args env (-1).

(** Lines 353-356: closing the writer and reporting the best accuracy. *)
Definition finish (args : Args) : M unit :=
  (if primary args then log EWriterClose else ret tt) ;;
  s <- get ;;
  match to_number (best_acc s) with             (* "Best Accuracy: \t%f" % best_acc *)
  | Some _ => ret tt
  | None => raise TypeError
  end.

Definition train (fuel : nat) (args : Args) (env : Env) : M unit :=
  startup args env ;;
  train_loop fuel args env ;;
  finish args.

End Network.

(** The state in which [train] is entered: the model that [setup] built. *)
Definition entry_state (w : gmap string Z) : state :=
  {| weights := w; momentum := ∅; grads := []; last_epoch := 0;
     global_step := 0; best_acc := PInt 0; writer := None; trace := [] |}.

(** How many [optimizer.step()] calls a trace holds. *)
Definition is_optimizer_step (e : event) : bool :=
  match e with
  | EOptimizerStep _ => true
  | _ => false
  end.

Definition optimizer_steps (s : state) : nat :=
  length (filter is_optimizer_step (trace s)).

(** ** The learning-rate schedule *)

Module Schedule.

Local Open Scope R_scope.

Inductive decay_kind := linear | cosine.

Record ScheduleConfig := {
  warmup : Z;
  total_steps : Z;
  decay : decay_kind
}.

(** The schedule of the default arguments. *)
Definition default_schedule : ScheduleConfig :=
  {| warmup := 500; total_steps := 10000; decay := cosine |}.

Definition clamp01 (x : R) : R := Rmax 0 (Rmin 1 x).

(** Modelled from the spec: [utils/scheduler.py] ([WarmupLinearSchedule],
    [WarmupCosineSchedule]) is imported by train.py but is not among the
    sources; the multiplier follows the schedule contract of the
    specification (linear ramp during warmup, then linear or cosine decay
    of the clamped progress). *)
Definition rate (c : ScheduleConfig) (step : Z) : R :=
  if (step <? warmup c)%Z
  then IZR step / IZR (Z.max (warmup c) 1)
  else
    let progress :=
      clamp01 (IZR (step - warmup c) / IZR (Z.max (total_steps c - warmup c) 1)) in
    match decay c with
    | linear => 1 - progress
    | cosine => 0.5 * (1 + cos (PI * progress))
    end.

(** Lines 246-250: which schedule [train] builds from the arguments. *)
Definition scheduler_of (args : Args) : ScheduleConfig :=
  {| warmup := warmup_steps args;
     total_steps := num_steps args;
     decay := if String.eqb (decay_type args) "cosine" then cosine else linear |}.

End Schedule.

(** ** Observing a run *)

(** The file written by the most recent action, when it was a save. *)
Definition written_file (s : state) : option path :=
  match trace s with
  | ETorchSave f _ :: _ => Some f
  | _ => None
  end.

(** The (step, accuracy) pairs of the best-accuracy checkpoints a trace
    holds, oldest first. *)
Definition best_save (e : event) : option (Z * pyobj) :=
  match e with
  | ETorchSave (Join _ (best_acc_checkpoint step accuracy)) _ => Some (step, accuracy)
  | _ => None
  end.

Definition best_saves (tr : list event) : list (Z * pyobj) :=
  rev (omap best_save tr).

Definition is_backward (e : event) : bool :=
  match e with
  | EBackward _ => true
  | _ => false
  end.

(** Whether an action is an evaluation, a metrics emission or a
    checkpoint write. *)
Definition is_gated_action (e : event) : bool :=
  match e with
  | EAddScalar _ _ | EValid _ _ | EmAp _ | ETorchSave _ _ => true
  | _ => false
  end.

(** The actions that follow the most recent [optimizer.step()]. *)
Fixpoint since_last_step (tr : list event) : list event :=
  match tr with
  | [] => []
  | e :: rest => if is_optimizer_step e then [] else e :: since_last_step rest
  end.

(** The labels of a loader are classes of a 40-way one-hot encoding. *)
Definition labels_below_40 (loader : list batch) : Prop :=
  Forall (Forall (fun xy : Z * Z => 0 <= xy.2 < 40)) loader.

(** An action other than a backward pass or an optimizer update. *)
Definition quiet (e : event) : bool :=
  negb (is_optimizer_step e) && negb (is_backward e).

(** [s'] differs from [s] by quiet actions only: the step counter, the
    accumulated gradients, the optimizer and the writer are those of [s]. *)
Record extends (s s' : state) : Prop := {
  ext_global_step : global_step s' = global_step s;
  ext_grads : grads s' = grads s;
  ext_momentum : momentum s' = momentum s;
  ext_writer : writer s' = writer s;
  ext_trace : exists post, trace s' = post ++ trace s /\ forallb quiet post = true
}.

(** A computation that only performs quiet actions, whatever its outcome. *)
Definition preserves {A} (c : M A) : Prop :=
  forall s, extends s (final_state (c s)).

(** A k-by-k matrix. *)
Definition square (k : nat) (c : list (list Z)) : Prop :=
  length c = k /\ Forall (fun row => length row = k) c.

(** The evaluation passes cannot fail on this test set: it is not empty,
    its labels fit the 40-way encoding of [mAp], and the classifier head
    has 40 outputs. *)
Definition evaluation_safe (args : Args) (env : Env) : Prop :=
  test_loader env <> [] /\ labels_below_40 (test_loader env) /\ num_classes args = 40.

Definition is_number (v : pyobj) : Prop := to_number v <> None.

(** The state after the backward pass on a micro-batch. *)
Definition accumulated (b : batch) (s : state) : state :=
  set_grads (b :: grads s) (emit (EBackward b) s).

(** The batches accumulated by the most recent optimizer update. *)
Fixpoint last_update (tr : list event) : option (list batch) :=
  match tr with
  | [] => None
  | EOptimizerStep g :: _ => Some g
  | _ :: rest => last_update rest
  end.

(** The best-checkpoint policy of lines 342-344 applied to the accuracies
    of successive evaluations, the i-th one taken at global step [step + i]. *)
Fixpoint process_accuracies (args : Args) (step : Z) (accs : list Q) : M unit :=
  match accs with
  | [] => ret tt
  | a :: rest =>
      modify (set_global_step step) ;;
      update_best args a ;;
      process_accuracies args (step + 1) rest
  end.

(** [max(a, l_1, ..., l_n)] *)
Definition list_Qmax (a : Q) (l : list Q) : Q := fold_left Qmax l a.

(** ** Concrete inputs used in examples *)

Definition example_args (K T E rank : Z) (resume_from : option string) : Args :=
  {| name := "run"; dataset := "stanford40";
     output_dir := "best"; output_dir_every_checkpoint := "every";
     input_dir := resume_from; train_batch_size := 512;
     eval_every := E; num_steps := T; decay_type := "cosine";
     warmup_steps := 500; local_rank := rank;
     gradient_accumulation_steps := K |}.

Definition example_weights (v : Z) : gmap string Z := <["head.weight" := v]> ∅.

(** A complete-state checkpoint taken at step 100 with a non-empty
    optimizer state. *)
Definition example_complete_checkpoint : gmap string pyobj :=
  <["step" := PInt 100]>
  (<["model_state_dict" := PStateDict (example_weights 7)]>
   (<["optimizer_state_dict" := PStateDict (example_weights 5)]>
    (<["best_accuracy" := PFloat (9 # 10)]> ∅))).

Definition example_env (L : nat) (extra : gmap string (gmap string pyobj)) : Env :=
  {| files := <[mAp_checkpoint_file := example_complete_checkpoint]> extra;
     train_loader := replicate L [(1, 1)];
     test_loader := [[(1, 1); (2, 3)]] |}.

Definition example_predict (w : gmap string Z) (x : Z) : Z := x.

Definition example_sgd (w m : gmap string Z) (g : list batch) :
    gmap string Z * gmap string Z :=
  (Z.succ <$> w, w).

(** The checkpoint content written by the most recent action. *)
Definition written_content (s : state) : option (gmap string pyobj) :=
  match trace s with
  | ETorchSave _ c :: _ => Some c
  | _ => None
  end.

(** On the primary worker the local [writer] is bound. *)
Definition bound_writer (args : Args) (s : state) : Prop :=
  primary args = true -> writer s <> None.

(** What the loop keeps true of the writer and of [best_acc]. *)
Definition loop_invariant (args : Args) (Q : pyobj -> Prop) (s : state) : Prop :=
  bound_writer args s /\ Q (best_acc s).

(** The state in which a primary worker enters the loop when nothing
    was resumed. *)
Definition example_loop_entry : state :=
  set_writer (Some "logs/run") (entry_state (example_weights 0)).

(** A checkpoint as the periodic path writes it: [best_accuracy] is [None]. *)
Definition example_periodic_checkpoint : gmap string pyobj :=
  <["step" := PInt 100]>
  (<["model_state_dict" := PStateDict (example_weights 3)]>
   (<["optimizer_state_dict" := PStateDict ∅]>
    (<["best_accuracy" := PNone]> ∅))).

(** ** AverageMeter (lines 31-46) *)

(** The running average of the training and validation losses.  The
    values are Python floats: their type and their rounded arithmetic are
    left open, so that what is proved holds of whatever the operations
    round to; [to_float] is the conversion of an int in mixed arithmetic,
    which fails on an int too large for a float.  The count is a Python
    int. *)
Module AverageMeter.

Section Floats.
Variable F : Type.
Variable zero : F.                       (* what [reset] assigns *)
Variables add mul div : F -> F -> F.     (* [+], [*] and [/] on floats *)
Variable to_float : Z -> option F.

Record t := {
  val : F;
  avg : F;
  sum : F;
  count : Z
}.

(** [reset] (also [__init__]): every field becomes 0. *)
Definition reset (m : t) : t :=
  {| val := zero; avg := zero; sum := zero; count := 0 |}.

Definition new : t := {| val := zero; avg := zero; sum := zero; count := 0 |}.

(** [update(val, n)]: the assignments made before a statement raises
    stay; [val * n] and [self.sum / self.count] convert the int operand
    (OverflowError when it does not fit), and the division raises
    ZeroDivisionError on a count of 0, [avg] keeping its old value. *)
Definition update (m : t) (v : F) (n : Z) : t * option pyerr :=
  match to_float n with
  | None =>
      ({| val := v; avg := avg m; sum := sum m; count := count m |}, Some OverflowError)
  | Some fn =>
      let sum' := add (sum m) (mul v fn) in
      let count' := count m + n in
      match to_float count' with
      | None =>
          ({| val := v; avg := avg m; sum := sum'; count := count' |}, Some OverflowError)
      | Some fc =>
          if count' =? 0
          then ({| val := v; avg := avg m; sum := sum'; count := count' |},
                Some ZeroDivisionError)
          else ({| val := v; avg := div sum' fc; sum := sum'; count := count' |}, None)
      end
  end.

(** Successive calls of [update]; the first exception ends them. *)
Fixpoint updates (m : t) (calls : list (F * Z)) : t * option pyerr :=
  match calls with
  | [] => (m, None)
  | (v, n) :: rest =>
      match update m v n with
      | (m', None) => updates m' rest
      | (m', Some e) => (m', Some e)
      end
  end.

(** What [sum] accumulates over a list of calls, starting from [acc]. *)
Definition float_sum (acc : F) (calls : list (F * Z)) : F :=
  fold_left (fun acc vn => match to_float vn.2 with
                           | Some fn => add acc (mul vn.1 fn)
                           | None => acc
                           end) calls acc.

End Floats.

Arguments val {F} _.
Arguments avg {F} _.
Arguments sum {F} _.
Arguments count {F} _.
Arguments reset {F} zero m.
Arguments new {F} zero.
Arguments update {F} add mul div to_float m v n.
Arguments updates {F} add mul div to_float m calls.
Arguments float_sum {F} add mul to_float acc calls.

End AverageMeter.

(** [sum(n)] over a list of calls. *)
Definition total_weight {F} (calls : list (F * Z)) : Z :=
  fold_right (fun vn acc => vn.2 + acc) 0 calls.

(** ** save_model (lines 53-57) *)

(** The object the name [model] is bound to: the network, or the
    DistributedDataParallel wrapper that holds it as [module]. *)
Inductive model :=
  | Module_ (state : gmap string Z)
  | Wrapped (module : gmap string Z).

(** [model.module if hasattr(model, 'module') else model], then
    [.state_dict()]. *)
Definition model_to_save (m : model) : gmap string Z :=
  match m with
  | Module_ sd => sd
  | Wrapped sd => sd
  end.

(** [os.path.join(dir, name)] on a POSIX system. *)
Definition starts_with_slash (s : string) : bool := String.prefix "/" s.

Definition ends_with_slash (s : string) : bool :=
  String.eqb (String.substring (String.length s - 1) 1 s) "/".

Definition path_join (dir name : string) : string :=
  if starts_with_slash name then name
  else if String.eqb dir "" || ends_with_slash dir then dir +:+ name
  else dir +:+ "/" +:+ name.

(** The file [save_model] writes and what it holds: the state dict of the
    unwrapped network. *)
Definition save_model (args : Args) (m : model) : string * gmap string pyobj :=
  let model_checkpoint := path_join (output_dir args) (name args +:+ "_checkpoint.bin") in
  (model_checkpoint, PTensor <$> model_to_save m).

(** The file system after [torch.save(content, file)]. *)
Definition with_file (file : string) (content : gmap string pyobj) (env : Env) : Env :=
  {| files := <[file := content]> (files env);
     train_loader := train_loader env;
     test_loader := test_loader env |}.

(** ** Properties of a run *)

(** [c] keeps [I] from its initial to its final state, whatever its
    outcome. *)
Definition always {A} (I : state -> Prop) (c : M A) : Prop :=
  forall s, I s -> I (final_state (c s)).

(** [c] leaves the projection [f] of the state as it is, whatever its
    outcome. *)
Definition keeps {A B} (f : state -> B) (c : M A) : Prop :=
  forall s, f (final_state (c s)) = f s.

(** The model, the optimizer, the accumulated gradients and the counters:
    what an evaluation pass must not touch. *)
Definition training_state (s : state) :
    gmap string Z * gmap string Z * list batch * Z * Z :=
  (weights s, momentum s, grads s, last_epoch s, global_step s).

(** The step counter, the number of optimizer updates made and the number
    of scheduler steps agree. *)
Definition counters_agree (s : state) : Prop :=
  global_step s = Z.of_nat (optimizer_steps s) /\ last_epoch s = global_step s.

(** The global step an evaluation, metrics or checkpoint action is keyed by. *)
Definition action_step (e : event) : option Z :=
  match e with
  | EAddScalar _ g => Some g
  | EValid g _ => Some g
  | EmAp g => Some g
  | ETorchSave (Join _ (step_checkpoint g)) _ => Some g
  | ETorchSave (Join _ (best_acc_checkpoint g _)) _ => Some g
  | _ => None
  end.

(** Whether an action is a full evaluation or a checkpoint write. *)
Definition is_evaluation (e : event) : bool :=
  match e with
  | EValid _ _ | EmAp _ | ETorchSave _ _ => true
  | _ => false
  end.

(** Every optimizer update of a trace applies the gradients of at least
    [k] micro-batches. *)
Definition updates_at_least (k : Z) (tr : list event) : Prop :=
  Forall (fun e => match e with
                   | EOptimizerStep g => k <= Z.of_nat (length g)
                   | _ => True
                   end) tr.

(** How many samples of a test set have label [t] and prediction [p]. *)
Definition count_pairs (pairs : list (Z * Z)) (t p : Z) : Z :=
  Z.of_nat (length (filter (fun tp : Z * Z => bool_decide (tp.1 = t /\ tp.2 = p)) pairs)).

(** Cell (t, p) of a confusion matrix. *)
Definition cell (c : list (list Z)) (t p : Z) : option Z :=
  c !! Z.to_nat t ≫= fun row => row !! Z.to_nat p.

(** How many predictions equal their label. *)
Definition hits (preds labels : list Z) : nat :=
  length (filter (fun pl : Z * Z => bool_decide (pl.1 = pl.2)) (zip preds labels)).

(** [c] returns or raises from every state: it never runs out of fuel. *)
Definition completes {A} (c : M A) : Prop :=
  forall s s', c s <> OutOfFuel s'.

(** An evaluation or a checkpoint write is keyed by -1 (the pass made
    before the loop) or by a positive multiple of [every]. *)
Definition on_cadence (every : Z) (e : event) : bool :=
  if is_evaluation e then
    match action_step e with
    | Some g => (g =? -1) || ((1 <=? g) && (g mod every =? 0))
    | None => false
    end
  else true.

(** A run that has made no optimizer update yet. *)
Definition before_training (every : Z) (s : state) : Prop :=
  global_step s = 0 /\ last_epoch s = 0 /\ optimizer_steps s = 0%nat
  /\ forallb (on_cadence every) (trace s) = true.

(** The state after the optimizer update of lines 318-326. *)
Definition updated (sgd : gmap string Z -> gmap string Z -> list batch ->
                          gmap string Z * gmap string Z) (s : state) : state :=
  {| weights := (sgd (weights s) (momentum s) (grads s)).1;
     momentum := (sgd (weights s) (momentum s) (grads s)).2;
     grads := [];
     last_epoch := last_epoch s + 1;
     global_step := global_step s + 1;
     best_acc := best_acc s;
     writer := writer s;
     trace := EOptimizerStep (grads s) :: EClipGradNorm :: trace s |}.

(** Before a micro-batch is processed: the counters agree and, when a
    positive number of steps is asked for, it has not been reached. *)
Definition steps_below (args : Args) (s : state) : Prop :=
  counters_agree s /\ 0 <= global_step s
  /\ (1 <= num_steps args -> global_step s < num_steps args).

(** Where the loop can be left: the number of steps asked for is not
    exceeded. *)
Definition steps_within (args : Args) (s : state) : Prop :=
  counters_agree s /\ 0 <= global_step s
  /\ (1 <= num_steps args -> global_step s <= num_steps args).

(** The accumulated micro-batches make up for the part of the window
    that the batch index says has been processed. *)
Definition window_filled (args : Args) (step : Z) (s : state) : Prop :=
  updates_at_least (gradient_accumulation_steps args) (trace s)
  /\ step mod gradient_accumulation_steps args <= Z.of_nat (length (grads s)).

(** The evaluations, metrics and checkpoint writes of a trace. *)
Definition gated_actions (s : state) : list event :=
  filter is_gated_action (trace s).

(** ** More concrete inputs *)

(** Two calls of [AverageMeter.update]: the value 1/2 with weight 2, then
    the value 1 with weight 2. *)
Definition example_calls : list (Q * Z) := [((1 # 2)%Q, 2); (1%Q, 2)].

(** The arguments of a primary worker on a dataset with 100 classes. *)
Definition example_cifar100_args : Args :=
  {| name := "run"; dataset := "cifar100"; output_dir := "best";
     output_dir_every_checkpoint := "every"; input_dir := None;
     train_batch_size := 512; eval_every := 100; num_steps := 10;
     decay_type := "cosine"; warmup_steps := 500; local_rank := 0;
     gradient_accumulation_steps := 1 |}.

(** A checkpoint whose model has one parameter more than the example
    model. *)
Definition example_mismatched_checkpoint : gmap string pyobj :=
  <["model_state_dict" := PStateDict (<["extra.bias" := 1]> (example_weights 7))]>
  (<["best_accuracy" := PFloat (9 # 10)]> ∅).

(** The arguments of a primary worker with the default dataset option. *)
Definition example_cifar10_args : Args :=
  {| name := "run"; dataset := "cifar10"; output_dir := "best";
     output_dir_every_checkpoint := "every"; input_dir := None;
     train_batch_size := 512; eval_every := 100; num_steps := 10;
     decay_type := "cosine"; warmup_steps := 500; local_rank := 0;
     gradient_accumulation_steps := 1 |}.

(** * Proofs *)

(** Runs the monadic plumbing of a goal. *)
Ltac py_run :=
  cbv beta iota delta [bind ret raise get modify log lift];
  cbn [weights momentum grads last_epoch global_step best_acc writer trace
       set_weights set_momentum set_grads set_last_epoch set_global_step
       set_best_acc set_writer emit final_state to_number].

(** ** Floor division along the batch indices *)

Lemma div_succ_incomplete K step :
  1 <= K -> (step + 1) mod K <> 0 -> (step + 1) / K = step / K.
Proof.
  intros HK Hm.
  pose proof (Z.div_mod (step + 1) K ltac:(lia)) as H1.
  pose proof (Z.mod_pos_bound (step + 1) K ltac:(lia)) as H2.
  apply (Z.div_unique step K ((step + 1) / K) ((step + 1) mod K - 1)); lia.
Qed.

Lemma div_succ_complete K step :
  1 <= K -> (step + 1) mod K = 0 -> (step + 1) / K = step / K + 1.
Proof.
  intros HK Hm.
  pose proof (Z.div_mod (step + 1) K ltac:(lia)) as H1.
  assert ((step + 1) / K - 1 = step / K); [|lia].
  apply (Z.div_unique step K ((step + 1) / K - 1) (K - 1)); lia.
Qed.

Lemma mod_after_complete K a n :
  1 <= K -> 0 <= n -> a mod K = 0 -> (a + n) / K = a / K -> (a + n) mod K = n.
Proof.
  intros HK Hn Hm Hd.
  pose proof (Z.div_mod a K ltac:(lia)) as H1.
  pose proof (Z.div_mod (a + n) K ltac:(lia)) as H2.
  rewrite Hd in H2. lia.
Qed.

(** ** Checkpoint files *)

Lemma save_model_complete_ok args accuracy step s :
  exists content,
    save_model_complete args accuracy step s =
    Ok tt (emit (ETorchSave
                   (if truthy accuracy
                    then Join (output_dir args) (best_acc_checkpoint step accuracy)
                    else Join (output_dir_every_checkpoint args) (step_checkpoint step))
                   content) s)
    /\ content !! "best_accuracy" = Some accuracy
    /\ content !! "model_state_dict" = Some (PStateDict (weights s))
    /\ content !! "optimizer_state_dict" = Some (PStateDict (momentum s))
    /\ content !! "step" = Some (PInt step).
Proof.
  eexists. split.
  - unfold save_model_complete, bind, get, log, modify. destruct (truthy accuracy); reflexivity.
  - repeat split; by simplify_map_eq.
Qed.

(** C8: the checkpoint goes to the best-accuracy path, whose name encodes
    step and accuracy, exactly when the accuracy argument is truthy; with
    [None] or [0.0] it goes to the every-checkpoint directory under the
    step-named scheme. *)
Theorem save_model_complete_path args accuracy step s :
  let s' := final_state (save_model_complete args accuracy step s) in
  (written_file s' = Some (Join (output_dir args) (best_acc_checkpoint step accuracy))
     <-> truthy accuracy = true)
  /\ (truthy accuracy = false ->
      written_file s' = Some (Join (output_dir_every_checkpoint args) (step_checkpoint step)))
  /\ truthy PNone = false
  /\ (forall q : Q, (q == 0)%Q -> truthy (PFloat q) = false).
Proof.
  destruct (save_model_complete_ok args accuracy step s) as (c & -> & _).
  simpl. unfold written_file. simpl.
  repeat split.
  - destruct (truthy accuracy); [done | intros H; discriminate H].
  - intros ->. done.
  - intros ->. done.
  - intros q Hq. simpl. apply Qeq_bool_iff in Hq. by rewrite Hq.
Qed.

(** ** The best-checkpoint policy *)

Lemma elem_of_rev {A} (x : A) (l : list A) : x ∈ rev l <-> x ∈ l.
Proof. rewrite !list_elem_of_In. symmetry. apply in_rev. Qed.

Lemma Qlt_bool_true a b : Qlt_bool a b = true <-> (a < b)%Q.
Proof.
  unfold Qlt_bool. rewrite negb_true_iff, <- not_true_iff_false, Qle_bool_iff.
  split; [apply Qnot_le_lt | apply Qlt_not_le].
Qed.

Lemma Qlt_bool_false a b : Qlt_bool a b = false <-> (b <= a)%Q.
Proof.
  unfold Qlt_bool. rewrite negb_false_iff. apply Qle_bool_iff.
Qed.

Lemma truthy_positive q : (0 < q)%Q -> truthy (PFloat q) = true.
Proof.
  intros Hq. simpl. apply negb_true_iff, not_true_iff_false.
  rewrite Qeq_bool_iff. intros H. rewrite H in Hq. by apply Qlt_irrefl in Hq.
Qed.

Lemma list_Qmax_proper l : forall a b, (a == b)%Q -> (list_Qmax a l == list_Qmax b l)%Q.
Proof.
  induction l as [|x l IH]; intros a b Hab; simpl; [done|].
  apply IH. by rewrite Hab.
Qed.

(** One application of the policy. *)
Lemma update_best_numeric args a s b0 :
  to_number (best_acc s) = Some b0 ->
  ((b0 < a)%Q -> (0 <= b0)%Q ->
   exists content,
     update_best args a s =
     Ok tt (set_best_acc (PFloat a)
              (emit (ETorchSave (Join (output_dir args)
                                   (best_acc_checkpoint (global_step s) (PFloat a)))
                       content) s)))
  /\ ((a <= b0)%Q -> update_best args a s = Ok tt s).
Proof.
  intros Hb. unfold update_best, py_lt. py_run. rewrite Hb. py_run. split.
  - intros Hlt Hpos.
    destruct (save_model_complete_ok args (PFloat a) (global_step s) s) as (c & Hsave & _).
    rewrite truthy_positive in Hsave by (eapply Qle_lt_trans; eauto).
    exists c. apply Qlt_bool_true in Hlt. rewrite Hlt.
    cbv beta iota delta [bind ret modify]. by rewrite Hsave.
  - intros Hle. apply Qlt_bool_false in Hle. by rewrite Hle.
Qed.

Lemma process_accuracies_spec args : forall accs step s b0,
  to_number (best_acc s) = Some b0 -> (0 <= b0)%Q ->
  exists s' m new,
    process_accuracies args step accs s = Ok tt s'
    /\ to_number (best_acc s') = Some m /\ (m == list_Qmax b0 accs)%Q
    /\ omap best_save (trace s') = new ++ omap best_save (trace s)
    /\ forall g v, (g, v) ∈ new <->
         exists (i : nat) x, g = step + Z.of_nat i /\ v = PFloat x
           /\ accs !! i = Some x /\ (b0 < x)%Q
           /\ forall (j : nat) y, (j < i)%nat -> accs !! j = Some y -> (y < x)%Q.
Proof.
  induction accs as [|a rest IH]; intros step s b0 Hb Hpos.
  - exists s, b0, []. simpl. repeat split; try done.
    + intros H. by apply elem_of_nil in H.
    + intros (i & x & _ & _ & H & _). by rewrite lookup_nil in H.
  - cbn [process_accuracies]. unfold bind at 1. unfold modify at 1.
    unfold bind at 1.
    destruct (update_best_numeric args a (set_global_step step s) b0 Hb) as [Hsave Hkeep].
    destruct (Qlt_le_dec b0 a) as [Hlt|Hle].
    + destruct (Hsave Hlt Hpos) as [content ->]. clear Hsave Hkeep.
      set (s1 := set_best_acc _ _) in *.
      destruct (IH (step + 1) s1 a eq_refl) as (s' & m & new & Hrun & Hm & Hmax & Htr & Hnew).
      { eapply Qle_trans; [exact Hpos|by apply Qlt_le_weak]. }
      exists s', m, (new ++ [(step, PFloat a)]). split; [done|]. split; [done|].
      split; [|split].
      * rewrite Hmax. simpl. apply list_Qmax_proper. symmetry. apply Q.max_r.
        by apply Qlt_le_weak.
      * rewrite Htr, <- app_assoc. done.
      * intros g v. rewrite elem_of_app, Hnew, list_elem_of_singleton. split.
        -- intros [(i & x & -> & -> & Hi & Hax & Hprev)|[= -> ->]].
           ++ exists (S i), x. repeat split; [lia|done| |].
              { eapply Qlt_trans; eauto. }
              intros [|j] y Hj Hy; simpl in Hy.
              { by injection Hy as <-. }
              eapply Hprev; [|done]. lia.
           ++ exists 0%nat, a. repeat split; [lia|done|]. intros j y Hj. lia.
        -- intros ([|i] & x & -> & -> & Hi & Hbx & Hprev); simpl in Hi.
           ++ right. injection Hi as <-. f_equal. lia.
           ++ left. exists i, x. repeat split; [lia|done| |].
              { apply (Hprev 0%nat a); [lia|done]. }
              intros j y Hj Hy. apply (Hprev (S j) y); [lia|done].
    + rewrite (Hkeep Hle). clear Hsave Hkeep.
      destruct (IH (step + 1) (set_global_step step s) b0 Hb Hpos)
        as (s' & m & new & Hrun & Hm & Hmax & Htr & Hnew).
      exists s', m, new. split; [done|]. split; [done|]. split; [|split].
      * rewrite Hmax. simpl. apply list_Qmax_proper. symmetry. by apply Q.max_l.
      * done.
      * intros g v. rewrite Hnew. split.
        -- intros (i & x & -> & -> & Hi & Hax & Hprev).
           exists (S i), x. repeat split; [lia|done|done|].
           intros [|j] y Hj Hy; simpl in Hy.
           { injection Hy as <-. eapply Qle_lt_trans; eauto. }
           eapply Hprev; [|done]. lia.
        -- intros ([|i] & x & -> & -> & Hi & Hbx & Hprev); simpl in Hi.
           ++ injection Hi as <-. exfalso. eapply Qlt_irrefl, Qlt_le_trans; eauto.
           ++ exists i, x. repeat split; [lia|done|done|].
              intros j y Hj Hy. apply (Hprev (S j) y); [lia|done].
Qed.

(** An accuracy is a fraction between 0 and 1. *)
Lemma simple_accuracy_range preds labels :
  (0 <= simple_accuracy preds labels <= 1)%Q.
Proof.
  unfold simple_accuracy.
  set (hits := filter _ _).
  assert (Hle : (length hits <= length preds)%nat).
  { subst hits. etransitivity; [apply length_filter|].
    rewrite length_zip_with. lia. }
  destruct (length preds) as [|n] eqn:Hn.
  - replace (length hits) with 0%nat by lia. split; discriminate.
  - split.
    + apply Qle_shift_div_l; [reflexivity|].
      rewrite Qmult_0_l. change 0%Q with (inject_Z 0). rewrite <- Zle_Qle. lia.
    + apply Qle_shift_div_r; [reflexivity|].
      rewrite Qmult_1_l. rewrite <- Zle_Qle. lia.
Qed.

(** C5: from an initial best of 0, after the accuracies [a_1 .. a_n] of
    successive evaluations the retained best is [max(a_1 .. a_n)], and a
    best-accuracy checkpoint is written at exactly the indices whose
    accuracy is strictly above 0 and above every earlier one. *)
Theorem best_checkpoint_policy args a accs s :
  best_acc s = PInt 0 -> trace s = [] ->
  Forall (fun x => (0 <= x)%Q) (a :: accs) ->
  exists s' m,
    process_accuracies args 1 (a :: accs) s = Ok tt s'
    /\ to_number (best_acc s') = Some m /\ (m == list_Qmax a accs)%Q
    /\ forall (i : nat) x,
         (1 + Z.of_nat i, PFloat x) ∈ best_saves (trace s') <->
         (a :: accs) !! i = Some x /\ (0 < x)%Q
         /\ forall (j : nat) y, (j < i)%nat -> (a :: accs) !! j = Some y -> (y < x)%Q.
Proof.
  intros Hbest Htrace Hpos.
  destruct (process_accuracies_spec args (a :: accs) 1 s 0%Q)
    as (s' & m & new & Hrun & Hm & Hmax & Htr & Hnew).
  { by rewrite Hbest. }
  { apply Qle_refl. }
  exists s', m. split; [done|]. split; [done|]. split.
  - rewrite Hmax. simpl. apply list_Qmax_proper, Q.max_r.
    by apply Forall_cons in Hpos as [? _].
  - intros i x. unfold best_saves. rewrite elem_of_rev, Htr, Htrace. simpl.
    rewrite app_nil_r, Hnew. split.
    + intros (i' & x' & Hi & [= <-] & Hrest). by replace i with i' by lia.
    + intros H. by exists i, x.
Qed.

(** ** The learning-rate schedule *)

Section ScheduleFacts.
Import Schedule.
Local Open Scope R_scope.

Lemma clamp01_bounds x : 0 <= clamp01 x <= 1.
Proof.
  unfold clamp01, Rmax, Rmin.
  destruct (Rle_dec 1 x); destruct (Rle_dec 0 _); lra.
Qed.

Lemma clamp01_id x : 0 <= x <= 1 -> clamp01 x = x.
Proof.
  intros Hx. unfold clamp01, Rmax, Rmin.
  destruct (Rle_dec 1 x); destruct (Rle_dec 0 _); lra.
Qed.

Lemma warmup_ratio_bounds (step W : Z) :
  (0 <= step < W)%Z -> 0 <= IZR step / IZR (Z.max W 1) < 1.
Proof.
  intros H. rewrite Z.max_l by lia.
  assert (0 <= IZR step) by (apply IZR_le; lia).
  assert (IZR step < IZR W) by (apply IZR_lt; lia).
  split.
  - apply Rmult_le_pos; [lra|]. apply Rlt_le, Rinv_0_lt_compat. lra.
  - apply Rmult_lt_reg_r with (IZR W); [lra|]. field_simplify; lra.
Qed.

(** C7: for every step >= 0 the multiplier lies in [0,1]; it is
    [step / max(warmup, 1)] during warmup and afterwards [1 - progress]
    (linear) or [0.5 * (1 + cos(pi * progress))] (cosine) of the clamped
    progress; with warmup 500, 10000 steps and cosine decay it is 0.5 at
    step 250, 1 at step 500 and 0 at step 10000. *)
Theorem rate_contract (c : ScheduleConfig) (step : Z) :
  (0 <= step)%Z ->
  0 <= rate c step <= 1
  /\ ((step < warmup c)%Z -> rate c step = IZR step / IZR (Z.max (warmup c) 1))
  /\ ((warmup c <= step)%Z ->
      let progress :=
        clamp01 (IZR (step - warmup c) / IZR (Z.max (total_steps c - warmup c) 1)) in
      0 <= progress <= 1 /\
      rate c step = match decay c with
                    | linear => 1 - progress
                    | cosine => 0.5 * (1 + cos (PI * progress))
                    end)
  /\ scheduler_of (example_args 1 10000 100 (-1) None) = default_schedule
  /\ rate default_schedule 250 = 0.5
  /\ rate default_schedule 500 = 1
  /\ rate default_schedule 10000 = 0.
Proof.
  intros Hstep. unfold rate. repeat split.
  - destruct (Z.ltb_spec step (warmup c)).
    + apply (warmup_ratio_bounds step (warmup c)). lia.
    + pose proof (clamp01_bounds (IZR (step - warmup c) / IZR (Z.max (total_steps c - warmup c) 1))).
      destruct (decay c); [lra|]. pose proof (COS_bound (PI * clamp01 (IZR (step - warmup c) / IZR (Z.max (total_steps c - warmup c) 1)))). lra.
  - destruct (Z.ltb_spec step (warmup c)).
    + apply Rlt_le, (warmup_ratio_bounds step (warmup c)). lia.
    + pose proof (clamp01_bounds (IZR (step - warmup c) / IZR (Z.max (total_steps c - warmup c) 1))).
      destruct (decay c); [lra|]. pose proof (COS_bound (PI * clamp01 (IZR (step - warmup c) / IZR (Z.max (total_steps c - warmup c) 1)))). lra.
  - intros H. apply Z.ltb_lt in H. by rewrite H.
  - apply clamp01_bounds.
  - apply clamp01_bounds.
  - apply Z.ltb_ge in H. by rewrite H.
  - simpl. change (Z.max 500 1) with 500%Z. lra.
  - simpl. change (Z.max (10000 - 500) 1) with 9500%Z.
    change (500 - 500)%Z with 0%Z.
    rewrite clamp01_id by lra.
    replace (PI * (0 / 9500)) with 0 by lra. rewrite cos_0. lra.
  - simpl. change (Z.max (10000 - 500) 1) with 9500%Z.
    change (10000 - 500)%Z with 9500%Z.
    rewrite clamp01_id by lra.
    replace (PI * (9500 / 9500)) with PI by lra. rewrite cos_PI. lra.
Qed.
End ScheduleFacts.

(** ** The mAP evaluation pass *)

Lemma one_hot_rows y n rows :
  one_hot y n = Done rows ->
  length rows = length y /\ Forall (fun row => length row = Z.to_nat n) rows.
Proof.
  unfold one_hot. destruct (forallb _ y); [|discriminate].
  intros [= <-]. split; [by rewrite length_map|].
  apply Forall_forall. intros row Hrow.
  apply list_elem_of_In, in_map_iff in Hrow as (c & <- & _).
  by rewrite length_map, length_seqZ.
Qed.

Lemma one_hot_out_of_range y n c :
  c ∈ y -> n <= c -> one_hot y n = Failed RuntimeError.
Proof.
  intros Hc Hn. unfold one_hot.
  destruct (forallb _ y) eqn:Hall; [|done].
  rewrite forallb_forall in Hall.
  apply list_elem_of_In, Hall in Hc. lia.
Qed.

Lemma one_hot_in_range y n :
  Forall (fun c => 0 <= c < n) y -> exists rows, one_hot y n = Done rows.
Proof.
  intros Hy. unfold one_hot.
  destruct (forallb _ y) eqn:Hall; [eauto|].
  exfalso. apply not_true_iff_false in Hall. apply Hall.
  apply forallb_forall. intros c Hc.
  rewrite Forall_forall in Hy. apply list_elem_of_In, Hy in Hc. lia.
Qed.

Lemma ConfusionMeter_add_square m width predicted target m' k :
  ConfusionMeter_add m width predicted target = Done m' ->
  square k (conf m) -> cm_k m' = cm_k m /\ square k (conf m').
Proof.
  unfold ConfusionMeter_add.
  repeat match goal with |- context [if ?b then _ else _] => destruct b end;
    try discriminate.
  intros [= <-]. simpl. intros Hsq. split; [done|].
  generalize dependent (conf m). clear.
  induction (zip predicted target) as [|pt l IH]; intros c Hsq; simpl; [done|].
  apply IH. destruct Hsq as [Hlen Hrows]. split.
  - by rewrite length_alter.
  - apply Forall_alter; [done|]. intros row _ Hrow. by rewrite length_alter.
Qed.

Lemma new_ConfusionMeter_square k :
  square (Z.to_nat k) (conf (new_ConfusionMeter k)).
Proof.
  split; simpl.
  - by rewrite length_replicate.
  - apply Forall_replicate. by rewrite length_replicate.
Qed.

Section EvaluationPass.
Variable predict : gmap string Z -> Z -> Z.

Lemma mAp_batches_square w width loader : forall m m' k,
  mAp_batches predict w width m loader = Done m' ->
  square k (conf m) -> cm_k m' = cm_k m /\ square k (conf m').
Proof.
  induction loader as [|b rest IH]; intros m m' k; simpl.
  - by intros [= <-].
  - destruct (one_hot _ 40) as [rows|]; [|discriminate].
    destruct (ConfusionMeter_add _ _ _ _) as [m1|] eqn:Hadd; [|discriminate].
    intros Hrest Hsq.
    destruct (ConfusionMeter_add_square _ _ _ _ _ _ Hadd Hsq) as [Hk Hsq1].
    destruct (IH _ _ _ Hrest Hsq1) as [Hk' Hsq']. split; [congruence|done].
Qed.

Lemma mAp_batches_label_too_large w width loader : forall m b x y,
  b ∈ loader -> (x, y) ∈ b -> 40 <= y ->
  exists e, mAp_batches predict w width m loader = Failed e.
Proof.
  induction loader as [|b0 rest IH]; intros m b x y Hb Hxy Hy; simpl.
  - by apply elem_of_nil in Hb.
  - destruct (one_hot _ 40) as [rows|e] eqn:Hoh; [|eauto].
    destruct (ConfusionMeter_add _ _ _ _) as [m1|e]; [|eauto].
    apply elem_of_cons in Hb as [->|Hb]; [|eauto].
    rewrite (one_hot_out_of_range _ 40 y) in Hoh; [done| |done].
    apply list_elem_of_In, in_map_iff. exists (x, y). split; [done|].
    by apply list_elem_of_In.
Qed.

Lemma mAp_batches_safe w loader : forall m,
  cm_k m = 40 -> labels_below_40 loader ->
  exists m', mAp_batches predict w 40 m loader = Done m'.
Proof.
  induction loader as [|b rest IH]; intros m Hk Hl; simpl; [eauto|].
  apply Forall_cons in Hl as [Hb Hrest].
  destruct (one_hot_in_range (map snd b) 40) as [rows Hrows].
  { apply Forall_forall. intros c Hc.
    apply list_elem_of_In, in_map_iff in Hc as ([x y] & <- & Hin).
    rewrite Forall_forall in Hb. by apply list_elem_of_In, Hb in Hin. }
  rewrite Hrows.
  destruct (one_hot_rows _ _ _ Hrows) as [Hlen Hw].
  assert (Hadd : exists m1, ConfusionMeter_add m 40
             (map (fun xy : Z * Z => predict w xy.1) b) rows = Done m1 /\ cm_k m1 = 40).
  { unfold ConfusionMeter_add.
    rewrite !length_map in *. rewrite Hlen, Nat.eqb_refl. simpl.
    rewrite Hk. simpl.
    destruct (forallb _ rows) eqn:Hall; simpl; [eauto|].
    exfalso. apply not_true_iff_false in Hall. apply Hall.
    apply forallb_forall. intros row Hrow.
    rewrite Forall_forall in Hw. apply list_elem_of_In, Hw in Hrow. lia. }
  destruct Hadd as (m1 & -> & Hk1). by apply IH.
Qed.

Lemma one_hot_violated y n :
  ~ Forall (fun c => 0 <= c < n) y -> one_hot y n = Failed RuntimeError.
Proof.
  intros Hy. unfold one_hot. destruct (forallb _ y) eqn:Hall; [|done].
  exfalso. apply Hy. apply Forall_forall. intros c Hc.
  rewrite forallb_forall in Hall. apply list_elem_of_In, Hall in Hc. lia.
Qed.

Lemma labels_of_batch (b : batch) n :
  Forall (fun c => 0 <= c < n) (map snd b) <-> Forall (fun xy : Z * Z => 0 <= xy.2 < n) b.
Proof. by rewrite Forall_map. Qed.

(** C10: whatever class count the dataset option selects (10, 40 or
    100), the meter that [mAp] fills is 40 by 40, and it is the bound 40,
    not the class count, that decides whether the labels can be one-hot
    encoded: a first batch with a label outside 0..39 makes the encoding
    raise RuntimeError even under the 100-way head, while labels in 0..39
    are encoded under every head and it is the meter that then rejects a
    head that is not 40 wide; with a 40-way head and labels in 0..39 the
    pass runs through; a test set holding a label of 40 or more makes
    [mAp] raise. *)
Theorem mAp_uses_40_classes :
  (forall args,
      (dataset args = "cifar10" -> num_classes args = 10)
      /\ (dataset args = "stanford40" -> num_classes args = 40)
      /\ (dataset args <> "cifar10" -> dataset args <> "stanford40" ->
          num_classes args = 100))
  /\ (forall args env w m,
        mAp_meters predict args env w = Done m ->
        cm_k m = 40 /\ length (conf m) = 40%nat
        /\ Forall (fun row => length row = 40%nat) (conf m))
  /\ (forall args env w b rest,
        test_loader env = b :: rest ->
        ~ Forall (fun xy : Z * Z => 0 <= xy.2 < 40) b ->
        mAp_meters predict args env w = Failed RuntimeError)
  /\ (forall args env w b rest,
        test_loader env = b :: rest ->
        Forall (fun xy : Z * Z => 0 <= xy.2 < 40) b ->
        num_classes args <> 40 ->
        mAp_meters predict args env w = Failed AssertionError)
  /\ (forall args env w,
        num_classes args = 40 -> labels_below_40 (test_loader env) ->
        exists m, mAp_meters predict args env w = Done m)
  /\ (forall args env step s b x y,
        b ∈ test_loader env -> (x, y) ∈ b -> 40 <= y ->
        exists e s', mAp predict args env step s = Raise e s').
Proof.
  split; [|split; [|split; [|split; [|split]]]].
  - intros args. unfold num_classes. repeat split.
    + by intros ->.
    + by intros ->.
    + intros H1 H2. apply String.eqb_neq in H1, H2. by rewrite H1, H2.
  - intros args env w m H. unfold mAp_meters in H.
    apply (mAp_batches_square _ _ _ _ _ 40%nat) in H as [Hk [Hlen Hrows]];
      [done|apply (new_ConfusionMeter_square 40)].
  - intros args env w b rest Hl Hb. unfold mAp_meters. rewrite Hl.
    cbn [mAp_batches]. rewrite one_hot_violated; [done|].
    by rewrite labels_of_batch.
  - intros args env w b rest Hl Hb Hnc. unfold mAp_meters. rewrite Hl.
    cbn [mAp_batches].
    destruct (one_hot_in_range (map snd b) 40) as [rows Hrows];
      [by apply labels_of_batch|].
    rewrite Hrows. destruct (one_hot_rows _ _ _ Hrows) as [Hlen _].
    unfold ConfusionMeter_add. rewrite !length_map in *. rewrite Hlen, Nat.eqb_refl.
    cbn [negb cm_k new_ConfusionMeter].
    apply Z.eqb_neq in Hnc. by rewrite Hnc.
  - intros args env w Hnc Hl. unfold mAp_meters. rewrite Hnc.
    by apply mAp_batches_safe.
  - intros args env step s b x y Hb Hxy Hy.
    unfold mAp, mAp_meters.
    set (pre := if step =? -1 then _ else _).
    unfold bind at 1. destruct (pre s) as [[] s1|e s1|s1] eqn:Hpre; [|eauto|].
    + py_run.
      destruct (mAp_batches_label_too_large (weights s1) (num_classes args)
                  (test_loader env) (new_ConfusionMeter 40) b x y Hb Hxy Hy) as [e ->].
      py_run. eauto.
    + exfalso. subst pre. destruct (step =? -1); [|discriminate].
      revert Hpre. unfold torch_load, getitem, as_state_dict, load_state_dict. py_run.
      destruct (files env !! _); py_run; [|discriminate].
      destruct (_ !! "model_state_dict") as [[]|]; py_run; try discriminate.
      destruct (bool_decide _); discriminate.
Qed.

End EvaluationPass.

(** ** Quiet computations *)

Lemma extends_refl s : extends s s.
Proof. split; try done. by exists []. Qed.

Lemma extends_trans s1 s2 s3 : extends s1 s2 -> extends s2 s3 -> extends s1 s3.
Proof.
  intros [Hg1 Hr1 Hm1 Hw1 (p1 & Ht1 & Hq1)] [Hg2 Hr2 Hm2 Hw2 (p2 & Ht2 & Hq2)].
  split; try congruence.
  exists (p2 ++ p1). split.
  - by rewrite Ht2, Ht1, app_assoc.
  - rewrite forallb_app. by rewrite Hq1, Hq2.
Qed.

Lemma preserves_ret {A} (a : A) : preserves (ret a).
Proof. intros s. apply extends_refl. Qed.

Lemma preserves_raise {A} e : preserves (@raise A e).
Proof. intros s. apply extends_refl. Qed.

Lemma preserves_get : preserves get.
Proof. intros s. apply extends_refl. Qed.

Lemma preserves_bind {A B} (c : M A) (k : A -> M B) :
  preserves c -> (forall a, preserves (k a)) -> preserves (bind c k).
Proof.
  intros Hc Hk s. specialize (Hc s). unfold bind.
  destruct (c s) as [a s'|e s'|s']; simpl in *; [|done|done].
  eapply extends_trans; [exact Hc|apply Hk].
Qed.

Lemma preserves_log e : quiet e = true -> preserves (log e).
Proof.
  intros Hq s. split; try done. exists [e]. split; [done|]. simpl. by rewrite Hq.
Qed.

Lemma preserves_set_best_acc b : preserves (modify (set_best_acc b)).
Proof. intros s. split; try done. by exists []. Qed.

Lemma preserves_set_weights w : preserves (modify (set_weights w)).
Proof. intros s. split; try done. by exists []. Qed.

Lemma preserves_lift {A} (r : result A) : preserves (lift r).
Proof. destruct r; [apply preserves_ret|apply preserves_raise]. Qed.

Lemma preserves_py_mod a b : preserves (py_mod a b).
Proof. unfold py_mod. destruct (b =? 0); [apply preserves_raise|apply preserves_ret]. Qed.

Create HintDb quiet_db.
#[local] Hint Resolve preserves_ret preserves_raise preserves_get preserves_log
  preserves_set_best_acc preserves_set_weights preserves_lift preserves_py_mod : quiet_db.

Ltac quiet_step :=
  match goal with
  | |- preserves (bind _ _) => apply preserves_bind; [|intros ?]
  | |- preserves (match ?x with _ => _ end) => destruct x
  | |- preserves _ => solve [auto with quiet_db]
  end.

Lemma preserves_py_lt a b : preserves (py_lt a b).
Proof. unfold py_lt. repeat quiet_step. Qed.

Lemma preserves_getitem d k : preserves (getitem d k).
Proof. unfold getitem. repeat quiet_step. Qed.

Lemma preserves_read_writer : preserves read_writer.
Proof. unfold read_writer. repeat quiet_step. Qed.

#[local] Hint Resolve preserves_py_lt preserves_getitem preserves_read_writer : quiet_db.

Lemma preserves_add_scalar tag step : preserves (add_scalar tag step).
Proof. unfold add_scalar. repeat quiet_step. Qed.

Lemma preserves_torch_load env f : preserves (torch_load env f).
Proof. unfold torch_load. repeat quiet_step. Qed.

Lemma preserves_load_state_dict sd : preserves (load_state_dict sd).
Proof. unfold load_state_dict. repeat quiet_step. Qed.

Lemma preserves_as_state_dict v : preserves (as_state_dict v).
Proof. unfold as_state_dict. repeat quiet_step. Qed.

Lemma preserves_load_state_dict_file d : preserves (load_state_dict_file d).
Proof. unfold load_state_dict_file, load_state_dict. repeat quiet_step. Qed.

Lemma preserves_save_model_complete args a step : preserves (save_model_complete args a step).
Proof. unfold save_model_complete. repeat quiet_step. Qed.

#[local] Hint Resolve preserves_add_scalar preserves_torch_load preserves_load_state_dict
  preserves_as_state_dict preserves_load_state_dict_file preserves_save_model_complete : quiet_db.

Lemma preserves_resume args env : preserves (resume args env).
Proof. unfold resume. repeat quiet_step. Qed.

Lemma preserves_update_best args a : preserves (update_best args a).
Proof. unfold update_best. repeat quiet_step. Qed.

#[local] Hint Resolve preserves_resume preserves_update_best : quiet_db.

Section MicroBatch.
Variable predict : gmap string Z -> Z -> Z.
Variable sgd : gmap string Z -> gmap string Z -> list batch ->
               gmap string Z * gmap string Z.

Lemma preserves_valid args env step : preserves (valid predict args env step).
Proof. unfold valid. repeat quiet_step. Qed.

Lemma preserves_mAp args env step : preserves (mAp predict args env step).
Proof. unfold mAp, mAp_meters. repeat quiet_step. Qed.

#[local] Hint Resolve preserves_valid preserves_mAp : quiet_db.

Lemma preserves_evaluate args env : preserves (evaluate predict args env).
Proof. unfold evaluate. repeat quiet_step. Qed.

#[local] Hint Resolve preserves_evaluate : quiet_db.

Lemma preserves_report_and_evaluate args env :
  preserves (report_and_evaluate predict args env).
Proof. unfold report_and_evaluate. repeat quiet_step. Qed.


(** ** Facts about quiet extensions *)

Lemma extends_optimizer_steps s s' :
  extends s s' -> optimizer_steps s' = optimizer_steps s.
Proof.
  intros [_ _ _ _ (post & Ht & Hq)]. unfold optimizer_steps. rewrite Ht.
  rewrite filter_app, length_app.
  replace (filter is_optimizer_step post) with (@nil event); [done|].
  clear Ht. induction post as [|e post IH]; [done|].
  simpl in Hq. apply andb_true_iff in Hq as [He Hq].
  rewrite filter_cons. unfold quiet in He. apply andb_true_iff in He as [He _].
  destruct (is_optimizer_step e); [done|]. rewrite decide_False by (by intros []).
  by apply IH.
Qed.

Lemma extends_since_last_step s s' :
  extends s s' ->
  forallb quiet (since_last_step (trace s)) = true ->
  forallb quiet (since_last_step (trace s')) = true.
Proof.
  intros [_ _ _ _ (post & Ht & Hq)] Hs. rewrite Ht. clear Ht.
  induction post as [|e post IH]; [done|].
  simpl in Hq. apply andb_true_iff in Hq as [He Hq]. simpl.
  destruct (is_optimizer_step e); [done|]. simpl. rewrite He. by apply IH.
Qed.

(** ** One micro-batch *)

Lemma window_complete_eq args step s :
  gradient_accumulation_steps args <> 0 ->
  window_complete args step s =
  Ok ((step + 1) mod gradient_accumulation_steps args =? 0) s.
Proof.
  intros HK. unfold window_complete, py_mod.
  apply Z.eqb_neq in HK. rewrite HK. reflexivity.
Qed.


Lemma micro_batch_incomplete args env step b s :
  gradient_accumulation_steps args <> 0 ->
  (step + 1) mod gradient_accumulation_steps args <> 0 ->
  micro_batch predict sgd args env step b s = Ok false (accumulated b s).
Proof.
  intros HK Hmod. unfold micro_batch, accumulate. py_run.
  rewrite window_complete_eq by done.
  apply Z.eqb_neq in Hmod. by rewrite Hmod.
Qed.

Lemma optimizer_update_ok s :
  exists s', optimizer_update sgd s = Ok tt s'
    /\ global_step s' = global_step s + 1
    /\ optimizer_steps s' = S (optimizer_steps s)
    /\ grads s' = []
    /\ best_acc s' = best_acc s
    /\ writer s' = writer s
    /\ trace s' = EOptimizerStep (grads s) :: EClipGradNorm :: trace s.
Proof.
  eexists. split; [reflexivity|]. by repeat split.
Qed.

Lemma micro_batch_complete args env step b s :
  gradient_accumulation_steps args <> 0 ->
  (step + 1) mod gradient_accumulation_steps args = 0 ->
  exists s1,
    micro_batch predict sgd args env step b s = report_and_evaluate predict args env s1
    /\ global_step s1 = global_step s + 1
    /\ optimizer_steps s1 = S (optimizer_steps s)
    /\ grads s1 = []
    /\ best_acc s1 = best_acc s
    /\ writer s1 = writer s
    /\ trace s1 = EOptimizerStep (b :: grads s) :: EClipGradNorm :: EBackward b :: trace s.
Proof.
  intros HK Hmod.
  destruct (optimizer_update_ok (accumulated b s)) as (s1 & Hup & H).
  exists s1. split; [|exact H].
  unfold micro_batch, accumulate. py_run.
  rewrite window_complete_eq by done.
  apply Z.eqb_eq in Hmod. rewrite Hmod.
  fold (accumulated b s). by rewrite Hup.
Qed.

(** Whatever happens after the update, the step counter and the number
    of optimizer updates have grown by one. *)
Lemma micro_batch_complete_final args env step b s :
  gradient_accumulation_steps args <> 0 ->
  (step + 1) mod gradient_accumulation_steps args = 0 ->
  let s' := final_state (micro_batch predict sgd args env step b s) in
  global_step s' = global_step s + 1
  /\ optimizer_steps s' = S (optimizer_steps s)
  /\ grads s' = []
  /\ forallb quiet (since_last_step (trace s')) = true.
Proof.
  intros HK Hmod.
  destruct (micro_batch_complete args env step b s HK Hmod)
    as (s1 & -> & Hg & Ho & Hgr & _ & _ & Htr).
  pose proof (preserves_report_and_evaluate args env s1) as Hext.
  cbv zeta. repeat split.
  - by rewrite (ext_global_step _ _ Hext).
  - by rewrite (extends_optimizer_steps _ _ Hext).
  - by rewrite (ext_grads _ _ Hext).
  - apply (extends_since_last_step _ _ Hext). by rewrite Htr.
Qed.

(** ** A run of micro-batches that closes no window *)

Lemma for_batches_cons args env step b rest s :
  for_batches predict sgd args env step (b :: rest) s =
  match micro_batch predict sgd args env step b s with
  | Ok broke s' =>
      if broke then Ok tt s' else for_batches predict sgd args env (step + 1) rest s'
  | Raise e s' => Raise e s'
  | OutOfFuel s' => OutOfFuel s'
  end.
Proof.
  cbn [for_batches]. unfold bind.
  destruct (micro_batch _ _ _ _ _ _ _) as [[] ?| |]; reflexivity.
Qed.

Lemma for_batches_incomplete_prefix args env : forall bs rest step s,
  gradient_accumulation_steps args <> 0 ->
  (forall i, step <= i < step + Z.of_nat (length bs) ->
             (i + 1) mod gradient_accumulation_steps args <> 0) ->
  exists s',
    for_batches predict sgd args env step (bs ++ rest) s
    = for_batches predict sgd args env (step + Z.of_nat (length bs)) rest s'
    /\ global_step s' = global_step s
    /\ optimizer_steps s' = optimizer_steps s
    /\ grads s' = rev bs ++ grads s
    /\ best_acc s' = best_acc s
    /\ writer s' = writer s.
Proof.
  induction bs as [|b bs IH]; intros rest step s HK Hidx.
  - exists s. simpl. rewrite Z.add_0_r. by repeat split.
  - rewrite <- app_comm_cons, for_batches_cons.
    rewrite micro_batch_incomplete; [|done|apply Hidx; simpl; lia].
    destruct (IH rest (step + 1) (accumulated b s) HK) as (s' & -> & Hg & Ho & Hgr & Hb & Hw).
    { intros i Hi. apply Hidx. simpl. lia. }
    exists s'. split; [f_equal; simpl; lia|]. repeat split; try done.
    rewrite Hgr. simpl. by rewrite <- app_assoc.
Qed.

Lemma for_batches_incomplete args env bs step s :
  gradient_accumulation_steps args <> 0 ->
  (forall i, step <= i < step + Z.of_nat (length bs) ->
             (i + 1) mod gradient_accumulation_steps args <> 0) ->
  exists s', for_batches predict sgd args env step bs s = Ok tt s'
    /\ global_step s' = global_step s
    /\ optimizer_steps s' = optimizer_steps s
    /\ grads s' = rev bs ++ grads s
    /\ best_acc s' = best_acc s
    /\ writer s' = writer s.
Proof.
  intros HK Hidx.
  destruct (for_batches_incomplete_prefix args env bs [] step s HK Hidx) as (s' & Hrun & H).
  exists s'. split; [|exact H]. by rewrite app_nil_r in Hrun.
Qed.

Lemma for_batches_single_final args env step b s :
  final_state (for_batches predict sgd args env step [b] s)
  = final_state (micro_batch predict sgd args env step b s).
Proof.
  rewrite for_batches_cons.
  by destruct (micro_batch _ _ _ _ _ _ _) as [[] ?| |].
Qed.

Lemma window_positions K n i :
  1 <= K -> 0 <= i < K -> ((n * K + i + 1) mod K = 0 <-> i = K - 1).
Proof.
  intros HK Hi.
  replace (n * K + i + 1) with ((i + 1) + n * K) by lia.
  rewrite Z.mod_add by lia. split.
  - intros Hm. destruct (Z.eq_dec (i + 1) K) as [|Hne]; [lia|].
    rewrite Z.mod_small in Hm by lia. lia.
  - intros ->. replace (K - 1 + 1) with K by lia. apply Z.mod_same. lia.
Qed.

(** C1: in the n-th window of K micro-batches of an epoch the
    window-complete condition holds exactly once, at the last one; after
    K-1 of them nothing was updated and [global_step] is unchanged, after
    all K exactly one optimizer update was made and [global_step] grew by
    exactly 1; a micro-batch that does not complete a window never changes
    [global_step]. *)
Theorem accumulation_window args env (n : Z) (bs : list batch) (b : batch) s :
  1 <= gradient_accumulation_steps args ->
  Z.of_nat (length bs) = gradient_accumulation_steps args - 1 ->
  let K := gradient_accumulation_steps args in
  (forall i, 0 <= i < K -> ((n * K + i + 1) mod K = 0 <-> i = K - 1))
  /\ (exists s', for_batches predict sgd args env (n * K) bs s = Ok tt s'
        /\ global_step s' = global_step s
        /\ optimizer_steps s' = optimizer_steps s)
  /\ (let s' := final_state (for_batches predict sgd args env (n * K) (bs ++ [b]) s) in
      global_step s' = global_step s + 1
      /\ optimizer_steps s' = S (optimizer_steps s))
  /\ (forall step b0 s0, (step + 1) mod K <> 0 ->
        exists s', micro_batch predict sgd args env step b0 s0 = Ok false s'
          /\ global_step s' = global_step s0
          /\ optimizer_steps s' = optimizer_steps s0).
Proof.
  intros HK Hlen K. subst K.
  set (K := gradient_accumulation_steps args) in *.
  assert (HK0 : K <> 0) by lia.
  assert (Hidx : forall i, n * K <= i < n * K + Z.of_nat (length bs) -> (i + 1) mod K <> 0).
  { intros i Hi Hm. replace i with (n * K + (i - n * K)) in Hm by lia.
    apply window_positions in Hm; lia. }
  split; [intros i Hi; by apply window_positions|].
  split; [|split].
  - destruct (for_batches_incomplete args env bs (n * K) s HK0 Hidx)
      as (s' & ? & ? & ? & _). eauto.
  - destruct (for_batches_incomplete_prefix args env bs [b] (n * K) s HK0 Hidx)
      as (s1 & -> & Hg & Ho & _).
    rewrite for_batches_single_final.
    destruct (micro_batch_complete_final args env (n * K + Z.of_nat (length bs)) b s1 HK0)
      as (Hg' & Ho' & _).
    { rewrite Hlen. apply window_positions; lia. }
    cbv zeta. by rewrite Hg', Ho', Hg, Ho.
  - intros step b0 s0 Hm. rewrite micro_batch_incomplete by done.
    eexists. split; [done|]. done.
Qed.

End MicroBatch.

(** ** A whole pass over the batches *)

Lemma bind_Ok_inv {A B} (c : M A) (k : A -> M B) s b s' :
  bind c k s = Ok b s' -> exists a s1, c s = Ok a s1 /\ k a s1 = Ok b s'.
Proof. unfold bind. destruct (c s) as [a s1| |]; [eauto|done|done]. Qed.

Lemma py_mod_ok a b s : b <> 0 -> py_mod a b s = Ok (a mod b) s.
Proof. intros Hb. unfold py_mod. apply Z.eqb_neq in Hb. by rewrite Hb. Qed.

Lemma add_scalar_ok tag step s :
  writer s <> None -> add_scalar tag step s = Ok tt (emit (EAddScalar tag step) s).
Proof.
  intros Hw. unfold add_scalar, read_writer. py_run.
  destruct (writer s); [done|congruence].
Qed.

Lemma read_writer_ok s : writer s <> None -> exists w, read_writer s = Ok w s.
Proof.
  intros Hw. unfold read_writer. py_run. destruct (writer s); [eauto|congruence].
Qed.

Section FullPass.
Variable predict : gmap string Z -> Z -> Z.
Variable sgd : gmap string Z -> gmap string Z -> list batch ->
               gmap string Z * gmap string Z.

(** The value returned by the exit test is that of the final state. *)
Lemma report_and_evaluate_result args env s r s' :
  report_and_evaluate predict args env s = Ok r s' ->
  r = (global_step s' mod num_steps args =? 0).
Proof.
  unfold report_and_evaluate. intros H.
  apply bind_Ok_inv in H as (? & s1 & _ & H).
  apply bind_Ok_inv in H as (? & s2 & _ & H).
  apply bind_Ok_inv in H as (? & s3 & _ & H).
  apply bind_Ok_inv in H as (? & s4 & _ & H).
  apply bind_Ok_inv in H as (s5 & s6 & Hget & H).
  injection Hget as <- <-.
  apply bind_Ok_inv in H as (r' & s7 & Hmod & H).
  unfold py_mod in Hmod. destruct (num_steps args =? 0); [done|].
  injection Hmod as <- <-. by injection H as <- <-.
Qed.

(** A pass over the batches that ends without [break]. *)
Lemma for_batches_full args env : forall bs step s s1,
  1 <= gradient_accumulation_steps args -> 0 <= step ->
  for_batches predict sgd args env step bs s = Ok tt s1 ->
  global_step s1 mod num_steps args <> 0 ->
  let K := gradient_accumulation_steps args in
  let n := (step + Z.of_nat (length bs)) / K - step / K in
  global_step s1 = global_step s + n
  /\ Z.of_nat (optimizer_steps s1) = Z.of_nat (optimizer_steps s) + n
  /\ Z.of_nat (length (grads s1)) =
     if n =? 0 then Z.of_nat (length bs) + Z.of_nat (length (grads s))
     else (step + Z.of_nat (length bs)) mod K.
Proof.
  intros bs. induction bs as [|b rest IH]; intros step s s1 HK Hstep Hrun Hstop K n.
  - injection Hrun as <-. subst n. rewrite Z.add_0_r, Z.sub_diag. simpl. lia.
  - rewrite for_batches_cons in Hrun.
    assert (HK0 : K <> 0) by (subst K; lia).
    assert (Hlen : step + Z.of_nat (length (b :: rest)) = step + 1 + Z.of_nat (length rest))
      by (simpl; lia).
    destruct (Z.eq_dec ((step + 1) mod K) 0) as [Hm|Hm].
    + destruct (micro_batch_complete predict sgd args env step b s HK0 Hm)
        as (su & Hmb & Hg & Ho & Hgr & _).
      rewrite Hmb in Hrun.
      pose proof (preserves_report_and_evaluate predict args env su) as Hext.
      destruct (report_and_evaluate predict args env su) as [broke s'| |] eqn:Hre; [|done|done].
      apply report_and_evaluate_result in Hre. simpl in Hext.
      destruct broke.
      { injection Hrun as <-. symmetry in Hre. apply Z.eqb_eq in Hre. done. }
      destruct (IH (step + 1) s' s1 HK ltac:(lia) Hrun Hstop) as (IHg & IHo & IHr).
      rewrite (ext_global_step _ _ Hext), Hg in IHg.
      rewrite (extends_optimizer_steps _ _ Hext), Ho in IHo.
      rewrite (ext_grads _ _ Hext), Hgr in IHr.
      fold K in IHg, IHo, IHr.
      pose proof (div_succ_complete K step HK Hm) as Hdiv.
      subst n. rewrite Hlen.
      set (n' := (step + 1 + Z.of_nat (length rest)) / K - (step + 1) / K) in *.
      assert (Hn' : 0 <= n').
      { subst n'. pose proof (Z.div_le_mono (step + 1) (step + 1 + Z.of_nat (length rest)) K).
        lia. }
      replace ((step + 1 + Z.of_nat (length rest)) / K - step / K) with (n' + 1) by lia.
      split; [lia|]. split; [lia|].
      replace (n' + 1 =? 0) with false by (symmetry; apply Z.eqb_neq; lia).
      destruct (n' =? 0) eqn:Hn0; [|done].
      apply Z.eqb_eq in Hn0. simpl in IHr. rewrite IHr, Z.add_0_r.
      symmetry. apply mod_after_complete; try lia.
    + rewrite micro_batch_incomplete in Hrun by done.
      destruct (IH (step + 1) _ s1 HK ltac:(lia) Hrun Hstop) as (IHg & IHo & IHr).
      fold K in IHg, IHo, IHr.
      pose proof (div_succ_incomplete K step HK Hm) as Hdiv.
      subst n. rewrite Hlen. rewrite Hdiv in *.
      split; [done|]. split; [done|].
      rewrite IHr. destruct (_ =? 0); [|done]. simpl. lia.
Qed.

End FullPass.

Section EvaluationBlock.
Variable predict : gmap string Z -> Z -> Z.
Variable sgd : gmap string Z -> gmap string Z -> list batch ->
               gmap string Z * gmap string Z.

(** ** The evaluation block *)

Lemma valid_ok args env step s :
  test_loader env <> [] -> writer s <> None ->
  exists a s', valid predict args env step s = Ok a s'
    /\ best_acc s' = best_acc s /\ writer s' = writer s
    /\ global_step s' = global_step s.
Proof.
  intros Hne Hw. unfold valid. py_run.
  destruct (test_loader env) as [|b l] eqn:Hl; [done|]. py_run.
  rewrite add_scalar_ok by done. rewrite add_scalar_ok by done.
  eexists _, _. split; [reflexivity|]. done.
Qed.

Lemma mAp_ok args env step s :
  step <> -1 -> evaluation_safe args env -> writer s <> None ->
  exists s', mAp predict args env step s = Ok tt s'
    /\ best_acc s' = best_acc s /\ writer s' = writer s
    /\ global_step s' = global_step s.
Proof.
  intros Hstep (Hnonempty & Hlab & Hnc) Hw. unfold mAp, mAp_meters.
  apply Z.eqb_neq in Hstep. rewrite Hstep. py_run.
  destruct (mAp_batches_safe predict (weights s) (test_loader env) (new_ConfusionMeter 40))
    as [m Hm]; [done|done|].
  rewrite Hnc, Hm. py_run.
  destruct (test_loader env) as [|b0 l0]; [done|]. py_run.
  rewrite add_scalar_ok by done.
  eexists. split; [reflexivity|]. done.
Qed.

Lemma evaluate_pre args env s :
  global_step s <> -1 -> evaluation_safe args env -> writer s <> None ->
  exists a s1, evaluate predict args env s = update_best args a s1
    /\ best_acc s1 = best_acc s /\ writer s1 = writer s
    /\ global_step s1 = global_step s.
Proof.
  intros Hg Hsafe Hw. unfold evaluate. py_run.
  destruct (read_writer_ok s Hw) as [w ->].
  destruct (valid_ok args env (global_step s) s) as (a & s1 & -> & Hb1 & Hw1 & Hg1);
    [apply Hsafe|done|].
  destruct (read_writer_ok s1) as [w1 ->]; [congruence|].
  destruct (mAp_ok args env (global_step s) s1) as (s2 & -> & Hb2 & Hw2 & Hg2);
    [done|done|congruence|].
  exists a, s2. split; [done|]. repeat split; congruence.
Qed.

Lemma evaluate_ok args env s :
  global_step s <> -1 -> evaluation_safe args env -> writer s <> None ->
  is_number (best_acc s) ->
  exists s', evaluate predict args env s = Ok tt s' /\ is_number (best_acc s').
Proof.
  intros Hg Hsafe Hw Hnum.
  destruct (evaluate_pre args env s Hg Hsafe Hw) as (a & s1 & -> & Hb & _).
  unfold update_best, py_lt. py_run. rewrite Hb.
  unfold is_number in Hnum. destruct (to_number (best_acc s)) as [b0|] eqn:Hn; [|done].
  py_run. destruct (Qlt_bool b0 a).
  - destruct (save_model_complete_ok args (PFloat a) (global_step s1) s1) as (c & -> & _).
    eexists. split; [reflexivity|]. done.
  - eexists. split; [reflexivity|]. unfold is_number. by rewrite Hb, Hn.
Qed.

Lemma evaluate_none args env s :
  global_step s <> -1 -> evaluation_safe args env -> writer s <> None ->
  best_acc s = PNone ->
  exists s', evaluate predict args env s = Raise TypeError s'.
Proof.
  intros Hg Hsafe Hw Hnone.
  destruct (evaluate_pre args env s Hg Hsafe Hw) as (a & s1 & -> & Hb & _).
  unfold update_best, py_lt. py_run. rewrite Hb, Hnone. py_run. eauto.
Qed.

(** ** Metrics, evaluation and the exit test after an update *)

Lemma report_and_evaluate_unfold args env s :
  eval_every args <> 0 -> bound_writer args s ->
  exists s0,
    report_and_evaluate predict args env s =
    bind (if (global_step s mod eval_every args =? 0) && primary args
          then evaluate predict args env else ret tt)
         (fun _ => bind get (fun s2 =>
            bind (py_mod (global_step s2) (num_steps args)) (fun r => ret (r =? 0)))) s0
    /\ best_acc s0 = best_acc s /\ writer s0 = writer s
    /\ global_step s0 = global_step s.
Proof.
  intros HE Hw. unfold report_and_evaluate.
  destruct (primary args) eqn:Hp.
  - unfold bind at 1. unfold bind at 1. unfold get at 1.
    unfold bind at 1. rewrite add_scalar_ok by (by apply Hw).
    rewrite add_scalar_ok by (by apply Hw).
    unfold bind at 1. unfold get at 1. unfold bind at 1.
    rewrite py_mod_ok by done.
    eexists. split; [reflexivity|]. done.
  - unfold bind at 1. unfold ret at 1.
    unfold bind at 1. unfold get at 1. unfold bind at 1.
    rewrite py_mod_ok by done.
    eexists. split; [reflexivity|]. done.
Qed.

(** When the evaluation block cannot fail, the update completes and the
    exit test is the one on the new step count. *)
Lemma report_and_evaluate_ok (Q : pyobj -> Prop) args env s :
  eval_every args <> 0 -> num_steps args <> 0 ->
  bound_writer args s -> Q (best_acc s) ->
  (primary args = true -> global_step s mod eval_every args = 0 ->
   forall s0, writer s0 = writer s -> best_acc s0 = best_acc s ->
              global_step s0 = global_step s ->
              exists s', evaluate predict args env s0 = Ok tt s' /\ Q (best_acc s')) ->
  exists s', report_and_evaluate predict args env s
             = Ok (global_step s mod num_steps args =? 0) s'
    /\ extends s s' /\ Q (best_acc s').
Proof.
  intros HE HT Hw HQ Heval.
  pose proof (preserves_report_and_evaluate predict args env s) as Hext.
  destruct (report_and_evaluate_unfold args env s HE Hw) as (s0 & Hre & Hb0 & Hw0 & Hg0).
  rewrite Hre in *. clear Hre.
  destruct ((global_step s mod eval_every args =? 0) && primary args) eqn:Hcond.
  - apply andb_true_iff in Hcond as [Hm Hp]. apply Z.eqb_eq in Hm.
    destruct (Heval Hp Hm s0 Hw0 Hb0 Hg0) as (s' & Hev & HQ').
    revert Hext. py_run. rewrite !Hev, !py_mod_ok by done. simpl. intros Hext.
    exists s'. rewrite <- (ext_global_step _ _ Hext). done.
  - revert Hext. py_run. rewrite !py_mod_ok by done. simpl. intros Hext.
    exists s0. rewrite Hg0. split; [done|]. split; [done|]. by rewrite Hb0.
Qed.

End EvaluationBlock.

(** ** Running the loop up to a given step count *)

Section Horizon.
Variable predict : gmap string Z -> Z -> Z.
Variable sgd : gmap string Z -> gmap string Z -> list batch ->
               gmap string Z * gmap string Z.
Variables (args : Args) (env : Env).
(** [Q] is what is known of [best_acc]; below the step count [H] every
    evaluation succeeds and keeps [Q]. *)
Variables (Q : pyobj -> Prop) (H : Z).
Hypothesis HK : 1 <= gradient_accumulation_steps args.
Hypothesis HE : eval_every args <> 0.
Hypothesis HH : H <= num_steps args.
Hypothesis Heval :
  primary args = true ->
  forall s0, writer s0 <> None -> Q (best_acc s0) ->
    0 < global_step s0 < H -> global_step s0 mod eval_every args = 0 ->
    exists s', evaluate predict args env s0 = Ok tt s' /\ Q (best_acc s').

Lemma micro_batch_below_horizon step b s :
  loop_invariant args Q s -> 0 <= global_step s -> global_step s + 1 < H ->
  (step + 1) mod gradient_accumulation_steps args = 0 ->
  exists s', micro_batch predict sgd args env step b s = Ok false s'
    /\ loop_invariant args Q s'
    /\ global_step s' = global_step s + 1
    /\ optimizer_steps s' = S (optimizer_steps s)
    /\ grads s' = [].
Proof.
  intros [Hw HQ] Hg0 HgH Hm.
  destruct (micro_batch_complete predict sgd args env step b s ltac:(lia) Hm)
    as (su & -> & Hg & Ho & Hgr & Hb & Hwu & _).
  destruct (report_and_evaluate_ok predict Q args env su HE ltac:(lia))
    as (s' & -> & Hext & HQ').
  - intros Hp. rewrite Hwu. by apply Hw.
  - by rewrite Hb.
  - intros Hp Hmod s0 Hw0 Hb0 Hgs0. apply Heval; try done.
    + rewrite Hw0, Hwu. by apply Hw.
    + by rewrite Hb0, Hb.
    + lia.
    + by rewrite Hgs0.
  - exists s'. rewrite Z.mod_small by lia.
    replace (global_step su =? 0) with false by (symmetry; apply Z.eqb_neq; lia).
    split; [done|]. split.
    { split; [|done]. intros Hp. rewrite (ext_writer _ _ Hext), Hwu. by apply Hw. }
    rewrite (ext_global_step _ _ Hext), (extends_optimizer_steps _ _ Hext),
      (ext_grads _ _ Hext). done.
Qed.

Lemma for_batches_to_horizon : forall bs step s,
  0 <= step -> loop_invariant args Q s -> 0 <= global_step s < H ->
  let K := gradient_accumulation_steps args in
  let n := (step + Z.of_nat (length bs)) / K - step / K in
  (global_step s + n < H ->
   exists s', for_batches predict sgd args env step bs s = Ok tt s'
     /\ loop_invariant args Q s'
     /\ global_step s' = global_step s + n
     /\ Z.of_nat (optimizer_steps s') = Z.of_nat (optimizer_steps s) + n)
  /\ (H <= global_step s + n ->
      exists s1 step1 b1 k,
        for_batches predict sgd args env step bs s
        = bind (micro_batch predict sgd args env step1 b1) k s1
        /\ (forall s', k true s' = Ok tt s')
        /\ loop_invariant args Q s1
        /\ global_step s1 = H - 1
        /\ (step1 + 1) mod K = 0
        /\ Z.of_nat (optimizer_steps s1)
           = Z.of_nat (optimizer_steps s) + (H - 1 - global_step s)).
Proof.
  induction bs as [|b rest IH]; intros step s Hstep Hinv Hg K n.
  - subst n. rewrite Z.add_0_r, Z.sub_diag. split; [|lia].
    intros _. exists s. simpl. repeat split; [apply Hinv..|lia|lia].
  - assert (Hlen : step + Z.of_nat (length (b :: rest)) = step + 1 + Z.of_nat (length rest))
      by (simpl; lia).
    assert (HK0 : K <> 0) by (subst K; lia).
    subst n. rewrite Hlen.
    destruct (Z.eq_dec ((step + 1) mod K) 0) as [Hm|Hm].
    + pose proof (div_succ_complete K step HK Hm) as Hdiv.
      set (n' := (step + 1 + Z.of_nat (length rest)) / K - (step + 1) / K) in *.
      assert (Hn' : 0 <= n').
      { subst n'. pose proof (Z.div_le_mono (step + 1) (step + 1 + Z.of_nat (length rest)) K).
        lia. }
      replace ((step + 1 + Z.of_nat (length rest)) / K - step / K) with (n' + 1) by lia.
      destruct (Z.eq_dec (global_step s + 1) H) as [Hlast|Hnot].
      * split; [lia|]. intros _.
        exists s, step, b,
          (fun broke : bool => if broke then ret tt
                               else for_batches predict sgd args env (step + 1) rest).
        split; [reflexivity|]. repeat split; [apply Hinv..|lia|done|lia].
      * destruct (micro_batch_below_horizon step b s Hinv ltac:(lia) ltac:(lia) Hm)
          as (s' & Hmb & Hinv' & Hg' & Ho' & _).
        rewrite for_batches_cons, Hmb.
        destruct (IH (step + 1) s' ltac:(lia) Hinv' ltac:(lia)) as [IH1 IH2].
        fold K in IH1, IH2. fold n' in IH1, IH2. split.
        -- intros Hlt. destruct IH1 as (s2 & -> & ? & ? & ?); [lia|].
           exists s2. split; [done|]. split; [done|]. split; lia.
        -- intros Hge. destruct IH2 as (s1 & step1 & b1 & k & -> & ? & ? & ? & ? & ?); [lia|].
           exists s1, step1, b1, k. do 5 (split; [done|]). lia.
    + pose proof (div_succ_incomplete K step HK Hm) as Hdiv.
      rewrite for_batches_cons, micro_batch_incomplete by done.
      destruct (IH (step + 1) (accumulated b s) ltac:(lia)) as [IH1 IH2];
        [apply Hinv|simpl; lia|].
      fold K in IH1, IH2. rewrite Hdiv in IH1, IH2. simpl in IH1, IH2. split.
      * intros Hlt. destruct IH1 as (s2 & -> & ? & ? & ?); [lia|].
        exists s2. split; [done|]. split; [done|]. split; [lia|done].
      * intros Hge. destruct IH2 as (s1 & step1 & b1 & k & -> & ? & ? & ? & ? & ?); [lia|].
        exists s1, step1, b1, k. do 5 (split; [done|]). done.
Qed.

(** With at least one full window per epoch, the loop reaches the
    micro-batch that brings the step count to [H]. *)
Lemma train_loop_to_horizon : forall fuel s,
  gradient_accumulation_steps args <= Z.of_nat (length (train_loader env)) ->
  loop_invariant args Q s -> 0 <= global_step s < H ->
  H - global_step s <= Z.of_nat fuel ->
  exists s1 step1 b1 k,
    train_loop predict sgd fuel args env s
    = bind (micro_batch predict sgd args env step1 b1) k s1
    /\ (forall s', global_step s' mod num_steps args = 0 -> k true s' = Ok tt s')
    /\ loop_invariant args Q s1
    /\ global_step s1 = H - 1
    /\ (step1 + 1) mod gradient_accumulation_steps args = 0
    /\ Z.of_nat (optimizer_steps s1)
       = Z.of_nat (optimizer_steps s) + (H - 1 - global_step s).
Proof.
  induction fuel as [|fuel IH]; intros s HL Hinv Hg Hfuel; [lia|].
  set (K := gradient_accumulation_steps args) in *.
  set (L := Z.of_nat (length (train_loader env))) in *.
  assert (Hn : 1 <= L / K).
  { apply Z.div_le_lower_bound; lia. }
  destruct (for_batches_to_horizon (train_loader env) 0 s ltac:(lia) Hinv Hg) as [F1 F2].
  fold K in F1, F2. rewrite Z.add_0_l in F1, F2. fold L in F1, F2.
  rewrite Z.div_0_l, Z.sub_0_r in F1, F2 by lia.
  set (tail := fun _ : unit => bind get (fun s0 =>
                 bind (py_mod (global_step s0) (num_steps args)) (fun r => ret (r =? 0)))).
  set (next := fun stop : bool => if stop then ret tt
                                  else train_loop predict sgd fuel args env).
  assert (Hunf : forall s, train_loop predict sgd (S fuel) args env s
            = bind (bind (for_batches predict sgd args env 0 (train_loader env)) tail) next s)
    by reflexivity.
  destruct (Z.lt_ge_cases (global_step s + L / K) H) as [Hlt|Hge].
  - destruct (F1 Hlt) as (s' & Hrun & Hinv' & Hg' & Ho').
    rewrite Hunf. unfold bind at 1 2. rewrite Hrun. subst tail. py_run.
    rewrite py_mod_ok by lia. py_run.
    rewrite Z.mod_small by lia.
    replace (global_step s' =? 0) with false by (symmetry; apply Z.eqb_neq; lia).
    subst next. cbv beta iota.
    destruct (IH s' HL Hinv' ltac:(lia) ltac:(lia))
      as (s1 & step1 & b1 & k & -> & ? & ? & ? & ? & ?).
    exists s1, step1, b1, k. do 5 (split; [done|]). lia.
  - destruct (F2 Hge) as (s1 & step1 & b1 & k & Hrun & Hk & ? & ? & ? & ?).
    exists s1, step1, b1, (fun broke => bind (bind (k broke) tail) next).
    split; [|split; [|done]].
    + rewrite Hunf. unfold bind at 1 2. rewrite Hrun. unfold bind.
      by destruct (micro_batch _ _ _ _ _ _ _).
    + intros s' Hs'. unfold bind at 1 2. rewrite Hk. subst tail. py_run.
      rewrite py_mod_ok by lia. py_run. rewrite Hs'. reflexivity.
Qed.

End Horizon.

(** ** Whole runs *)

Section WholeRun.
Variable predict : gmap string Z -> Z -> Z.
Variable sgd : gmap string Z -> gmap string Z -> list batch ->
               gmap string Z * gmap string Z.

(** The loop, entered with a step count of 0, ends at the update that
    brings it to [num_steps]. *)
Lemma train_loop_run args env s fuel :
  1 <= gradient_accumulation_steps args ->
  gradient_accumulation_steps args <= Z.of_nat (length (train_loader env)) ->
  1 <= num_steps args ->
  eval_every args <> 0 ->
  (primary args = true -> evaluation_safe args env) ->
  global_step s = 0 ->
  bound_writer args s -> is_number (best_acc s) ->
  num_steps args <= Z.of_nat fuel ->
  exists s', train_loop predict sgd fuel args env s = Ok tt s'
    /\ global_step s' = num_steps args
    /\ Z.of_nat (optimizer_steps s') = Z.of_nat (optimizer_steps s) + num_steps args
    /\ forallb quiet (since_last_step (trace s')) = true
    /\ is_number (best_acc s').
Proof.
  intros HK HL HT HE Hsafe Hg Hw Hnum Hfuel.
  assert (Heval : primary args = true ->
    forall s0, writer s0 <> None -> is_number (best_acc s0) ->
      0 < global_step s0 -> 
      exists s', evaluate predict args env s0 = Ok tt s' /\ is_number (best_acc s')).
  { intros Hp s0 Hw0 Hn0 Hg0. apply evaluate_ok; auto. lia. }
  destruct (train_loop_to_horizon predict sgd args env is_number (num_steps args)
              HK HE ltac:(lia)) with (fuel := fuel) (s := s)
    as (s1 & step1 & b1 & k & -> & Hk & [Hw1 Hn1] & Hg1 & Hm1 & Ho1);
    [intros Hp s0 Hw0 Hn0 Hg0 _; apply Heval; auto; lia|done|done|lia|lia|].
  destruct (micro_batch_complete predict sgd args env step1 b1 s1 ltac:(lia) Hm1)
    as (su & Hmb & Hgu & Hou & _ & Hbu & Hwu & Htu).
  destruct (report_and_evaluate_ok predict is_number args env su HE ltac:(lia))
    as (s' & Hre & Hext & Hn').
  { intros Hp. rewrite Hwu. by apply Hw1. }
  { by rewrite Hbu. }
  { intros Hp _ s0 Hw0 Hb0 Hg0. apply Heval; auto.
    - rewrite Hw0, Hwu. by apply Hw1.
    - by rewrite Hb0, Hbu.
    - lia. }
  exists s'. unfold bind. rewrite Hmb, Hre.
  replace (global_step su) with (num_steps args) by lia.
  rewrite Z.mod_same, Z.eqb_refl by lia.
  assert (Hgs' : global_step s' = num_steps args)
    by (rewrite (ext_global_step _ _ Hext); lia).
  split; [apply Hk; rewrite Hgs'; apply Z.mod_same; lia|].
  split; [done|]. split; [|split; [|done]].
  - rewrite (extends_optimizer_steps _ _ Hext). lia.
  - apply (extends_since_last_step _ _ Hext). by rewrite Htu.
Qed.

(** C6: when each epoch holds at least one full accumulation window and
    no evaluation raises, a loop entered with [global_step = 0] stops at
    the update that brings [global_step] to [num_steps]: exactly
    [num_steps] optimizer updates are made, and no micro-batch is
    processed after the last one. *)
Theorem train_loop_terminates args env s fuel :
  1 <= gradient_accumulation_steps args ->
  gradient_accumulation_steps args <= Z.of_nat (length (train_loader env)) ->
  1 <= num_steps args ->
  eval_every args <> 0 ->
  (primary args = true -> evaluation_safe args env) ->
  global_step s = 0 ->
  bound_writer args s -> is_number (best_acc s) ->
  num_steps args <= Z.of_nat fuel ->
  exists s', train_loop predict sgd fuel args env s = Ok tt s'
    /\ global_step s' = num_steps args
    /\ Z.of_nat (optimizer_steps s') = Z.of_nat (optimizer_steps s) + num_steps args
    /\ forallb quiet (since_last_step (trace s')) = true.
Proof.
  intros HK HL HT HE Hsafe Hg Hw Hnum Hfuel.
  destruct (train_loop_run args env s fuel) as (s' & H1 & H2 & H3 & H4 & _); try done.
  by exists s'.
Qed.

(** The startup of a primary worker that resumes nothing. *)
Lemma startup_fresh args env w continue sd' :
  primary args = true ->
  gradient_accumulation_steps args <> 0 ->
  input_dir args = None ->
  files env !! mAp_checkpoint_file = Some continue ->
  continue !! "model_state_dict" = Some (PStateDict sd') ->
  dom sd' = dom w ->
  evaluation_safe args env ->
  exists s1, startup predict args env (entry_state w) = Ok tt s1
    /\ global_step s1 = 0 /\ best_acc s1 = PInt 0 /\ writer s1 <> None
    /\ optimizer_steps s1 = 0%nat.
Proof.
  intros Hp HK Hin Hcont Hsd' Hdom' (Hnonempty & Hlab & Hnc).
  unfold startup, py_floordiv, resume. rewrite Hp, Hin.
  apply Z.eqb_neq in HK. rewrite HK. py_run.
  unfold read_writer. py_run.
  unfold mAp, mAp_meters, torch_load. rewrite Z.eqb_refl. py_run. rewrite Hcont. py_run.
  unfold getitem. rewrite Hsd'. unfold as_state_dict. py_run.
  unfold load_state_dict. py_run.
  rewrite bool_decide_eq_true_2 by (simpl; congruence). py_run.
  destruct (mAp_batches_safe predict sd' (test_loader env) (new_ConfusionMeter 40))
    as [m Hm]; [done|done|].
  rewrite Hnc, Hm. py_run.
  destruct (test_loader env) as [|b0 l0]; [done|]. py_run.
  rewrite add_scalar_ok by done.
  eexists. split; [reflexivity|]. done.
Qed.

(** A whole run of a primary worker that resumes nothing makes exactly
    [num_steps] optimizer updates and returns. *)
Corollary train_fresh_run args env w continue sd' fuel :
  primary args = true ->
  1 <= gradient_accumulation_steps args ->
  gradient_accumulation_steps args <= Z.of_nat (length (train_loader env)) ->
  1 <= num_steps args ->
  eval_every args <> 0 ->
  evaluation_safe args env ->
  input_dir args = None ->
  files env !! mAp_checkpoint_file = Some continue ->
  continue !! "model_state_dict" = Some (PStateDict sd') ->
  dom sd' = dom w ->
  num_steps args <= Z.of_nat fuel ->
  exists s', train predict sgd fuel args env (entry_state w) = Ok tt s'
    /\ global_step s' = num_steps args
    /\ Z.of_nat (optimizer_steps s') = num_steps args.
Proof.
  intros Hp HK HL HT HE Hsafe Hin Hcont Hsd' Hdom' Hfuel.
  destruct (startup_fresh args env w continue sd')
    as (s1 & Hstart & Hg1 & Hb1 & Hw1 & Ho1); try done; [lia|].
  destruct (train_loop_run args env s1 fuel)
    as (s2 & Hloop & Hg2 & Ho2 & _ & Hn2); try done.
  { by intros _. }
  { unfold is_number. by rewrite Hb1. }
  unfold train. unfold bind at 1. rewrite Hstart.
  unfold bind at 1. rewrite Hloop.
  unfold finish. rewrite Hp. py_run.
  unfold is_number in Hn2. destruct (to_number (best_acc s2)); [|done].
  eexists. split; [reflexivity|]. split; [done|].
  unfold optimizer_steps in *. cbn [trace emit].
  rewrite filter_cons_False by (by intros []). lia.
Qed.

(** Resuming from a complete-state checkpoint. *)
Lemma resume_complete args env s file checkpoint sd b :
  input_dir args = Some file -> file <> "" ->
  files env !! file = Some checkpoint ->
  checkpoint !! "model_state_dict" = Some (PStateDict sd) ->
  dom sd = dom (weights s) ->
  checkpoint !! "best_accuracy" = Some b ->
  resume args env s = Ok tt (set_best_acc b (set_weights sd (emit (ETorchLoad file) s))).
Proof.
  intros Hin Hne Hfile Hsd Hdom Hb.
  assert (Heqb : String.eqb file "" = false) by (by apply String.eqb_neq).
  unfold resume, torch_load. rewrite Hin, Heqb. py_run. rewrite Hfile. py_run.
  rewrite bool_decide_eq_true_2 by (apply elem_of_dom; eauto).
  unfold getitem. rewrite Hsd. unfold as_state_dict. py_run.
  unfold load_state_dict. py_run.
  rewrite bool_decide_eq_true_2 by done. py_run.
  by rewrite Hb.
Qed.

(** The startup of a primary worker that resumes from a complete-state
    checkpoint. *)
Lemma startup_resumed args env w file checkpoint sd b continue sd' :
  primary args = true ->
  gradient_accumulation_steps args <> 0 ->
  input_dir args = Some file -> file <> "" ->
  files env !! file = Some checkpoint ->
  checkpoint !! "model_state_dict" = Some (PStateDict sd) ->
  dom sd = dom w ->
  checkpoint !! "best_accuracy" = Some b ->
  files env !! mAp_checkpoint_file = Some continue ->
  continue !! "model_state_dict" = Some (PStateDict sd') ->
  dom sd' = dom w ->
  evaluation_safe args env ->
  exists s1, startup predict args env (entry_state w) = Ok tt s1
    /\ global_step s1 = 0 /\ best_acc s1 = b /\ writer s1 <> None
    /\ optimizer_steps s1 = 0%nat.
Proof.
  intros Hp HK Hin Hne Hfile Hsd Hdom Hb Hcont Hsd' Hdom' (Hnonempty & Hlab & Hnc).
  unfold startup, py_floordiv. rewrite Hp.
  apply Z.eqb_neq in HK. rewrite HK. py_run.
  erewrite resume_complete; [|done..]. py_run.
  unfold read_writer. py_run.
  unfold mAp, mAp_meters, torch_load. rewrite Z.eqb_refl. py_run. rewrite Hcont. py_run.
  unfold getitem. rewrite Hsd'. unfold as_state_dict. py_run.
  unfold load_state_dict. py_run.
  rewrite bool_decide_eq_true_2 by congruence. py_run.
  destruct (mAp_batches_safe predict sd' (test_loader env) (new_ConfusionMeter 40))
    as [m Hm]; [done|done|].
  rewrite Hnc, Hm. py_run.
  destruct (test_loader env) as [|b0 l0]; [done|]. py_run.
  rewrite add_scalar_ok by done.
  eexists. split; [reflexivity|]. done.
Qed.

(** C9: resuming from a checkpoint written by the periodic path leaves
    [best_acc] at [None]; the comparison [best_acc < accuracy] then raises
    TypeError, and the run ends with that error at the first evaluation,
    after [eval_every] updates. *)
Theorem resume_from_periodic_checkpoint args env w file content continue sd'
    args0 step0 s0 fuel :
  primary args = true ->
  1 <= gradient_accumulation_steps args ->
  gradient_accumulation_steps args <= Z.of_nat (length (train_loader env)) ->
  1 <= eval_every args <= num_steps args ->
  evaluation_safe args env ->
  (* the checkpoint named by --input_dir was written by the periodic path *)
  written_content (final_state (save_model_complete args0 PNone step0 s0)) = Some content ->
  dom (weights s0) = dom w ->
  input_dir args = Some file -> file <> "" ->
  files env !! file = Some content ->
  (* the checkpoint that mAp reloads at startup exists *)
  files env !! mAp_checkpoint_file = Some continue ->
  continue !! "model_state_dict" = Some (PStateDict sd') ->
  dom sd' = dom w ->
  eval_every args <= Z.of_nat fuel ->
  (exists s1, startup predict args env (entry_state w) = Ok tt s1 /\ best_acc s1 = PNone)
  /\ (forall a s, best_acc s = PNone -> update_best args a s = Raise TypeError s)
  /\ (exists s', train predict sgd fuel args env (entry_state w) = Raise TypeError s'
        /\ global_step s' = eval_every args
        /\ Z.of_nat (optimizer_steps s') = eval_every args).
Proof.
  intros Hp HK HL HE Hsafe Hcontent Hdom0 Hin Hne Hfile Hcont Hsd' Hdom' Hfuel.
  destruct (save_model_complete_ok args0 PNone step0 s0) as (c & Hsave & Hb & Hm & _).
  rewrite Hsave in Hcontent. injection Hcontent as ->.
  destruct (startup_resumed args env w file content (weights s0) PNone continue sd')
    as (s1 & Hstart & Hg1 & Hb1 & Hw1 & Ho1); try done; [lia|].
  split; [eauto|]. split.
  { intros a s Hnone. unfold update_best, py_lt. py_run. rewrite Hnone. by py_run. }
  unfold train. unfold bind at 1. rewrite Hstart.
  destruct (train_loop_to_horizon predict sgd args env (fun v => v = PNone) (eval_every args)
              HK ltac:(lia) ltac:(lia)) with (fuel := fuel) (s := s1)
    as (s2 & step2 & b2 & k & Hloop & _ & [Hw2 Hn2] & Hg2 & Hm2 & Ho2);
    [|done|split; [by intros _|done]|lia|lia|].
  { intros _ s Hws Hbs Hgs Hmod. rewrite Z.mod_small in Hmod by lia. lia. }
  unfold bind at 1. rewrite Hloop.
  destruct (micro_batch_complete predict sgd args env step2 b2 s2 ltac:(lia) Hm2)
    as (su & Hmb & Hgu & Hou & _ & Hbu & Hwu & _).
  destruct (report_and_evaluate_unfold predict args env su ltac:(lia))
    as (s3 & Hre & Hb3 & Hw3 & Hg3).
  { intros _. rewrite Hwu. by apply Hw2. }
  destruct (evaluate_none predict args env s3) as (s4 & Hev);
    [lia|done|rewrite Hw3, Hwu; by apply Hw2|congruence|].
  assert (Hfail : report_and_evaluate predict args env su = Raise TypeError s4).
  { rewrite Hre. replace (global_step su) with (eval_every args) by lia.
    rewrite Z.mod_same, Z.eqb_refl, Hp by lia. simpl andb.
    unfold bind at 1. by rewrite Hev. }
  pose proof (preserves_report_and_evaluate predict args env su) as Hext.
  rewrite Hfail in Hext. cbn [final_state] in Hext.
  unfold bind at 1. rewrite Hmb, Hfail.
  exists s4. split; [done|]. split.
  - rewrite (ext_global_step _ _ Hext). lia.
  - rewrite (extends_optimizer_steps _ _ Hext). lia.
Qed.

End WholeRun.

(** ** Resuming *)

(** C2: what resuming restores.  From a checkpoint that holds a
    [model_state_dict] entry, the model weights and the best accuracy are
    taken from the checkpoint, while the step counter and the optimizer
    state stay those of a fresh run; from a plain state dictionary only the
    weights are taken. *)
Theorem resume_semantics args env s file checkpoint :
  input_dir args = Some file -> file <> "" ->
  files env !! file = Some checkpoint ->
  (forall sd b,
      checkpoint !! "model_state_dict" = Some (PStateDict sd) ->
      dom sd = dom (weights s) ->
      checkpoint !! "best_accuracy" = Some b ->
      exists s', resume args env s = Ok tt s'
        /\ weights s' = sd /\ best_acc s' = b
        /\ global_step s' = global_step s /\ momentum s' = momentum s)
  /\ (forall sd : gmap string Z,
      checkpoint = PTensor <$> sd ->
      sd !! "model_state_dict" = None ->
      dom sd = dom (weights s) ->
      exists s', resume args env s = Ok tt s'
        /\ weights s' = sd /\ best_acc s' = best_acc s
        /\ global_step s' = global_step s /\ momentum s' = momentum s).
Proof.
  intros Hin Hne Hfile. split.
  - intros sd b Hsd Hdom Hb.
    rewrite (resume_complete args env s file checkpoint sd b) by done.
    eexists. split; [reflexivity|]. done.
  - intros sd -> Hnone Hdom.
    assert (Heqb : String.eqb file "" = false) by (by apply String.eqb_neq).
    unfold resume, torch_load. rewrite Hin, Heqb. py_run. rewrite Hfile. py_run.
    rewrite bool_decide_eq_false_2.
    2:{ rewrite elem_of_dom, lookup_fmap, Hnone. simpl. by intros [? ?]. }
    unfold load_state_dict_file. cbv zeta.
    assert (Hom : omap tensor_of (PTensor <$> sd) = sd).
    { apply map_eq. intros i. rewrite lookup_omap, lookup_fmap.
      by destruct (sd !! i). }
    rewrite Hom. rewrite bool_decide_eq_true_2 by (by rewrite dom_fmap_L).
    unfold load_state_dict. py_run.
    rewrite bool_decide_eq_true_2 by done.
    eexists; split; [reflexivity|]. done.
Qed.

(** [resume] returns or raises, leaves the writer alone and performs no
    action but the load. *)
Lemma resume_outcome args env s :
  exists s',
    (resume args env s = Ok tt s' \/ exists e, resume args env s = Raise e s')
    /\ writer s' = writer s
    /\ (trace s' = trace s \/ exists f, trace s' = ETorchLoad f :: trace s).
Proof.
  unfold resume, torch_load, getitem, as_state_dict, load_state_dict_file, load_state_dict.
  destruct (input_dir args) as [f|]; [|exists s; eauto].
  destruct (String.eqb f ""); [exists s; eauto|]. py_run.
  destruct (files env !! f) as [c|]; py_run; [|eexists; eauto 7].
  destruct (bool_decide ("model_state_dict" ∈ dom c)).
  - destruct (c !! "model_state_dict") as [[]|]; py_run; try (eexists; by eauto 7).
    destruct (bool_decide _); py_run; [|eexists; by eauto 7].
    destruct (c !! "best_accuracy"); eexists; by eauto 7.
  - destruct (bool_decide _); py_run; [|eexists; by eauto 7].
    destruct (bool_decide _); eexists; by eauto 7.
Qed.

Section NonPrimary.
Variable predict : gmap string Z -> Z -> Z.
Variable sgd : gmap string Z -> gmap string Z -> list batch ->
               gmap string Z * gmap string Z.

(** C4: what a worker that is not the primary one does: the call of
    [mAp] before the loop reads the unbound [writer], so [train] raises
    before any micro-batch; no evaluation, metrics or checkpoint action and
    no optimizer update is ever made. *)
Theorem non_primary_worker_aborts args env w fuel :
  primary args = false ->
  (exists e s',
     train predict sgd fuel args env (entry_state w) = Raise e s'
     /\ forallb (fun a => negb (is_gated_action a)) (trace s') = true
     /\ optimizer_steps s' = 0%nat)
  /\ (gradient_accumulation_steps args <> 0 -> input_dir args = None ->
      train predict sgd fuel args env (entry_state w)
      = Raise (UnboundLocalError "writer") (entry_state w)).
Proof.
  intros Hp. split.
  - unfold train, startup, py_floordiv. rewrite Hp.
    destruct (gradient_accumulation_steps args =? 0).
    { py_run. eexists _, _. split; [reflexivity|]. done. }
    py_run.
    match goal with |- context [resume args env ?s] =>
      destruct (resume_outcome args env s) as (s' & [Hr|[e Hr]] & Hw & Htr); rewrite Hr
    end.
    + unfold read_writer. py_run. rewrite Hw. simpl.
      eexists _, _. split; [reflexivity|]. unfold optimizer_steps. simpl.
      destruct Htr as [->|[f ->]]; done.
    + eexists _, _. split; [reflexivity|]. unfold optimizer_steps.
      destruct Htr as [->|[f ->]]; done.
  - intros HK Hin. unfold train, startup, py_floordiv, resume. rewrite Hp, Hin.
    apply Z.eqb_neq in HK. rewrite HK. reflexivity.
Qed.

End NonPrimary.

(** ** Epoch boundaries *)

Lemma last_update_quiet post tr :
  forallb quiet post = true -> last_update (post ++ tr) = last_update tr.
Proof.
  induction post as [|e post IH]; [done|]. simpl.
  intros Hq. apply andb_true_iff in Hq as [He Hq].
  destruct e; try (by apply IH). done.
Qed.

Section EpochBoundary.
Variable predict : gmap string Z -> Z -> Z.
Variable sgd : gmap string Z -> gmap string Z -> list batch ->
               gmap string Z * gmap string Z.

Lemma epoch_continues args env s s1 :
  epoch predict sgd args env s = Ok false s1 ->
  for_batches predict sgd args env 0 (train_loader env) s = Ok tt s1
  /\ global_step s1 mod num_steps args <> 0.
Proof.
  unfold epoch. intros H.
  apply bind_Ok_inv in H as ([] & s2 & Hrun & H).
  apply bind_Ok_inv in H as (s3 & s4 & Hget & H). injection Hget as <- <-.
  apply bind_Ok_inv in H as (r & s5 & Hmod & H).
  unfold py_mod in Hmod. destruct (num_steps args =? 0); [done|].
  injection Hmod as <- <-. injection H as H <-.
  split; [done|]. by apply Z.eqb_neq.
Qed.

(** C3: at an epoch boundary that leaves [r] micro-batches of a partial
    window, their gradients stay accumulated, but the batch index restarts
    at 0: the window-complete condition next holds at index K-1 of the new
    epoch.  After K micro-batches counted across the boundary nothing was
    updated, and the first update of the new epoch applies the gradients
    of K + r micro-batches. *)
Theorem trailing_window_at_epoch_boundary args env s s1 :
  let K := gradient_accumulation_steps args in
  let L := Z.of_nat (length (train_loader env)) in
  let r := L mod K in
  1 <= K -> K <= L -> 0 < r ->
  epoch predict sgd args env s = Ok false s1 ->
  Z.of_nat (length (grads s1)) = r
  /\ (forall j, 0 <= j < K -> ((j + 1) mod K = 0 <-> j = K - 1))
  /\ (exists s2,
        for_batches predict sgd args env 0 (take (Z.to_nat (K - r)) (train_loader env)) s1
        = Ok tt s2
        /\ Z.of_nat (length (grads s2)) = K
        /\ global_step s2 = global_step s1
        /\ optimizer_steps s2 = optimizer_steps s1)
  /\ (let s3 := final_state
                  (for_batches predict sgd args env 0
                     (take (Z.to_nat K) (train_loader env)) s1) in
      global_step s3 = global_step s1 + 1
      /\ optimizer_steps s3 = S (optimizer_steps s1)
      /\ exists g, last_update (trace s3) = Some g /\ Z.of_nat (length g) = K + r).
Proof.
  intros K L r HK HL Hr Hepoch.
  assert (HK0 : K <> 0) by lia.
  pose proof (Z.mod_pos_bound L K ltac:(lia)) as Hrb. fold r in Hrb.
  assert (Hwin : forall j, 0 <= j < K -> ((j + 1) mod K = 0 <-> j = K - 1)).
  { intros j Hj. pose proof (window_positions K 0 j HK Hj) as Hw.
    by rewrite Z.mul_0_l, Z.add_0_l in Hw. }
  apply epoch_continues in Hepoch as [Hrun Hstop].
  destruct (for_batches_full predict sgd args env _ 0 s s1 HK ltac:(lia) Hrun Hstop)
    as (_ & _ & Hgr).
  fold K in Hgr. rewrite Z.add_0_l, Z.div_0_l, Z.sub_0_r in Hgr by lia. fold L in Hgr.
  assert (Hn : 1 <= L / K) by (apply Z.div_le_lower_bound; lia).
  replace (L / K =? 0) with false in Hgr by (symmetry; apply Z.eqb_neq; lia).
  fold r in Hgr.
  split; [done|]. split; [done|]. split.
  - destruct (for_batches_incomplete predict sgd args env
                (take (Z.to_nat (K - r)) (train_loader env)) 0 s1 HK0)
      as (s2 & Hrun2 & Hg2 & Ho2 & Hgr2 & _).
    { intros i Hi Hm. rewrite length_take in Hi. apply Hwin in Hm; lia. }
    exists s2. split; [done|]. split; [|done].
    rewrite Hgr2, length_app, length_rev, length_take. lia.
  - assert (Hsplit : take (Z.to_nat K) (train_loader env)
             = take (Z.to_nat (K - 1)) (train_loader env)
               ++ take 1 (drop (Z.to_nat (K - 1)) (train_loader env))).
    { replace (Z.to_nat K) with (Z.to_nat (K - 1) + 1)%nat by lia.
      by rewrite take_take_drop. }
    destruct (drop (Z.to_nat (K - 1)) (train_loader env)) as [|b rest] eqn:Hdrop.
    { apply (f_equal length) in Hdrop. rewrite length_drop in Hdrop. simpl in Hdrop. lia. }
    simpl in Hsplit. rewrite take_0 in Hsplit. rewrite Hsplit.
    destruct (for_batches_incomplete_prefix predict sgd args env
                (take (Z.to_nat (K - 1)) (train_loader env)) [b] 0 s1 HK0)
      as (s2 & -> & Hg2 & Ho2 & Hgr2 & _).
    { intros i Hi Hm. rewrite length_take in Hi. apply Hwin in Hm; lia. }
    rewrite for_batches_single_final.
    assert (Hm : (0 + Z.of_nat (length (take (Z.to_nat (K - 1)) (train_loader env))) + 1)
                 mod K = 0).
    { rewrite length_take. apply Hwin; lia. }
    destruct (micro_batch_complete predict sgd args env _ b s2 HK0 Hm)
      as (su & -> & Hgu & Hou & _ & _ & _ & Htu).
    pose proof (preserves_report_and_evaluate predict args env su) as Hext.
    cbv zeta. split; [|split].
    + rewrite (ext_global_step _ _ Hext). lia.
    + rewrite (extends_optimizer_steps _ _ Hext). lia.
    + destruct (ext_trace _ _ Hext) as (post & -> & Hq).
      rewrite last_update_quiet, Htu by done. simpl.
      eexists. split; [reflexivity|].
      simpl. rewrite Hgr2, length_app, length_rev, length_take. lia.
Qed.

End EpochBoundary.

(** * The theorems at concrete inputs *)

(** Two micro-batches with an accumulation factor of 2. *)
Lemma accumulation_window_witness :
  let args := example_args 2 10 100 (-1) None in
  let s' := final_state
              (for_batches example_predict example_sgd args (example_env 3 ∅)
                 (0 * 2) ([[(1, 1)]] ++ [[(1, 1)]]) example_loop_entry) in
  global_step s' = global_step example_loop_entry + 1
  /\ optimizer_steps s' = S (optimizer_steps example_loop_entry).
Proof.
  refine (proj1 (proj2 (proj2
    (accumulation_window example_predict example_sgd
       (example_args 2 10 100 (-1) None) (example_env 3 ∅)
       0 [[(1, 1)]] [(1, 1)] example_loop_entry _ _)))).
  - simpl. lia.
  - reflexivity.
Defined.

(** Resuming from the complete-state checkpoint of step 100. *)
Lemma resume_semantics_witness :
  let args := example_args 1 1000 100 (-1) (Some "ckpt.pth") in
  let env := example_env 4 (<["ckpt.pth" := example_complete_checkpoint]> ∅) in
  exists s', resume args env (entry_state (example_weights 0)) = Ok tt s'
    /\ weights s' = example_weights 7 /\ best_acc s' = PFloat (9 # 10)
    /\ global_step s' = 0 /\ momentum s' = ∅.
Proof.
  refine (proj1
    (resume_semantics (example_args 1 1000 100 (-1) (Some "ckpt.pth"))
       (example_env 4 (<["ckpt.pth" := example_complete_checkpoint]> ∅))
       (entry_state (example_weights 0)) "ckpt.pth" example_complete_checkpoint
       _ _ _)
    (example_weights 7) (PFloat (9 # 10)) _ _ _).
  - reflexivity.
  - discriminate.
  - vm_compute. reflexivity.
  - vm_compute. reflexivity.
  - vm_compute. reflexivity.
  - vm_compute. reflexivity.
Defined.

(** C2 as the specification states it fails on that checkpoint: neither
    the step counter (100 in the file) nor the optimizer state is
    restored. *)
Lemma resume_complete_checkpoint_counterexample :
  let args := example_args 1 1000 100 (-1) (Some "ckpt.pth") in
  let env := example_env 4 (<["ckpt.pth" := example_complete_checkpoint]> ∅) in
  files env !! "ckpt.pth" = Some example_complete_checkpoint
  /\ example_complete_checkpoint !! "optimizer_state_dict"
     = Some (PStateDict (example_weights 5))
  /\ example_complete_checkpoint !! "step" = Some (PInt 100)
  /\ exists s', resume args env (entry_state (example_weights 0)) = Ok tt s'
       /\ weights s' = example_weights 7
       /\ global_step s' = 0 /\ global_step s' <> 100 /\ global_step s' <> 101
       /\ momentum s' = ∅ /\ momentum s' <> example_weights 5.
Proof.
  cbv zeta. split; [by vm_compute|]. split; [by vm_compute|]. split; [by vm_compute|].
  eexists. split; [vm_compute; reflexivity|].
  simpl. repeat split; done.
Qed.

(** Epochs of 3 micro-batches with an accumulation factor of 2. *)
Lemma trailing_window_at_epoch_boundary_witness :
  let args := example_args 2 10 100 (-1) None in
  let env := example_env 3 ∅ in
  let s1 := final_state (epoch example_predict example_sgd args env example_loop_entry) in
  let s3 := final_state
              (for_batches example_predict example_sgd args env 0
                 (take (Z.to_nat 2) (train_loader env)) s1) in
  Z.of_nat (length (grads s1)) = 3 mod 2
  /\ global_step s3 = global_step s1 + 1
  /\ exists g, last_update (trace s3) = Some g /\ Z.of_nat (length g) = 2 + 3 mod 2.
Proof.
  pose proof (trailing_window_at_epoch_boundary example_predict example_sgd
    (example_args 2 10 100 (-1) None) (example_env 3 ∅) example_loop_entry
    (final_state (epoch example_predict example_sgd
                    (example_args 2 10 100 (-1) None) (example_env 3 ∅)
                    example_loop_entry))) as H.
  cbv zeta in H.
  destruct H as (H1 & _ & _ & H3 & _ & H4).
  - simpl. lia.
  - simpl. lia.
  - reflexivity.
  - vm_compute. reflexivity.
  - cbv zeta. split; [exact H1|]. split; [exact H3|exact H4].
Defined.

(** C3 as the specification states it fails on those epochs: the first
    epoch leaves one micro-batch of a partial window; the first micro-batch
    of the next epoch is the second of that window, yet the window-complete
    condition does not hold for it and nothing is updated. *)
Lemma trailing_window_counterexample :
  let args := example_args 2 10 100 (-1) None in
  let env := example_env 3 ∅ in
  exists s1 s2,
    epoch example_predict example_sgd args env example_loop_entry = Ok false s1
    /\ length (grads s1) = 1%nat
    /\ window_complete args 0 s1 = Ok false s1
    /\ for_batches example_predict example_sgd args env 0 [[(1, 1)]] s1 = Ok tt s2
    /\ Z.of_nat (length (grads s2)) = gradient_accumulation_steps args
    /\ optimizer_steps s2 = optimizer_steps s1
    /\ global_step s2 = global_step s1.
Proof.
  cbv zeta. eexists _, _.
  split; [vm_compute; reflexivity|].
  split; [reflexivity|].
  split; [reflexivity|].
  split; [vm_compute; reflexivity|].
  split; [reflexivity|]. split; reflexivity.
Qed.

(** A worker of rank 1. *)
Lemma non_primary_worker_aborts_witness :
  train example_predict example_sgd 5 (example_args 2 10 100 1 None) (example_env 3 ∅)
    (entry_state (example_weights 0))
  = Raise (UnboundLocalError "writer") (entry_state (example_weights 0)).
Proof.
  refine (proj2
    (non_primary_worker_aborts example_predict example_sgd
       (example_args 2 10 100 1 None) (example_env 3 ∅) (example_weights 0) 5 _) _ _).
  - reflexivity.
  - discriminate.
  - reflexivity.
Defined.

(** Four evaluations: the second ties the first, the third is a new best. *)
Lemma best_checkpoint_policy_witness :
  exists s' m,
    process_accuracies (example_args 1 10 1 (-1) None) 1
      ((1 # 2) :: [1 # 2; 3 # 4; 1 # 4])
      (entry_state (example_weights 0)) = Ok tt s'
    /\ to_number (best_acc s') = Some m
    /\ (m == list_Qmax (1 # 2) [1 # 2; 3 # 4; 1 # 4])%Q.
Proof.
  destruct (best_checkpoint_policy (example_args 1 10 1 (-1) None)
              (1 # 2) [1 # 2; 3 # 4; 1 # 4] (entry_state (example_weights 0)))
    as (s' & m & H1 & H2 & H3 & _).
  - reflexivity.
  - reflexivity.
  - repeat constructor; discriminate.
  - exists s', m. split; [exact H1|]. split; [exact H2|exact H3].
Defined.

(** Three updates asked for, epochs of 3 micro-batches, 2 per window. *)
Lemma train_loop_terminates_witness :
  exists s',
    train_loop example_predict example_sgd 3 (example_args 2 3 2 (-1) None)
      (example_env 3 ∅) example_loop_entry = Ok tt s'
    /\ global_step s' = 3
    /\ Z.of_nat (optimizer_steps s') = Z.of_nat (optimizer_steps example_loop_entry) + 3
    /\ forallb quiet (since_last_step (trace s')) = true.
Proof.
  apply (train_loop_terminates example_predict example_sgd
           (example_args 2 3 2 (-1) None) (example_env 3 ∅) example_loop_entry 3).
  - simpl. lia.
  - simpl. lia.
  - simpl. lia.
  - discriminate.
  - intros _. split; [discriminate|]. split; [|reflexivity].
    repeat constructor; simpl; lia.
  - reflexivity.
  - intros _. discriminate.
  - discriminate.
  - simpl. lia.
Defined.

(** C6 as the specification states it fails on an epoch shorter than the
    accumulation window: one update is asked for, the run returns without
    having made any. *)
Lemma short_epoch_counterexample :
  let args := example_args 2 1 100 (-1) None in
  let env := example_env 1 ∅ in
  0 < num_steps args
  /\ exists s',
       train example_predict example_sgd 5 args env (entry_state (example_weights 0))
       = Ok tt s'
       /\ optimizer_steps s' = 0%nat
       /\ global_step s' = 0
       /\ global_step s' <> num_steps args.
Proof.
  cbv zeta. split; [reflexivity|].
  eexists. split; [vm_compute; reflexivity|].
  split; [reflexivity|]. split; [reflexivity|]. discriminate.
Qed.

(** The multiplier halfway through warmup. *)
Lemma rate_contract_witness :
  (0 <= Schedule.rate Schedule.default_schedule 250 <= 1)%R.
Proof.
  refine (proj1 (rate_contract Schedule.default_schedule 250 _)).
  discriminate.
Defined.

(** A save called with an accuracy of 0.0. *)
Lemma save_model_complete_path_witness :
  written_file
    (final_state (save_model_complete (example_args 1 10 1 (-1) None) (PFloat 0) 7
                    (entry_state (example_weights 0))))
  = Some (Join "every" (step_checkpoint 7)).
Proof.
  refine (proj1 (proj2
    (save_model_complete_path (example_args 1 10 1 (-1) None) (PFloat 0) 7
       (entry_state (example_weights 0)))) _).
  reflexivity.
Defined.

(** Resuming from a periodic checkpoint, evaluating every 2 updates. *)
Lemma resume_from_periodic_checkpoint_witness :
  exists s',
    train example_predict example_sgd 2
      (example_args 2 5 2 (-1) (Some "periodic.pth"))
      (example_env 3 (<["periodic.pth" := example_periodic_checkpoint]> ∅))
      (entry_state (example_weights 0)) = Raise TypeError s'
    /\ global_step s' = 2
    /\ Z.of_nat (optimizer_steps s') = 2.
Proof.
  refine (proj2 (proj2
    (resume_from_periodic_checkpoint example_predict example_sgd
       (example_args 2 5 2 (-1) (Some "periodic.pth"))
       (example_env 3 (<["periodic.pth" := example_periodic_checkpoint]> ∅))
       (example_weights 0) "periodic.pth" example_periodic_checkpoint
       example_complete_checkpoint (example_weights 7)
       (example_args 2 5 2 (-1) None) 100
       (entry_state (example_weights 3)) 2
       _ _ _ _ _ _ _ _ _ _ _ _ _ _))).
  - reflexivity.
  - simpl. lia.
  - simpl. lia.
  - simpl. lia.
  - split; [discriminate|]. split; [|reflexivity].
    repeat constructor; simpl; lia.
  - vm_compute. reflexivity.
  - vm_compute. reflexivity.
  - reflexivity.
  - discriminate.
  - vm_compute. reflexivity.
  - vm_compute. reflexivity.
  - vm_compute. reflexivity.
  - vm_compute. reflexivity.
  - simpl. lia.
Defined.

(** Under the 100-way head a label of 50 cannot be encoded; under the
    10-way head a label of 15 is encoded and the meter rejects the head. *)
Lemma mAp_uses_40_classes_witness :
  mAp_meters example_predict example_cifar100_args
    {| files := ∅; train_loader := []; test_loader := [[(1, 50)]] |} ∅
  = Failed RuntimeError
  /\ mAp_meters example_predict example_cifar10_args
       {| files := ∅; train_loader := []; test_loader := [[(1, 15)]] |} ∅
     = Failed AssertionError
  /\ exists e s',
       mAp example_predict example_cifar100_args
         {| files := ∅; train_loader := []; test_loader := [[(1, 40)]] |}
         100 example_loop_entry = Raise e s'.
Proof.
  split; [|split].
  - refine (proj1 (proj2 (proj2 (mAp_uses_40_classes example_predict)))
              example_cifar100_args
              {| files := ∅; train_loader := []; test_loader := [[(1, 50)]] |} ∅
              [(1, 50)] [] eq_refl _).
    intros H. apply Forall_inv in H. simpl in H. lia.
  - refine (proj1 (proj2 (proj2 (proj2 (mAp_uses_40_classes example_predict))))
              example_cifar10_args
              {| files := ∅; train_loader := []; test_loader := [[(1, 15)]] |} ∅
              [(1, 15)] [] eq_refl _ _).
    + repeat constructor; simpl; lia.
    + discriminate.
  - refine (proj2 (proj2 (proj2 (proj2 (proj2 (mAp_uses_40_classes example_predict)))))
              _ _ 100 example_loop_entry [(1, 40)] 1 40 _ _ _).
    + apply list_elem_of_here.
    + apply list_elem_of_here.
    + lia.
Defined.

(** * Further properties of the code *)

(** ** AverageMeter *)

Section AverageMeterFacts.
Import AverageMeter.
Variable F : Type.
Variable zero : F.
Variables add mul div : F -> F -> F.
Variable to_float : Z -> option F.

Lemma total_weight_pos (calls : list (F * Z)) :
  Forall (fun vn : F * Z => 0 < vn.2) calls -> 0 <= total_weight calls.
Proof. induction 1 as [|[v n] calls Hn _ IH]; simpl in *; lia. Qed.

Lemma AverageMeter_updates_from (m : t F) calls :
  Forall (fun vn : F * Z => 0 < vn.2) calls -> 0 <= count m ->
  (forall n, 0 < n <= count m + total_weight calls -> is_Some (to_float n)) ->
  exists m', updates add mul div to_float m calls = (m', None)
    /\ count m' = count m + total_weight calls
    /\ sum m' = float_sum add mul to_float (sum m) calls
    /\ (calls <> [] ->
        Some (val m') = fst <$> last calls
        /\ exists fc, to_float (count m') = Some fc /\ avg m' = div (sum m') fc).
Proof.
  intros Hcalls. revert m.
  induction Hcalls as [|[v n] calls Hn Hrest IH]; intros m Hm Hconv.
  - exists m. simpl. split; [done|]. split; [lia|]. done.
  - simpl in Hn. pose proof (total_weight_pos _ Hrest) as Hpos.
    cbn [total_weight fold_right snd] in Hconv. fold (total_weight calls) in Hconv.
    destruct (Hconv n) as [fn Hfn]; [lia|].
    destruct (Hconv (count m + n)) as [fc Hfc]; [lia|].
    cbn [updates]. unfold update. rewrite Hfn, Hfc.
    destruct (Z.eqb_spec (count m + n) 0) as [|_]; [lia|].
    set (m1 := {| val := v |}).
    destruct (IH m1) as (m' & Hrun & Hc & Hs & Hlast); [simpl; lia| |].
    { intros k Hk. apply Hconv. simpl in Hk. lia. }
    exists m'. split; [done|]. split; [simpl in *; lia|]. split.
    + rewrite Hs. unfold float_sum. cbn [fold_left sum m1 fst snd]. by rewrite Hfn.
    + intros _. destruct calls as [|c calls].
      * simpl in Hrun. injection Hrun as <-. simpl. split; [done|]. by exists fc.
      * destruct Hlast as [Hv Ha]; [done|]. split; [|done]. by rewrite Hv.
Qed.

(** X1: the meter of the training and validation losses, whatever the
    float operations round to: after any calls of [update] with positive
    counts on a fresh (or reset) meter no exception was raised, [count] is
    the total count, [val] the last value, [sum] the accumulated sum and
    [avg] the quotient of [sum] by [count]; an update that brings the
    count to 0 raises ZeroDivisionError after [val], [sum] and [count] have
    been assigned, [avg] keeping its value. *)
Theorem AverageMeter_running_totals (m0 : t F) calls :
  calls <> [] ->
  Forall (fun vn : F * Z => 0 < vn.2) calls ->
  (forall n, 0 < n <= total_weight calls -> is_Some (to_float n)) ->
  (exists m fc, updates add mul div to_float (reset zero m0) calls = (m, None)
     /\ count m = total_weight calls
     /\ Some (val m) = fst <$> last calls
     /\ sum m = float_sum add mul to_float zero calls
     /\ to_float (count m) = Some fc
     /\ avg m = div (sum m) fc)
  /\ (forall m v n fn f0,
        to_float n = Some fn -> to_float 0 = Some f0 -> count m + n = 0 ->
        update add mul div to_float m v n
        = ({| val := v; avg := avg m; sum := add (sum m) (mul v fn); count := 0 |},
           Some ZeroDivisionError)).
Proof.
  intros Hne Hcalls Hconv. split.
  - destruct (AverageMeter_updates_from (reset zero m0) calls Hcalls)
      as (m & Hrun & Hc & Hs & Hav); [done| |].
    { intros n Hn. apply Hconv. simpl in Hn. lia. }
    destruct (Hav Hne) as (Hval & fc & Hfc & Havg).
    exists m, fc. by repeat split.
  - intros m v n fn f0 Hfn Hf0 Hzero. unfold update. by rewrite Hfn, Hzero, Hf0.
Qed.

End AverageMeterFacts.

(** ** simple_accuracy and valid *)

Lemma hits_le preds labels : (hits preds labels <= length preds)%nat.
Proof.
  unfold hits. etransitivity; [apply length_filter|]. rewrite length_zip_with. lia.
Qed.

Lemma hits_cons p l preds labels :
  hits (p :: preds) (l :: labels)
  = ((if decide (p = l) then 1 else 0) + hits preds labels)%nat.
Proof.
  unfold hits. simpl. destruct (decide (p = l)) as [Heq|Hne].
  - rewrite filter_cons_True; [done|]. by apply bool_decide_pack.
  - rewrite filter_cons_False; [done|]. intros H. by apply bool_decide_unpack in H.
Qed.

Lemma hits_all : forall preds labels,
  length preds = length labels ->
  (hits preds labels = length preds <-> preds = labels).
Proof.
  induction preds as [|p preds IH]; intros [|l labels] Hlen; try done.
  injection Hlen as Hlen. rewrite hits_cons. simpl.
  pose proof (hits_le preds labels) as Hle.
  destruct (decide (p = l)) as [->|Hne].
  - split.
    + intros H. f_equal. apply IH; [done|lia].
    + intros [= ->]. f_equal. by apply IH.
  - split; [lia|]. by intros [= ? ?].
Qed.

Lemma hits_none : forall preds labels,
  length preds = length labels ->
  (hits preds labels = 0%nat <-> Forall2 (fun p l => p <> l) preds labels).
Proof.
  induction preds as [|p preds IH]; intros [|l labels] Hlen; try done.
  injection Hlen as Hlen. rewrite hits_cons.
  destruct (decide (p = l)) as [->|Hne].
  - split; [done|]. intros H. by apply Forall2_cons in H as [H _].
  - simpl. rewrite IH by done. split.
    + intros H. by constructor.
    + intros H. by apply Forall2_cons in H as [_ H].
Qed.

Lemma Qdiv_eq_mult (h d c : Q) : ~ (d == 0)%Q -> ((h / d == c)%Q <-> (h == c * d)%Q).
Proof.
  intros Hd. split; intros H.
  - rewrite <- H. field. done.
  - rewrite H. field. done.
Qed.

(** X2: the accuracy of line 50 is a fraction between 0 and 1; it is 1
    exactly when every prediction is the label, and 0 exactly when none
    is. *)
Theorem simple_accuracy_extremes preds labels :
  preds <> [] -> length preds = length labels ->
  (0 <= simple_accuracy preds labels <= 1)%Q
  /\ ((simple_accuracy preds labels == 1)%Q <-> preds = labels)
  /\ ((simple_accuracy preds labels == 0)%Q <-> Forall2 (fun p l => p <> l) preds labels).
Proof.
  intros Hne Hlen. split; [apply simple_accuracy_range|].
  rewrite <- hits_all, <- hits_none by done.
  unfold simple_accuracy. fold (hits preds labels).
  destruct (length preds) as [|n] eqn:Hn; [by destruct preds|].
  assert (Hd : ~ (inject_Z (Z.of_nat (S n)) == 0)%Q).
  { change 0%Q with (inject_Z 0). rewrite inject_Z_injective. lia. }
  rewrite !Qdiv_eq_mult by done. rewrite Qmult_1_l, Qmult_0_l.
  change 0%Q with (inject_Z 0). rewrite !inject_Z_injective. lia.
Qed.

Section Validation.
Variable predict : gmap string Z -> Z -> Z.



End Validation.

(** ** What an evaluation pass leaves alone *)

Lemma keeps_ret {A B} (f : state -> B) (a : A) : keeps f (ret a).
Proof. done. Qed.

Lemma keeps_raise {A B} (f : state -> B) e : keeps f (@raise A e).
Proof. done. Qed.

Lemma keeps_get {B} (f : state -> B) : keeps f get.
Proof. done. Qed.

Lemma keeps_bind {A B C} (f : state -> C) (c : M A) (k : A -> M B) :
  keeps f c -> (forall a, keeps f (k a)) -> keeps f (bind c k).
Proof.
  intros Hc Hk s. specialize (Hc s). unfold bind.
  destruct (c s) as [a s'|e s'|s']; simpl in *; [|done|done].
  by rewrite Hk.
Qed.

Lemma keeps_modify {B} (f : state -> B) (g : state -> state) :
  (forall s, f (g s) = f s) -> keeps f (modify g).
Proof. intros H s. apply H. Qed.

Lemma keeps_log {B} (f : state -> B) e :
  (forall s, f (emit e s) = f s) -> keeps f (log e).
Proof. intros H s. apply H. Qed.

Ltac keeps_step :=
  match goal with
  | |- keeps _ (bind _ _) => apply keeps_bind; [|intros ?]
  | |- keeps _ (match ?x with _ => _ end) => destruct x
  | |- keeps _ (ret _) => apply keeps_ret
  | |- keeps _ (raise _) => apply keeps_raise
  | |- keeps _ get => apply keeps_get
  | |- keeps _ (log _) => apply keeps_log; intros ?; reflexivity
  | |- keeps _ (modify _) => apply keeps_modify; intros ?; reflexivity
  | |- keeps _ (lift ?r) => destruct r; simpl
  end.

Ltac keeps_auto :=
  unfold update_best, save_model_complete, add_scalar, read_writer, py_lt, py_mod,
    getitem, as_state_dict;
  repeat keeps_step.

Section ReadOnly.
Variable predict : gmap string Z -> Z -> Z.

Lemma keeps_valid args env step : keeps training_state (valid predict args env step).
Proof. unfold valid. keeps_auto. Qed.

Lemma keeps_mAp args env step :
  step <> -1 -> keeps training_state (mAp predict args env step).
Proof.
  intros Hstep. unfold mAp, mAp_meters. apply Z.eqb_neq in Hstep. rewrite Hstep. keeps_auto.
Qed.

Lemma keeps_update_best args a : keeps training_state (update_best args a).
Proof. keeps_auto. Qed.

(** X4: evaluation is read-only: whatever their outcome, [valid], [mAp] called
    in the loop and the whole evaluation block leave the weights, the
    optimizer state, the accumulated gradients, the scheduler and
    [global_step] untouched. *)
Theorem evaluation_is_read_only args env step s :
  training_state (final_state (valid predict args env step s)) = training_state s
  /\ (step <> -1 ->
      training_state (final_state (mAp predict args env step s)) = training_state s)
  /\ (global_step s <> -1 ->
      training_state (final_state (evaluate predict args env s)) = training_state s).
Proof.
  split; [apply keeps_valid|]. split; [intros Hs; by apply keeps_mAp|].
  intros Hg. unfold evaluate. unfold bind at 1. unfold get at 1.
  match goal with |- training_state (final_state (?c s)) = _ => assert (keeps training_state c) as Hk end.
  { repeat first [apply keeps_valid | apply keeps_mAp; assumption | apply keeps_update_best
                 | keeps_step | progress unfold read_writer ]. }
  apply Hk.
Qed.

End ReadOnly.

(** ** Which test sets the mAP pass accepts, and what it counts *)

Lemma one_hot_Done_iff y n :
  (exists rows, one_hot y n = Done rows) <-> Forall (fun c => 0 <= c < n) y.
Proof.
  split; [|apply one_hot_in_range].
  intros [rows H]. unfold one_hot in H.
  destruct (forallb _ y) eqn:Hall; [|discriminate].
  rewrite forallb_forall in Hall. apply Forall_forall. intros c Hc.
  apply list_elem_of_In, Hall in Hc. lia.
Qed.

Lemma ConfusionMeter_add_width m width predicted target m' :
  ConfusionMeter_add m width predicted target = Done m' -> width = cm_k m.
Proof.
  unfold ConfusionMeter_add.
  destruct (negb (length predicted =? length target)%nat); [discriminate|].
  destruct (width =? cm_k m) eqn:Hw; [|discriminate]. lia.
Qed.

Lemma argmax_one_hot c :
  0 <= c < 40 -> argmax (map (fun j => if j =? c then 1 else 0) (seqZ 0 40)) = c.
Proof.
  intros Hc.
  assert (Hall : forallb (fun c => argmax (map (fun j => if j =? c then 1 else 0) (seqZ 0 40)) =? c)
                   (seqZ 0 40) = true) by (vm_compute; reflexivity).
  rewrite forallb_forall in Hall.
  apply Z.eqb_eq, Hall, list_elem_of_In, elem_of_seqZ. lia.
Qed.

Lemma cell_alter c t' p' t p :
  0 <= t -> 0 <= p -> 0 <= t' -> 0 <= p' ->
  cell (alter (alter Z.succ (Z.to_nat p')) (Z.to_nat t') c) t p
  = if bool_decide (t' = t /\ p' = p) then Z.succ <$> cell c t p else cell c t p.
Proof.
  intros Ht Hp Ht' Hp'. unfold cell. rewrite list_lookup_alter.
  destruct (decide (Z.to_nat t' = Z.to_nat t)) as [Heq|Hne].
  - assert (t' = t) as -> by lia.
    destruct (c !! Z.to_nat t) as [row|]; simpl; [|by destruct (bool_decide _)].
    rewrite list_lookup_alter.
    destruct (decide (Z.to_nat p' = Z.to_nat p)) as [Hq|Hq].
    + assert (p' = p) as -> by lia. by rewrite bool_decide_eq_true_2.
    + rewrite bool_decide_eq_false_2; [done|]. intros [_ ->]. done.
  - rewrite bool_decide_eq_false_2; [done|]. intros [-> _]. done.
Qed.

Lemma ConfusionMeter_add_k m width predicted target m' :
  ConfusionMeter_add m width predicted target = Done m' -> cm_k m' = cm_k m.
Proof.
  unfold ConfusionMeter_add.
  repeat match goal with |- context [if ?b then _ else _] => destruct b end;
    try discriminate.
  by intros [= <-].
Qed.

Lemma count_pairs_cons t' p' pairs t p :
  count_pairs ((t', p') :: pairs) t p
  = (if bool_decide (t' = t /\ p' = p) then 1 else 0) + count_pairs pairs t p.
Proof.
  unfold count_pairs. simpl.
  destruct (decide (t' = t /\ p' = p)) as [H|H].
  - rewrite filter_cons_True by (by apply bool_decide_pack).
    rewrite bool_decide_eq_true_2 by done. simpl length. lia.
  - rewrite filter_cons_False by (by intros ?%bool_decide_unpack).
    rewrite bool_decide_eq_false_2 by done. lia.
Qed.

Lemma count_pairs_app l1 l2 t p :
  count_pairs (l1 ++ l2) t p = count_pairs l1 t p + count_pairs l2 t p.
Proof.
  unfold count_pairs. rewrite filter_app, length_app. lia.
Qed.

Lemma cell_fold_pairs pairs : forall c t p n,
  0 <= t -> 0 <= p ->
  Forall (fun tp : Z * Z => 0 <= tp.1 /\ 0 <= tp.2) pairs ->
  cell c t p = Some n ->
  cell (fold_left (fun c tp => alter (alter Z.succ (Z.to_nat tp.2)) (Z.to_nat tp.1) c)
          pairs c) t p
  = Some (n + count_pairs pairs t p).
Proof.
  induction pairs as [|[t' p'] rest IH]; intros c t p n Ht Hp Hall Hc; simpl.
  - rewrite Hc. unfold count_pairs. simpl. f_equal. lia.
  - apply Forall_cons in Hall as [[Ht' Hp'] Hrest]. simpl in Ht', Hp'.
    rewrite count_pairs_cons.
    destruct (bool_decide (t' = t /\ p' = p)) eqn:Hd.
    + rewrite (IH _ t p (Z.succ n)); try done.
      * f_equal. lia.
      * rewrite cell_alter by done. rewrite Hd, Hc. done.
    + rewrite (IH _ t p n); try done.
      * rewrite cell_alter by done. by rewrite Hd.
Qed.

Lemma cell_square c t p :
  square 40 c -> 0 <= t < 40 -> 0 <= p < 40 -> exists n, cell c t p = Some n.
Proof.
  intros [Hlen Hrows] Ht Hp. unfold cell.
  destruct (lookup_lt_is_Some_2 c (Z.to_nat t)) as [row Hrow]; [lia|].
  rewrite Hrow. simpl. rewrite Forall_forall in Hrows.
  apply list_elem_of_lookup_2, Hrows in Hrow as Hl.
  apply lookup_lt_is_Some_2. lia.
Qed.

Lemma fold_one_hot_pairs (f : Z -> list Z) (g : Z -> Z) (b : list (Z * Z)) : forall c,
  Forall (fun xy : Z * Z => argmax (f xy.2) = xy.2) b ->
  fold_left (fun (c : list (list Z)) (pt : Z * list Z) =>
               alter (alter Z.succ (Z.to_nat pt.1)) (Z.to_nat (argmax pt.2)) c)
    (zip (map (fun xy : Z * Z => g xy.1) b) (map f (map snd b))) c
  = fold_left (fun c tp => alter (alter Z.succ (Z.to_nat tp.2)) (Z.to_nat tp.1) c)
      (map (fun xy : Z * Z => (xy.2, g xy.1)) b) c.
Proof.
  induction b as [|[x y] rest IH]; intros c Hb; [done|].
  apply Forall_cons in Hb as [Hy Hrest]. cbn in Hy.
  cbn [map zip zip_with fold_left fst snd]. rewrite Hy. by apply IH.
Qed.

Section ConfusionCounts.
Variable predict : gmap string Z -> Z -> Z.

Lemma ConfusionMeter_add_pairs m w b rows m' :
  Forall (fun xy : Z * Z => 0 <= xy.2 < 40) b ->
  one_hot (map snd b) 40 = Done rows ->
  ConfusionMeter_add m 40 (map (fun xy : Z * Z => predict w xy.1) b) rows = Done m' ->
  conf m' = fold_left (fun c tp => alter (alter Z.succ (Z.to_nat tp.2)) (Z.to_nat tp.1) c)
              (map (fun xy : Z * Z => (xy.2, predict w xy.1)) b) (conf m).
Proof.
  intros Hb Hoh. unfold one_hot in Hoh.
  destruct (forallb _ (map snd b)); [|discriminate]. injection Hoh as <-.
  unfold ConfusionMeter_add.
  repeat match goal with |- context [if ?x then _ else _] => destruct x end;
    try discriminate.
  intros [= <-]. cbn [conf].
  apply (fold_one_hot_pairs (fun c => map (fun j => if j =? c then 1 else 0) (seqZ 0 40))).
  eapply Forall_impl; [exact Hb|]. intros xy Hxy. by apply argmax_one_hot.
Qed.

Lemma mAp_batches_counts w loader : forall m m',
  cm_k m = 40 -> square 40 (conf m) ->
  labels_below_40 loader ->
  Forall (Forall (fun xy : Z * Z => 0 <= predict w xy.1)) loader ->
  mAp_batches predict w 40 m loader = Done m' ->
  forall t p n, 0 <= t -> 0 <= p -> cell (conf m) t p = Some n ->
    cell (conf m') t p
    = Some (n + count_pairs (map (fun xy : Z * Z => (xy.2, predict w xy.1)) (concat loader)) t p).
Proof.
  induction loader as [|b rest IH]; intros m m' Hk Hsq Hl Hp; simpl.
  - intros [= <-] t p n _ _ ->. unfold count_pairs. simpl. f_equal. lia.
  - apply Forall_cons in Hl as [Hb Hl]. apply Forall_cons in Hp as [Hpb Hp].
    destruct (one_hot _ 40) as [rows|] eqn:Hoh; [|discriminate].
    destruct (ConfusionMeter_add _ _ _ _) as [m1|] eqn:Hadd; [|discriminate].
    intros Hrest t p n Ht Hp0 Hc.
    destruct (ConfusionMeter_add_square _ _ _ _ _ _ Hadd Hsq) as [Hk1 Hsq1].
    pose proof (ConfusionMeter_add_pairs _ _ _ _ _ Hb Hoh Hadd) as Hconf.
    rewrite map_app, count_pairs_app.
    rewrite (IH m1 m' ltac:(congruence) Hsq1 Hl Hp Hrest t p
               (n + count_pairs (map (fun xy : Z * Z => (xy.2, predict w xy.1)) b) t p) Ht Hp0).
    + f_equal. lia.
    + rewrite Hconf. apply cell_fold_pairs; try done.
      apply Forall_forall. intros [t' p'] Hin.
      apply list_elem_of_In, in_map_iff in Hin as ([x y] & [= <- <-] & Hin).
      apply list_elem_of_In in Hin. rewrite Forall_forall in Hb, Hpb.
      specialize (Hb _ Hin). specialize (Hpb _ Hin). simpl in *. lia.
Qed.

Lemma mAp_batches_Done_inv w width l : forall m m',
  mAp_batches predict w width m l = Done m' ->
  labels_below_40 l /\ (l <> [] -> width = cm_k m).
Proof.
  induction l as [|b rest IH]; intros m m'; simpl.
  - intros _. split; [constructor|done].
  - destruct (one_hot _ 40) as [rows|] eqn:Hoh; [|discriminate].
    destruct (ConfusionMeter_add _ _ _ _) as [m1|] eqn:Hadd; [|discriminate].
    intros Hrest. pose proof (ConfusionMeter_add_width _ _ _ _ _ Hadd) as Hw.
    destruct (IH m1 m' Hrest) as [Hl _].
    split; [|done].
    constructor; [|done].
    assert (Hy : Forall (fun c => 0 <= c < 40) (map snd b))
      by (apply one_hot_Done_iff; eauto).
    apply Forall_forall. intros [x y] Hin. rewrite Forall_forall in Hy.
    apply Hy. apply list_elem_of_In, in_map_iff. exists (x, y).
    split; [done|]. by apply list_elem_of_In.
Qed.

(** X5: the loop of lines 183-195 runs through exactly when the test loader
    is empty, or the network has 40 outputs and every label is a class
    of the 40-way encoding (in particular not negative). *)
Theorem mAp_batches_succeeds_iff w width loader :
  (exists m, mAp_batches predict w width (new_ConfusionMeter 40) loader = Done m)
  <-> loader = [] \/ (width = 40 /\ labels_below_40 loader).
Proof.
  split.
  - intros [m' H]. destruct loader as [|b rest]; [by left|]. right.
    destruct (mAp_batches_Done_inv _ _ _ _ _ H) as [Hl Hw]. split; [exact (Hw ltac:(discriminate))|exact Hl].
  - intros [->|[-> Hl]]; [simpl; eauto|]. by apply mAp_batches_safe.
Qed.

(** X6: when the mAP pass succeeds on a network with 40 outputs, cell
    (t, p) of the confusion matrix it built holds the number of test
    samples with label t that the network assigns to class p. *)
Theorem mAp_confusion_matrix_counts w loader m :
  Forall (Forall (fun xy : Z * Z => 0 <= predict w xy.1 < 40)) loader ->
  mAp_batches predict w 40 (new_ConfusionMeter 40) loader = Done m ->
  forall t p, 0 <= t < 40 -> 0 <= p < 40 ->
    cell (conf m) t p
    = Some (count_pairs (map (fun xy : Z * Z => (xy.2, predict w xy.1)) (concat loader)) t p).
Proof.
  intros Hp H t p Ht Hp0.
  assert (Hl : labels_below_40 loader).
  { by destruct (mAp_batches_Done_inv _ _ _ _ _ H). }
  assert (Hp' : Forall (Forall (fun xy : Z * Z => 0 <= predict w xy.1)) loader).
  { eapply Forall_impl; [exact Hp|]. intros b Hb.
    eapply Forall_impl; [exact Hb|]. intros xy Hxy. cbn beta in Hxy. lia. }
  rewrite (mAp_batches_counts w loader (new_ConfusionMeter 40) m eq_refl
             (new_ConfusionMeter_square 40) Hl Hp' H t p 0);
    [f_equal; lia|lia|lia|].
  unfold cell. cbn [conf new_ConfusionMeter].
  rewrite lookup_replicate_2 by lia. cbn [mbind option_bind].
  by rewrite lookup_replicate_2 by lia.
Qed.

End ConfusionCounts.

Lemma mAp_batches_succeeds_iff_witness :
  (exists m, mAp_batches example_predict ∅ 40 (new_ConfusionMeter 40) [[(1, 1); (2, 3)]] = Done m)
  /\ ~ (exists m, mAp_batches example_predict ∅ 10 (new_ConfusionMeter 40) [[(1, 1); (2, 3)]]
                  = Done m).
Proof.
  split.
  - apply (proj2 (mAp_batches_succeeds_iff example_predict ∅ 40 [[(1, 1); (2, 3)]])).
    right. split; [done|]. repeat constructor; simpl; lia.
  - intros H.
    apply (proj1 (mAp_batches_succeeds_iff example_predict ∅ 10 [[(1, 1); (2, 3)]])) in H.
    destruct H as [H|[H _]]; [discriminate|lia].
Defined.

Lemma mAp_confusion_matrix_counts_witness :
  exists m, mAp_batches example_predict ∅ 40 (new_ConfusionMeter 40)
              [[(1, 1); (2, 3)]; [(3, 3)]] = Done m
            /\ cell (conf m) 3 3 = Some 1 /\ cell (conf m) 3 2 = Some 1.
Proof.
  destruct (mAp_batches example_predict ∅ 40 (new_ConfusionMeter 40)
              [[(1, 1); (2, 3)]; [(3, 3)]]) as [m|e] eqn:H; [|by vm_compute in H].
  exists m. split; [done|].
  split; apply (mAp_confusion_matrix_counts example_predict ∅ [[(1, 1); (2, 3)]; [(3, 3)]] m);
    try done; try lia; repeat constructor; simpl; unfold example_predict; lia.
Defined.

(** ** Computations that cannot run out of fuel *)

Lemma completes_ret {A} (a : A) : completes (ret a).
Proof. done. Qed.

Lemma completes_raise {A} e : completes (@raise A e).
Proof. done. Qed.

Lemma completes_get : completes get.
Proof. done. Qed.

Lemma completes_modify f : completes (modify f).
Proof. done. Qed.

Lemma completes_log e : completes (log e).
Proof. done. Qed.

Lemma completes_bind {A B} (c : M A) (k : A -> M B) :
  completes c -> (forall a, completes (k a)) -> completes (bind c k).
Proof.
  intros Hc Hk s s'. unfold bind. specialize (Hc s).
  destruct (c s) as [a s1|e s1|s1]; [apply Hk|done|]. by destruct (Hc s1).
Qed.

Ltac completes_step :=
  match goal with
  | |- completes (bind _ _) => apply completes_bind; [|intros ?]
  | |- completes (match ?x with _ => _ end) => destruct x
  | |- completes (ret _) => apply completes_ret
  | |- completes (raise _) => apply completes_raise
  | |- completes get => apply completes_get
  | |- completes (log _) => apply completes_log
  | |- completes (modify _) => apply completes_modify
  | |- completes (lift ?r) => destruct r; simpl
  end.

Ltac completes_auto :=
  unfold update_best, save_model_complete, add_scalar, read_writer, py_lt, py_mod,
    py_floordiv, getitem, as_state_dict, load_state_dict_file, load_state_dict, torch_load;
  repeat completes_step.

(** The optimizer updates a trace holds. *)
Lemma keeps_updates_log e :
  is_optimizer_step e = false -> keeps optimizer_steps (log e).
Proof.
  intros He s. unfold optimizer_steps. simpl.
  rewrite filter_cons_False; [done|]. rewrite He. by intros [].
Qed.

Section Startup.
Variable predict : gmap string Z -> Z -> Z.
Variable sgd : gmap string Z -> gmap string Z -> list batch ->
               gmap string Z * gmap string Z.

Lemma completes_mAp args env step : completes (mAp predict args env step).
Proof. unfold mAp, mAp_meters. completes_auto. Qed.

Lemma completes_resume args env : completes (resume args env).
Proof. unfold resume. completes_auto. Qed.

Lemma completes_startup args env : completes (startup predict args env).
Proof.
  unfold startup.
  repeat first [apply completes_mAp | apply completes_resume
               | completes_step | progress unfold read_writer, py_floordiv].
Qed.

Ltac updates_step :=
  match goal with
  | |- keeps _ (bind _ _) => apply keeps_bind; [|intros ?]
  | |- keeps _ (match ?x with _ => _ end) => destruct x
  | |- keeps _ (ret _) => apply keeps_ret
  | |- keeps _ (raise _) => apply keeps_raise
  | |- keeps _ get => apply keeps_get
  | |- keeps _ (log _) => apply keeps_updates_log; reflexivity
  | |- keeps _ (modify _) => apply keeps_modify; intros ?; reflexivity
  | |- keeps _ (lift ?r) => destruct r; simpl
  end.

Lemma keeps_updates_startup args env :
  keeps optimizer_steps (startup predict args env).
Proof.
  unfold startup, mAp, mAp_meters, resume, add_scalar, read_writer, py_floordiv, getitem,
    as_state_dict, load_state_dict_file, load_state_dict, torch_load.
  repeat updates_step.
Qed.

(** What a successful reload at the start of [mAp] means. *)
Lemma mAp_reload_inv args env s s1 :
  mAp predict args env (-1) s = Ok tt s1 ->
  exists c sd m,
    files env !! mAp_checkpoint_file = Some c
    /\ c !! "model_state_dict" = Some (PStateDict sd)
    /\ dom sd = dom (weights s)
    /\ weights s1 = sd
    /\ mAp_batches predict sd (num_classes args) (new_ConfusionMeter 40) (test_loader env)
       = Done m
    /\ writer s <> None.
Proof.
  unfold mAp, mAp_meters, torch_load, getitem, as_state_dict, load_state_dict, add_scalar, read_writer.
  rewrite Z.eqb_refl. py_run.
  destruct (files env !! mAp_checkpoint_file) as [c|]; py_run; [|done].
  destruct (c !! "model_state_dict") as [[| | | |sd]|] eqn:Hsd; py_run; try done.
  destruct (bool_decide (dom sd = dom (weights s))) eqn:Hdom; py_run; [|done].
  apply bool_decide_eq_true in Hdom.
  destruct (mAp_batches _ _ _ _ _) as [m|] eqn:Hm; py_run; [|done].
  destruct (test_loader env) as [|b0 l0] eqn:Hl0 in |- *; py_run; [done|].
  destruct (writer s) eqn:Hw; py_run; [|done].
  intros [= <-]. exists c, sd, m. rewrite <- Hl0. done.
Qed.

Lemma startup_reaches_mAp args env s s1 :
  startup predict args env s = Ok tt s1 ->
  gradient_accumulation_steps args <> 0
  /\ exists s0, mAp predict args env (-1) s0 = Ok tt s1.
Proof.
  intros H. unfold startup in H.
  apply bind_Ok_inv in H as (? & sa & _ & H).
  apply bind_Ok_inv in H as (? & sb & HK & H).
  do 6 apply bind_Ok_inv in H as (? & ? & _ & H).
  apply bind_Ok_inv in H as (? & sc & _ & H).
  split; [|by exists sc].
  intros HK0. unfold py_floordiv in HK. by rewrite HK0 in HK.
Qed.

(** X7: whatever [--input_dir] names, a [train] that gets past its startup
    trains the weights of the one checkpoint file that [mAp] names for
    [global_step = -1]: startup only returns when that file exists and
    holds a [model_state_dict], these are then the model's weights, and
    the network has 40 outputs unless the test loader is empty. *)
Theorem startup_trains_fixed_checkpoint args env s s1 :
  startup predict args env s = Ok tt s1 ->
  exists c sd,
    files env !! mAp_checkpoint_file = Some c
    /\ c !! "model_state_dict" = Some (PStateDict sd)
    /\ weights s1 = sd
    /\ (test_loader env <> [] -> num_classes args = 40)
    /\ gradient_accumulation_steps args <> 0.
Proof.
  intros H. apply startup_reaches_mAp in H as (HK & s0 & H).
  apply mAp_reload_inv in H as (c & sd & m & Hc & Hsd & _ & Hw & Hm & _).
  exists c, sd. repeat split; try done.
  intros Hne. destruct (mAp_batches_Done_inv _ _ _ _ _ _ Hm) as [_ Hwd]. by apply Hwd.
Qed.

(** X8: with any dataset option but "stanford40" (so also with the default,
    "cifar10") and a test set that is not empty, [train] raises during its
    startup: no optimizer update is ever made. *)
Theorem train_requires_stanford40 fuel args env w :
  dataset args <> "stanford40" -> test_loader env <> [] ->
  exists e s', train predict sgd fuel args env (entry_state w) = Raise e s'
    /\ optimizer_steps s' = 0%nat.
Proof.
  intros Hd Hne.
  assert (Hnc : num_classes args <> 40).
  { unfold num_classes. apply String.eqb_neq in Hd. rewrite Hd.
    by destruct (String.eqb _ "cifar10"). }
  pose proof (keeps_updates_startup args env (entry_state w)) as Hk.
  pose proof (completes_startup args env (entry_state w)) as Hc.
  unfold train. unfold bind at 1.
  destruct (startup predict args env (entry_state w)) as [[] s1|e s1|s1] eqn:Hs.
  - apply startup_reaches_mAp in Hs as (_ & s0 & Hs).
    apply mAp_reload_inv in Hs as (c & sd & m & _ & _ & _ & _ & Hm & _).
    destruct (mAp_batches_Done_inv _ _ _ _ _ _ Hm) as [_ Hwd]. by apply Hwd in Hne.
  - exists e, s1. split; [done|]. exact Hk.
  - by destruct (Hc s1).
Qed.

End Startup.

(** ** Checkpoints written and read back *)

Lemma append_nonempty a b : b <> "" -> a +:+ b <> "".
Proof. destruct a; [done|]. simpl. discriminate. Qed.

Lemma path_join_nonempty dir name : name <> "" -> path_join dir name <> "".
Proof.
  intros Hname. unfold path_join.
  destruct (starts_with_slash name); [done|].
  destruct (_ || _); repeat apply append_nonempty; done.
Qed.

Lemma save_model_file_nonempty args m : (save_model args m).1 <> "".
Proof.
  unfold save_model. cbn [fst]. apply path_join_nonempty, append_nonempty. discriminate.
Qed.

Lemma resume_plain args env s file (sd : gmap string Z) :
  input_dir args = Some file -> file <> "" ->
  files env !! file = Some (PTensor <$> sd) ->
  sd !! "model_state_dict" = None ->
  dom sd = dom (weights s) ->
  resume args env s = Ok tt (set_weights sd (emit (ETorchLoad file) s)).
Proof.
  intros Hin Hne Hfile Hnone Hdom.
  assert (Heqb : String.eqb file "" = false) by (by apply String.eqb_neq).
  unfold resume, torch_load. rewrite Hin, Heqb. py_run. rewrite Hfile. py_run.
  rewrite bool_decide_eq_false_2.
  2:{ rewrite elem_of_dom, lookup_fmap, Hnone. simpl. by intros [? ?]. }
  unfold load_state_dict_file. cbv zeta.
  assert (Hom : omap tensor_of (PTensor <$> sd) = sd).
  { apply map_eq. intros i. rewrite lookup_omap, lookup_fmap.
    by destruct (sd !! i). }
  rewrite Hom, dom_fmap_L, bool_decide_eq_true_2 by done. py_run.
  unfold load_state_dict. py_run. by rewrite bool_decide_eq_true_2.
Qed.

(** X9: what [save_model_complete] writes can be resumed from: a later run
    whose model has the same parameter names gets the saved weights and
    the saved accuracy as its best accuracy, whatever that accuracy was. *)
Theorem save_model_complete_round_trip args args' env file accuracy step s s0 :
  input_dir args' = Some file -> file <> "" ->
  dom (weights s) = dom (weights s0) ->
  exists content,
    written_content (final_state (save_model_complete args accuracy step s)) = Some content
    /\ exists s', resume args' (with_file file content env) s0 = Ok tt s'
         /\ weights s' = weights s /\ best_acc s' = accuracy.
Proof.
  intros Hin Hne Hdom.
  destruct (save_model_complete_ok args accuracy step s) as (c & -> & Hb & Hm & _).
  exists c. split; [done|].
  rewrite (resume_complete args' (with_file file c env) s0 file c (weights s) accuracy);
    try done.
  - eexists. split; [reflexivity|]. done.
  - cbn [files with_file]. by rewrite lookup_insert_eq.
Qed.

(** X10: what [save_model] writes can be resumed from: the file name is never
    empty, and a later run given that file gets the weights of the network
    inside the wrapper and keeps its own best accuracy. *)
Theorem save_model_round_trip args args' env m s0 :
  input_dir args' = Some (save_model args m).1 ->
  "model_state_dict" ∉ dom (model_to_save m) ->
  dom (model_to_save m) = dom (weights s0) ->
  (save_model args m).1 <> ""
  /\ exists s', resume args' (with_file (save_model args m).1 (save_model args m).2 env) s0
               = Ok tt s'
       /\ weights s' = model_to_save m /\ best_acc s' = best_acc s0.
Proof.
  intros Hin Hkey Hdom. split; [apply save_model_file_nonempty|].
  rewrite (resume_plain args' _ s0 (save_model args m).1 (model_to_save m)); try done.
  - eexists. split; [reflexivity|]. done.
  - apply save_model_file_nonempty.
  - cbn [files with_file]. by rewrite lookup_insert_eq.
  - by apply not_elem_of_dom.
Qed.

(** ** Invariants of computations *)

Lemma always_ret {A} (I : state -> Prop) (a : A) : always I (ret a).
Proof. by intros s. Qed.

Lemma always_raise {A} (I : state -> Prop) e : always I (@raise A e).
Proof. by intros s. Qed.

Lemma always_bind {A B} (I : state -> Prop) (c : M A) (k : A -> M B) :
  always I c -> (forall a, always I (k a)) -> always I (bind c k).
Proof.
  intros Hc Hk s Hs. specialize (Hc s Hs). unfold bind.
  destruct (c s) as [a s'|e s'|s']; [by apply Hk|done|done].
Qed.

Lemma always_get_bind {B} (I : state -> Prop) (k : state -> M B) :
  (forall s0, I s0 -> always I (k s0)) -> always I (bind get k).
Proof. intros H s Hs. by apply (H s Hs s). Qed.

Lemma always_py_mod_bind {B} (I : state -> Prop) a b (k : Z -> M B) :
  (b <> 0 -> always I (k (a mod b))) -> always I (bind (py_mod a b) k).
Proof.
  intros H s Hs. unfold bind, py_mod.
  destruct (b =? 0) eqn:Hb; [done|]. apply H; [lia|done].
Qed.

Lemma always_modify (I : state -> Prop) f :
  (forall s, I s -> I (f s)) -> always I (modify f).
Proof. intros H s Hs. by apply H. Qed.

Lemma always_log (I : state -> Prop) e :
  (forall s, I s -> I (emit e s)) -> always I (log e).
Proof. intros H s Hs. by apply H. Qed.

Lemma always_unchanged {A} (I : state -> Prop) (c : M A) :
  keeps (fun s => s) c -> always I c.
Proof. intros H s Hs. by rewrite H. Qed.

Lemma keeps_state_read_writer : keeps (fun s => s) read_writer.
Proof. keeps_auto. Qed.

Lemma keeps_state_py_lt a b : keeps (fun s => s) (py_lt a b).
Proof. keeps_auto. Qed.

Lemma keeps_state_py_floordiv a b : keeps (fun s => s) (py_floordiv a b).
Proof. unfold py_floordiv. keeps_auto. Qed.

Lemma keeps_state_getitem d k : keeps (fun s => s) (getitem d k).
Proof. keeps_auto. Qed.

Lemma keeps_state_as_state_dict v : keeps (fun s => s) (as_state_dict v).
Proof. keeps_auto. Qed.

Lemma keeps_state_lift {A} (r : result A) : keeps (fun s => s) (lift r).
Proof. by destruct r. Qed.

(** Steps through a computation, leaving the goals for what it logs and
    what it assigns. *)
Ltac always_step :=
  match goal with
  | |- always _ (bind get _) => apply always_get_bind; intros ? ?
  | |- always _ (bind (py_mod _ _) _) => apply always_py_mod_bind; intros ?
  | |- always _ (bind _ _) => apply always_bind; [|intros ?]
  | |- always _ (match ?x with _ => _ end) => destruct x eqn:?
  | |- always _ (ret _) => apply always_ret
  | |- always _ (raise _) => apply always_raise
  | |- always _ read_writer => apply always_unchanged, keeps_state_read_writer
  | |- always _ (py_lt _ _) => apply always_unchanged, keeps_state_py_lt
  | |- always _ (py_floordiv _ _) => apply always_unchanged, keeps_state_py_floordiv
  | |- always _ (getitem _ _) => apply always_unchanged, keeps_state_getitem
  | |- always _ (as_state_dict _) => apply always_unchanged, keeps_state_as_state_dict
  | |- always _ (lift _) => apply always_unchanged, keeps_state_lift
  | |- always _ (log _) => apply always_log
  | |- always _ (modify _) => apply always_modify
  end.

(** ** A run before its first optimizer update *)

Lemma before_training_emit every e s :
  is_optimizer_step e = false -> on_cadence every e = true ->
  before_training every s -> before_training every (emit e s).
Proof.
  intros He Hc (Hg & Hl & Ho & Ht). repeat split; try done.
  - unfold optimizer_steps in *. cbn [trace emit].
    rewrite filter_cons_False; [done|]. rewrite He. by intros [].
  - cbn [trace emit forallb]. by rewrite Hc, Ht.
Qed.

Lemma before_training_entry every w : before_training every (entry_state w).
Proof. done. Qed.

Section Invariants.
Variable predict : gmap string Z -> Z -> Z.
Variable sgd : gmap string Z -> gmap string Z -> list batch ->
               gmap string Z * gmap string Z.

Lemma always_before_training_startup args env every :
  always (before_training every) (startup predict args env).
Proof.
  unfold startup, mAp, mAp_meters, resume, add_scalar, load_state_dict_file,
    load_state_dict, torch_load.
  rewrite Z.eqb_refl.
  repeat first
    [ always_step
    | match goal with
      | |- forall s, before_training _ s -> before_training _ (emit _ s) =>
          intros ? ?; by apply before_training_emit
      | |- forall s, before_training _ s -> before_training _ _ =>
          intros ? (? & ? & ? & ?); by repeat split
      end ].
Qed.

Lemma always_before_training_finish args every :
  always (before_training every) (finish args).
Proof.
  unfold finish.
  repeat first
    [ always_step
    | match goal with
      | |- forall s, before_training _ s -> before_training _ (emit _ s) =>
          intros ? ?; by apply before_training_emit
      end ].
Qed.

(** *** One micro-batch, by cases *)

Lemma micro_batch_cases args env step b s :
  let K := gradient_accumulation_steps args in
  (K = 0 /\ micro_batch predict sgd args env step b s
            = Raise ZeroDivisionError (accumulated b s))
  \/ (K <> 0 /\ (step + 1) mod K <> 0
      /\ micro_batch predict sgd args env step b s = Ok false (accumulated b s))
  \/ (K <> 0 /\ (step + 1) mod K = 0
      /\ micro_batch predict sgd args env step b s
         = report_and_evaluate predict args env (updated sgd (accumulated b s))).
Proof.
  cbv zeta. destruct (decide (gradient_accumulation_steps args = 0)) as [HK|HK].
  - left. split; [done|]. unfold micro_batch, accumulate, window_complete, py_mod.
    rewrite HK. reflexivity.
  - right. destruct (decide ((step + 1) mod gradient_accumulation_steps args = 0))
      as [Hm|Hm].
    + right. split; [done|]. split; [done|].
      unfold micro_batch, accumulate. py_run. rewrite window_complete_eq by done.
      apply Z.eqb_eq in Hm. rewrite Hm. reflexivity.
    + left. split; [done|]. split; [done|]. by apply micro_batch_incomplete.
Qed.

Lemma report_and_evaluate_break args env s r s' :
  report_and_evaluate predict args env s = Ok r s' ->
  num_steps args <> 0 /\ r = (global_step s' mod num_steps args =? 0).
Proof.
  intros H. split; [|by eapply report_and_evaluate_result].
  unfold report_and_evaluate in H.
  do 4 apply bind_Ok_inv in H as (? & ? & _ & H).
  apply bind_Ok_inv in H as (? & ? & _ & H).
  apply bind_Ok_inv in H as (? & ? & Hmod & H).
  unfold py_mod in Hmod. destruct (num_steps args =? 0) eqn:HT; [done|]. lia.
Qed.

Lemma keeps_last_epoch_report_and_evaluate args env :
  keeps last_epoch (report_and_evaluate predict args env).
Proof.
  unfold report_and_evaluate, evaluate, valid, mAp, mAp_meters, torch_load, load_state_dict.
  keeps_auto.
Qed.

(** *** From one micro-batch to the whole loop *)

Section LoopRule.
Variables (args : Args) (env : Env).
(** [P step] holds before the micro-batch of index [step] is processed,
    [R] in every state in which the loop can be left. *)
Variables (P : Z -> state -> Prop) (R : state -> Prop).
Hypothesis micro_batch_step : forall step b s, 0 <= step -> P step s ->
  match micro_batch predict sgd args env step b s with
  | Ok false s' => P (step + 1) s'
  | Ok true s' => R s'
  | Raise _ s' => R s'
  | OutOfFuel s' => R s'
  end.
Hypothesis head_leaves : forall step s, 0 <= step -> P step s -> R s.
Hypothesis head_restarts : forall step s, 0 <= step -> P step s ->
  num_steps args <> 0 -> global_step s mod num_steps args <> 0 -> P 0 s.

Lemma micro_batch_break step b s s' :
  micro_batch predict sgd args env step b s = Ok true s' ->
  num_steps args <> 0 /\ global_step s' mod num_steps args = 0.
Proof.
  destruct (micro_batch_cases args env step b s) as [[_ H]|[(_ & _ & H)|(_ & _ & H)]];
    rewrite H; try done.
  intros Hr. apply report_and_evaluate_break in Hr as [HT Hr].
  split; [done|]. symmetry in Hr. by apply Z.eqb_eq in Hr.
Qed.

Lemma for_batches_rule : forall bs step s, 0 <= step -> P step s ->
  match for_batches predict sgd args env step bs s with
  | Ok _ s' =>
      (exists step', 0 <= step' /\ P step' s')
      \/ (R s' /\ num_steps args <> 0 /\ global_step s' mod num_steps args = 0)
  | Raise _ s' => R s'
  | OutOfFuel s' => R s'
  end.
Proof.
  induction bs as [|b rest IH]; intros step s Hstep HP.
  - left. by exists step.
  - rewrite for_batches_cons.
    pose proof (micro_batch_step step b s Hstep HP) as Hmb.
    destruct (micro_batch predict sgd args env step b s) as [[] s'|e s'|s'] eqn:Hrun;
      try done.
    + right. split; [done|]. by eapply micro_batch_break.
    + apply IH; [lia|done].
Qed.

Lemma epoch_rule s : P 0 s ->
  match epoch predict sgd args env s with
  | Ok false s' => P 0 s'
  | Ok true s' => R s'
  | Raise _ s' => R s'
  | OutOfFuel s' => R s'
  end.
Proof.
  intros HP. unfold epoch. unfold bind at 1.
  pose proof (for_batches_rule (train_loader env) 0 s ltac:(lia) HP) as Hfb.
  destruct (for_batches _ _ _ _ _ _ _) as [[] s'|e s'|s']; try done.
  py_run. unfold py_mod.
  destruct Hfb as [(step' & Hs' & HP')|(HR & HT & Hmod)].
  - destruct (num_steps args =? 0) eqn:HT; [by eapply head_leaves|]. py_run.
    destruct (global_step s' mod num_steps args =? 0) eqn:Hm.
    + by eapply head_leaves.
    + eapply head_restarts; [exact Hs'|done|lia|lia].
  - apply Z.eqb_neq in HT. rewrite HT. py_run. by rewrite Hmod.
Qed.

Lemma train_loop_rule fuel : forall s, P 0 s ->
  R (final_state (train_loop predict sgd fuel args env s)).
Proof.
  induction fuel as [|fuel IH]; intros s HP; [by eapply (head_leaves 0)|].
  cbn [train_loop]. unfold bind.
  pose proof (epoch_rule s HP) as He.
  destruct (epoch predict sgd args env s) as [[] s'|e s'|s']; try done.
  by apply IH.
Qed.

(** The whole of [train], when startup establishes [P 0] and the end of
    [train] keeps [R]. *)
Lemma train_rule fuel s every :
  before_training every s ->
  (forall s', before_training every s' -> P 0 s') ->
  always R (finish args) ->
  R (final_state (train predict sgd fuel args env s)).
Proof.
  intros Hs Hstart Hfinish. unfold train. unfold bind at 1.
  pose proof (always_before_training_startup args env every s Hs) as H0.
  destruct (startup predict args env s) as [[] s1|e s1|s1]; cbn [final_state] in H0.
  - unfold bind. pose proof (train_loop_rule fuel s1 (Hstart _ H0)) as Hl.
    destruct (train_loop predict sgd fuel args env s1) as [[] s2|e s2|s2];
      cbn [final_state] in Hl; try done.
    by apply Hfinish.
  - by apply (head_leaves 0), Hstart.
  - by apply (head_leaves 0), Hstart.
Qed.

End LoopRule.

End Invariants.

Lemma outcome_all (J : state -> Prop) (o : outcome bool) :
  J (final_state o) ->
  match o with
  | Ok false s' => J s'
  | Ok true s' => J s'
  | Raise _ s' => J s'
  | OutOfFuel s' => J s'
  end.
Proof. by destruct o as [[] ?| |]. Qed.

Lemma optimizer_steps_emit e s :
  optimizer_steps (emit e s)
  = if is_optimizer_step e then S (optimizer_steps s) else optimizer_steps s.
Proof.
  unfold optimizer_steps. cbn [trace emit]. rewrite filter_cons.
  destruct (is_optimizer_step e); [by rewrite decide_True|].
  by rewrite decide_False by (by intros []).
Qed.

Lemma optimizer_steps_accumulated b s :
  optimizer_steps (accumulated b s) = optimizer_steps s.
Proof. unfold accumulated. apply (optimizer_steps_emit (EBackward b)). Qed.

Lemma optimizer_steps_updated sgd s :
  optimizer_steps (updated sgd s) = S (optimizer_steps s).
Proof.
  unfold optimizer_steps, updated. cbn [trace].
  rewrite filter_cons_True by done.
  rewrite filter_cons_False by (by intros []). done.
Qed.

Section Counters.
Variable predict : gmap string Z -> Z -> Z.
Variable sgd : gmap string Z -> gmap string Z -> list batch ->
               gmap string Z * gmap string Z.
Variables (args : Args) (env : Env).

Lemma counters_report_and_evaluate s :
  let s' := final_state (report_and_evaluate predict args env s) in
  global_step s' = global_step s /\ last_epoch s' = last_epoch s
  /\ optimizer_steps s' = optimizer_steps s.
Proof.
  pose proof (preserves_report_and_evaluate predict args env s) as Hext.
  cbv zeta. split; [apply (ext_global_step _ _ Hext)|].
  split; [apply keeps_last_epoch_report_and_evaluate|].
  by apply extends_optimizer_steps.
Qed.

Lemma counters_micro_batch step b s : 0 <= step -> steps_below args s ->
  match micro_batch predict sgd args env step b s with
  | Ok false s' => steps_below args s'
  | Ok true s' => steps_within args s'
  | Raise _ s' => steps_within args s'
  | OutOfFuel s' => steps_within args s'
  end.
Proof.
  intros _ ([Hg Hl] & H0 & HT).
  assert (Hacc : steps_below args (accumulated b s)).
  { split; [split|]; [by rewrite optimizer_steps_accumulated|done|done]. }
  assert (Hbw : forall s0, steps_below args s0 -> steps_within args s0).
  { intros s0 (? & ? & HT0). split; [done|]. split; [done|]. intros ?. by apply Z.lt_le_incl, HT0. }
  destruct (micro_batch_cases predict sgd args env step b s)
    as [[_ ->]|[(_ & _ & ->)|(_ & _ & ->)]]; [by apply Hbw|done|].
  set (su := updated sgd (accumulated b s)).
  destruct (counters_report_and_evaluate su) as (Hg' & Hl' & Ho').
  assert (Hw : steps_within args (final_state (report_and_evaluate predict args env su))).
  { split; [split|].
    - rewrite Hg', Ho'. subst su. rewrite optimizer_steps_updated, optimizer_steps_accumulated.
      cbn [global_step updated accumulated set_grads emit]. lia.
    - rewrite Hl', Hg'. subst su. cbn [global_step last_epoch updated accumulated set_grads emit].
      lia.
    - rewrite Hg'. subst su. cbn [global_step updated accumulated set_grads emit].
      split; [lia|]. intros H1. specialize (HT H1). lia. }
  destruct (report_and_evaluate predict args env su) as [[] s'|e s'|s'] eqn:Hrun;
    cbn [final_state] in Hw; try done.
  destruct Hw as (Hc & Hpos & Hle). split; [done|]. split; [done|].
  intros H1. specialize (Hle H1).
  apply report_and_evaluate_break in Hrun as [_ Hr]. symmetry in Hr.
  apply Z.eqb_neq in Hr.
  destruct (decide (global_step s' = num_steps args)) as [Heq|Hne]; [|lia].
  rewrite Heq, Z.mod_same in Hr by lia. done.
Qed.

Lemma counters_finish : always (steps_within args) (finish args).
Proof.
  intros s ([Hg Hl] & H0 & HT). unfold finish.
  destruct (primary args); py_run.
  - destruct (to_number (best_acc s)); cbn [final_state];
      (split; [split|]; [by rewrite (optimizer_steps_emit EWriterClose)|done|done]).
  - by destruct (to_number (best_acc s)).
Qed.

Lemma counters_train fuel w :
  steps_within args (final_state (train predict sgd fuel args env (entry_state w))).
Proof.
  apply (train_rule predict sgd args env (fun _ => steps_below args) (steps_within args)) with (every := 1).
  - apply counters_micro_batch.
  - intros _ s _ (? & ? & HT). split; [done|]. split; [done|].
    intros ?. by apply Z.lt_le_incl, HT.
  - by intros _ s _ ?.
  - apply before_training_entry.
  - intros s' (Hg & Hl & Ho & _). split; [split|]; [by rewrite Hg, Ho|congruence|lia].
  - apply counters_finish.
Qed.

(** X11: in whatever state [train] ends or raises, [global_step] is the
    number of optimizer updates made and the number of scheduler steps
    taken. *)
Theorem train_counters_agree fuel w :
  counters_agree (final_state (train predict sgd fuel args env (entry_state w))).
Proof.
  destruct (counters_train fuel w) as [Hagree _]. exact Hagree.
Qed.

(** X12: with a positive [num_steps], [train] never makes more optimizer
    updates than that, whether it returns, raises or is still running. *)
Theorem train_never_exceeds_num_steps fuel w :
  1 <= num_steps args ->
  Z.of_nat (optimizer_steps (final_state (train predict sgd fuel args env (entry_state w))))
  <= num_steps args.
Proof.
  intros HT. destruct (counters_train fuel w) as ([Hg _] & _ & Hle).
  rewrite <- Hg. by apply Hle.
Qed.

(** The loop is only left normally with [global_step] a multiple of
    [num_steps]. *)
Lemma train_loop_exit fuel : forall s s',
  train_loop predict sgd fuel args env s = Ok tt s' ->
  num_steps args <> 0 /\ global_step s' mod num_steps args = 0.
Proof.
  induction fuel as [|fuel IH]; intros s s' H; [done|].
  cbn [train_loop] in H. apply bind_Ok_inv in H as (stop & s1 & He & H).
  destruct stop; [|by eapply IH].
  injection H as <-. unfold epoch in He.
  apply bind_Ok_inv in He as (? & s2 & _ & He).
  apply bind_Ok_inv in He as (? & s3 & Hget & He). injection Hget as <- <-.
  apply bind_Ok_inv in He as (r & s4 & Hmod & He).
  unfold py_mod in Hmod. destruct (num_steps args =? 0) eqn:HT; [done|].
  injection Hmod as <- <-. injection He as He <-.
  split; [lia|]. by apply Z.eqb_eq.
Qed.

(** X13: when [train] returns with a positive [num_steps], it has made either
    exactly [num_steps] optimizer updates or none at all. *)
Theorem train_returns_after_all_or_no_updates fuel w s' :
  1 <= num_steps args ->
  train predict sgd fuel args env (entry_state w) = Ok tt s' ->
  Z.of_nat (optimizer_steps s') = num_steps args \/ optimizer_steps s' = 0%nat.
Proof.
  intros HT Hrun.
  pose proof (counters_train fuel w) as Hw. rewrite Hrun in Hw.
  destruct Hw as ([Hg _] & H0 & Hle). specialize (Hle HT). cbn [final_state] in *.
  unfold train in Hrun.
  apply bind_Ok_inv in Hrun as ([] & s1 & _ & Hrun).
  apply bind_Ok_inv in Hrun as ([] & s2 & Hloop & Hfin).
  apply train_loop_exit in Hloop as [_ Hmod].
  assert (Hgs : global_step s' = global_step s2).
  { unfold finish in Hfin. revert Hfin. destruct (primary args); py_run;
      destruct (to_number (best_acc s2)); try done; by intros [= <-]. }
  rewrite Hgs in *.
  destruct (decide (global_step s2 = num_steps args)) as [Heq|Hne]; [left; lia|].
  right. rewrite Z.mod_small in Hmod by lia. lia.
Qed.

End Counters.

(** ** When evaluations happen *)

Section Cadence.
Variable predict : gmap string Z -> Z -> Z.
Variable sgd : gmap string Z -> gmap string Z -> list batch ->
               gmap string Z * gmap string Z.
Variables (args : Args) (env : Env).

Lemma on_cadence_multiple g :
  1 <= g -> g mod eval_every args = 0 ->
  (g =? -1) || ((1 <=? g) && (g mod eval_every args =? 0)) = true.
Proof.
  intros H1 Hm. apply orb_true_iff. right. apply andb_true_iff.
  split; [by apply Z.leb_le|by apply Z.eqb_eq].
Qed.

Lemma cadence_report_and_evaluate g : 1 <= g ->
  always (fun s => global_step s = g
                   /\ forallb (on_cadence (eval_every args)) (trace s) = true)
         (report_and_evaluate predict args env).
Proof.
  intros Hg1.
  unfold report_and_evaluate, evaluate, valid, mAp, mAp_meters, update_best, save_model_complete,
    add_scalar, torch_load, load_state_dict.
  repeat first
    [ match goal with
      | |- always _ (bind get _) => apply always_get_bind; intros ? [? ?]
      end
    | always_step
    | match goal with
      | |- forall s, _ /\ _ -> _ /\ forallb _ (trace (emit _ s)) = true =>
          intros ? [? Hc]; split; [done|]; cbn [trace emit forallb];
          rewrite Hc, andb_true_r
      | |- forall s, _ /\ _ -> _ =>
          intros ? [? ?]; by split
      end ].
  all: try reflexivity.
  all: repeat match goal with
         | H : global_step _ = _ |- _ => rewrite H in *; clear H
         | H : _ && _ = true |- _ => apply andb_true_iff in H as [? ?]
         | H : (_ =? _) = true |- _ => apply Z.eqb_eq in H
         end.
  all: unfold on_cadence; cbn [is_evaluation action_step];
       try (by apply on_cadence_multiple).
  all: destruct (negb _); cbn [action_step]; by apply on_cadence_multiple.
Qed.

Lemma cadence_micro_batch step b s :
  0 <= global_step s /\ forallb (on_cadence (eval_every args)) (trace s) = true ->
  let s' := final_state (micro_batch predict sgd args env step b s) in
  0 <= global_step s' /\ forallb (on_cadence (eval_every args)) (trace s') = true.
Proof.
  intros [H0 Hc]. cbv zeta.
  destruct (micro_batch_cases predict sgd args env step b s)
    as [[_ ->]|[(_ & _ & ->)|(_ & _ & ->)]]; [done|done|].
  destruct (cadence_report_and_evaluate (global_step s + 1) ltac:(lia)
              (updated sgd (accumulated b s))) as [Hg' Hc']; [by split|].
  split; [lia|done].
Qed.

(** X14: every validation pass, mAP pass and checkpoint write that [train]
    ever performs is keyed either by -1 (the mAP pass made before the
    loop) or by a positive multiple of [eval_every]. *)
Theorem evaluations_on_cadence fuel w :
  forallb (on_cadence (eval_every args))
    (trace (final_state (train predict sgd fuel args env (entry_state w)))) = true.
Proof.
  apply (train_rule predict sgd args env
           (fun _ s => 0 <= global_step s
                       /\ forallb (on_cadence (eval_every args)) (trace s) = true)
           (fun s => forallb (on_cadence (eval_every args)) (trace s) = true))
    with (every := eval_every args).
  - intros step b s _ HP.
    pose proof (cadence_micro_batch step b s HP) as H.
    destruct (micro_batch _ _ _ _ _ _ _) as [[] ?| |]; cbn [final_state] in *; tauto.
  - by intros _ s _ [_ ?].
  - by intros _ s _ ?.
  - apply before_training_entry.
  - intros s' (Hg & _ & _ & Hc). split; [lia|done].
  - intros s Hc. unfold finish. destruct (primary args); py_run;
      by destruct (to_number (best_acc s)).
Qed.

End Cadence.

(** ** How many micro-batches an update applies *)

Lemma updates_at_least_nonpositive k tr : k <= 0 -> updates_at_least k tr.
Proof.
  intros Hk. apply Forall_forall. intros [] _; try done. lia.
Qed.

Lemma updates_at_least_quiet k post tr :
  forallb quiet post = true -> updates_at_least k tr -> updates_at_least k (post ++ tr).
Proof.
  intros Hq Htr. apply Forall_app. split; [|done].
  apply Forall_forall. intros e He.
  rewrite forallb_forall in Hq. apply list_elem_of_In, Hq in He. by destruct e.
Qed.

Lemma updates_at_least_none k s :
  optimizer_steps s = 0%nat -> updates_at_least k (trace s).
Proof.
  unfold optimizer_steps. intros H. apply Forall_forall. intros e He.
  destruct e as [| | | |g| | | | |]; try done. exfalso.
  assert (Hin : EOptimizerStep g ∈ filter is_optimizer_step (trace s))
    by (by apply list_elem_of_filter).
  destruct (filter is_optimizer_step (trace s)); [by apply elem_of_nil in Hin|done].
Qed.

Section Window.
Variable predict : gmap string Z -> Z -> Z.
Variable sgd : gmap string Z -> gmap string Z -> list batch ->
               gmap string Z * gmap string Z.
Variables (args : Args) (env : Env).

Lemma window_micro_batch step b s :
  1 <= gradient_accumulation_steps args -> 0 <= step ->
  window_filled args step s ->
  match micro_batch predict sgd args env step b s with
  | Ok false s' => window_filled args (step + 1) s'
  | Ok true s' => updates_at_least (gradient_accumulation_steps args) (trace s')
  | Raise _ s' => updates_at_least (gradient_accumulation_steps args) (trace s')
  | OutOfFuel s' => updates_at_least (gradient_accumulation_steps args) (trace s')
  end.
Proof.
  intros HK Hstep [Htr Hlen].
  assert (Hacc : updates_at_least (gradient_accumulation_steps args)
                   (trace (accumulated b s))) by (by constructor).
  destruct (micro_batch_cases predict sgd args env step b s)
    as [[_ ->]|[(_ & Hm & ->)|(_ & Hm & ->)]]; [done| |].
  - split; [done|]. cbn [grads accumulated set_grads length].
    pose proof (Z.mod_pos_bound step (gradient_accumulation_steps args) ltac:(lia)).
    pose proof (Z.mod_pos_bound (step + 1) (gradient_accumulation_steps args) ltac:(lia)).
    pose proof (Z.div_mod step (gradient_accumulation_steps args) ltac:(lia)).
    pose proof (Z.div_mod (step + 1) (gradient_accumulation_steps args) ltac:(lia)).
    assert ((step + 1) / gradient_accumulation_steps args
            = step / gradient_accumulation_steps args
            \/ (step + 1) / gradient_accumulation_steps args
               = step / gradient_accumulation_steps args + 1) as [Hq|Hq].
    { assert (step / gradient_accumulation_steps args
              <= (step + 1) / gradient_accumulation_steps args)
        by (apply Z.div_le_mono; lia).
      assert ((step + 1) / gradient_accumulation_steps args
              <= (step + gradient_accumulation_steps args) / gradient_accumulation_steps args)
        by (apply Z.div_le_mono; lia).
      replace (step + gradient_accumulation_steps args)
        with (step + 1 * gradient_accumulation_steps args) in * by lia.
      rewrite Z.div_add in * by lia. lia. }
    + rewrite Hq in *. lia.
    + rewrite Hq in *. nia.
  - set (su := updated sgd (accumulated b s)).
    pose proof (preserves_report_and_evaluate predict args env su) as Hext.
    assert (Hsu : updates_at_least (gradient_accumulation_steps args) (trace su)).
    { subst su. unfold updated. cbn [trace]. constructor; [|by constructor].
      cbn [grads accumulated set_grads length].
      pose proof (Z.mod_pos_bound step (gradient_accumulation_steps args) ltac:(lia)).
      pose proof (Z.div_mod step (gradient_accumulation_steps args) ltac:(lia)).
      pose proof (Z.div_mod (step + 1) (gradient_accumulation_steps args) ltac:(lia)).
      rewrite Hm in *.
      assert (step mod gradient_accumulation_steps args
              = gradient_accumulation_steps args - 1); [|lia].
      assert (gradient_accumulation_steps args
              * ((step + 1) / gradient_accumulation_steps args
                 - step / gradient_accumulation_steps args)
              = step mod gradient_accumulation_steps args + 1) by lia.
      assert ((step + 1) / gradient_accumulation_steps args
              - step / gradient_accumulation_steps args = 1) by nia.
      nia. }
    assert (Hfin : updates_at_least (gradient_accumulation_steps args)
                     (trace (final_state (report_and_evaluate predict args env su)))).
    { destruct (ext_trace _ _ Hext) as (post & -> & Hq). by apply updates_at_least_quiet. }
    destruct (report_and_evaluate predict args env su) as [[] s'|e s'|s'];
      cbn [final_state] in *; try done.
    split; [done|]. rewrite (ext_grads _ _ Hext), Hm. subst su. cbn [grads updated length]. lia.
Qed.

(** X15: every optimizer update that [train] makes applies the gradients of
    at least [gradient_accumulation_steps] micro-batches. *)
Theorem updates_apply_full_windows fuel w :
  updates_at_least (gradient_accumulation_steps args)
    (trace (final_state (train predict sgd fuel args env (entry_state w)))).
Proof.
  destruct (decide (gradient_accumulation_steps args <= 0)) as [HK|HK];
    [by apply updates_at_least_nonpositive|].
  apply (train_rule predict sgd args env (window_filled args)
           (fun s => updates_at_least (gradient_accumulation_steps args) (trace s)))
    with (every := 1).
  - intros step b s Hstep HP. apply window_micro_batch; [lia|done|done].
  - by intros step s _ [? _].
  - intros step s _ [Htr _] _ _. split; [done|]. rewrite Z.mod_0_l by lia. lia.
  - apply before_training_entry.
  - intros s' (_ & _ & Ho & _). split; [by apply updates_at_least_none|].
    rewrite Z.mod_0_l by lia. lia.
  - intros s Htr. unfold finish. destruct (primary args); py_run;
      destruct (to_number (best_acc s)); cbn [final_state trace emit]; try done;
      by constructor.
Qed.

End Window.

(** ** Workers other than the primary one *)

Section Silent.
Variable predict : gmap string Z -> Z -> Z.
Variable sgd : gmap string Z -> gmap string Z -> list batch ->
               gmap string Z * gmap string Z.
Variables (args : Args) (env : Env).

Lemma report_and_evaluate_non_primary s :
  primary args = false ->
  final_state (report_and_evaluate predict args env s) = s.
Proof.
  intros Hp. unfold report_and_evaluate, py_mod. rewrite Hp. py_run.
  destruct (eval_every args =? 0); [done|]. py_run.
  rewrite andb_false_r. py_run.
  by destruct (num_steps args =? 0).
Qed.

(** X16: in the loop, a worker that is not the primary one writes no metric,
    runs no evaluation and saves no checkpoint, and its best accuracy
    stays what it was. *)
Theorem non_primary_loop_is_silent fuel s :
  primary args = false ->
  let s' := final_state (train_loop predict sgd fuel args env s) in
  gated_actions s' = gated_actions s /\ best_acc s' = best_acc s.
Proof.
  intros Hp. cbv zeta.
  apply (train_loop_rule predict sgd args env
           (fun _ s' => gated_actions s' = gated_actions s /\ best_acc s' = best_acc s)
           (fun s' => gated_actions s' = gated_actions s /\ best_acc s' = best_acc s)).
  - intros step b s0 _ HP. apply outcome_all.
    destruct (micro_batch_cases predict sgd args env step b s0)
      as [[_ ->]|[(_ & _ & ->)|(_ & _ & ->)]]; [done|done|].
    by rewrite report_and_evaluate_non_primary.
  - by intros _ s0 _ ?.
  - by intros _ s0 _ ? _ _.
  - done.
Qed.

End Silent.

(** ** Options set to zero *)

Section ZeroOptions.
Variable predict : gmap string Z -> Z -> Z.
Variable sgd : gmap string Z -> gmap string Z -> list batch ->
               gmap string Z * gmap string Z.
Variables (args : Args) (env : Env).

(** X17: with [gradient_accumulation_steps = 0], [train] raises
    ZeroDivisionError at line 210, before any file is read and before the
    first micro-batch. *)
Theorem zero_accumulation_steps fuel s :
  gradient_accumulation_steps args = 0 ->
  exists s', train predict sgd fuel args env s = Raise ZeroDivisionError s'
    /\ trace s' = (if primary args then [EMakedirs (output_dir args)] else []) ++ trace s
    /\ training_state s' = training_state s.
Proof.
  intros HK. unfold train, startup, py_floordiv. rewrite HK.
  destruct (primary args); py_run; eexists; (split; [reflexivity|done]).
Qed.

Lemma for_batches_prefix_evaluations : forall bs rest step s,
  gradient_accumulation_steps args <> 0 ->
  (forall i, step <= i < step + Z.of_nat (length bs) ->
             (i + 1) mod gradient_accumulation_steps args <> 0) ->
  exists s',
    for_batches predict sgd args env step (bs ++ rest) s
    = for_batches predict sgd args env (step + Z.of_nat (length bs)) rest s'
    /\ global_step s' = global_step s
    /\ optimizer_steps s' = optimizer_steps s
    /\ writer s' = writer s
    /\ filter is_evaluation (trace s') = filter is_evaluation (trace s).
Proof.
  induction bs as [|b bs IH]; intros rest step s HK Hidx.
  - exists s. simpl. rewrite Z.add_0_r. by repeat split.
  - rewrite <- app_comm_cons, for_batches_cons.
    rewrite micro_batch_incomplete; [|done|apply Hidx; simpl; lia].
    destruct (IH rest (step + 1) (accumulated b s) HK) as (s' & -> & Hg & Ho & Hw & Hev).
    { intros i Hi. apply Hidx. simpl. lia. }
    exists s'. split; [f_equal; simpl; lia|]. by repeat split.
Qed.

(** X18: with [eval_every = 0] and an epoch that holds a full window, the
    loop raises ZeroDivisionError at line 337, on every worker, right after
    its first optimizer update, without having evaluated anything. *)
Theorem zero_eval_every fuel s :
  eval_every args = 0 ->
  1 <= gradient_accumulation_steps args ->
  gradient_accumulation_steps args <= Z.of_nat (length (train_loader env)) ->
  bound_writer args s ->
  exists s', train_loop predict sgd (S fuel) args env s = Raise ZeroDivisionError s'
    /\ global_step s' = global_step s + 1
    /\ optimizer_steps s' = S (optimizer_steps s)
    /\ filter is_evaluation (trace s') = filter is_evaluation (trace s).
Proof.
  intros HE HK HL Hw.
  set (K := gradient_accumulation_steps args) in *.
  set (n := Z.to_nat (K - 1)).
  assert (Hsplit : train_loader env = take n (train_loader env) ++ drop n (train_loader env))
    by (by rewrite take_drop).
  assert (Hlen : length (take n (train_loader env)) = n) by (rewrite length_take; lia).
  destruct (drop n (train_loader env)) as [|b rest] eqn:Hdrop.
  { apply (f_equal length) in Hdrop. rewrite length_drop in Hdrop. simpl in Hdrop. lia. }
  destruct (for_batches_prefix_evaluations (take n (train_loader env)) (b :: rest) 0 s)
    as (s1 & Hrun & Hg & Ho & Hw1 & Hev).
  { fold K. lia. }
  { intros i Hi. fold K. rewrite Z.mod_small by lia. lia. }
  rewrite <- Hsplit, Hlen, for_batches_cons in Hrun.
  destruct (micro_batch_cases predict sgd args env (0 + Z.of_nat n) b s1)
    as [[HK0 _]|[(_ & Hm & _)|(_ & _ & Hmb)]].
  { fold K in HK0. lia. }
  { exfalso. apply Hm. fold K. replace (0 + Z.of_nat n + 1) with K by lia.
    apply Z.mod_same. lia. }
  rewrite Hmb in Hrun.
  set (su := updated sgd (accumulated b s1)) in *.
  assert (Hre : exists s', report_and_evaluate predict args env su = Raise ZeroDivisionError s'
             /\ global_step s' = global_step su
             /\ optimizer_steps s' = optimizer_steps su
             /\ filter is_evaluation (trace s') = filter is_evaluation (trace su)).
  { unfold report_and_evaluate, py_mod. rewrite HE.
    destruct (primary args) eqn:Hp.
    - assert (Hwu : writer su <> None) by (subst su; cbn; rewrite Hw1; by apply Hw).
      unfold bind at 1. unfold bind at 1. unfold get at 1. unfold bind at 1.
      rewrite add_scalar_ok by done. rewrite add_scalar_ok by done. py_run.
      eexists. split; [reflexivity|]. repeat split.
    - py_run. eexists. split; [reflexivity|]. done. }
  destruct Hre as (s' & Hre & Hg' & Ho' & Hev').
  exists s'. split; [|split; [|split]].
  - cbn [train_loop]. unfold bind at 1. unfold epoch. unfold bind at 1.
    by rewrite Hrun, Hre.
  - rewrite Hg'. subst su. cbn [global_step updated accumulated set_grads emit]. lia.
  - rewrite Ho'. subst su. by rewrite optimizer_steps_updated, optimizer_steps_accumulated, Ho.
  - rewrite Hev'. subst su. by rewrite <- Hev.
Qed.

End ZeroOptions.

(** ** How resuming fails *)

Section ResumeErrors.
Variables (args : Args) (env : Env).

Lemma partial_load_lookup (sd w : gmap string Z) k :
  ((sd ∩ w) ∪ w) !! k
  = match w !! k with
    | Some old => Some (default old (sd !! k))
    | None => None
    end.
Proof.
  rewrite lookup_union, lookup_intersection.
  destruct (sd !! k), (w !! k); reflexivity.
Qed.

(** X19: [resume] by cases of what [--input_dir] names: nothing or the empty
    string loads nothing; a missing file raises FileNotFoundError; a
    checkpoint with a [model_state_dict] but no [best_accuracy] raises
    KeyError after the weights have been replaced; parameter names that
    differ from the model's, or a plain file with an entry that is not a
    tensor, raise RuntimeError after every parameter that the file also
    names has been replaced, the others keeping their value. *)
Theorem resume_failures s :
  (input_dir args = None \/ input_dir args = Some "" -> resume args env s = Ok tt s)
  /\ (forall file, input_dir args = Some file -> file <> "" ->
      files env !! file = None ->
      resume args env s = Raise (FileNotFoundError file) (emit (ETorchLoad file) s))
  /\ (forall file checkpoint sd, input_dir args = Some file -> file <> "" ->
      files env !! file = Some checkpoint ->
      checkpoint !! "model_state_dict" = Some (PStateDict sd) ->
      (dom sd = dom (weights s) -> checkpoint !! "best_accuracy" = None ->
       resume args env s
       = Raise (KeyError "best_accuracy") (set_weights sd (emit (ETorchLoad file) s)))
      /\ (dom sd <> dom (weights s) ->
          exists s', resume args env s = Raise RuntimeError s'
            /\ trace s' = ETorchLoad file :: trace s
            /\ best_acc s' = best_acc s
            /\ forall k, weights s' !! k
                         = match weights s !! k with
                           | Some old => Some (default old (sd !! k))
                           | None => None
                           end))
  /\ (forall file checkpoint, input_dir args = Some file -> file <> "" ->
      files env !! file = Some checkpoint ->
      checkpoint !! "model_state_dict" = None ->
      dom (omap tensor_of checkpoint) <> dom checkpoint
      \/ dom checkpoint <> dom (weights s) ->
      exists s', resume args env s = Raise RuntimeError s'
        /\ trace s' = ETorchLoad file :: trace s
        /\ best_acc s' = best_acc s
        /\ forall k, weights s' !! k
                     = match weights s !! k with
                       | Some old => Some (default old (checkpoint !! k ≫= tensor_of))
                       | None => None
                       end).
Proof.
  split; [|split; [|split]].
  - intros [H|H]; unfold resume; by rewrite H.
  - intros file Hin Hne Hfile.
    assert (Heqb : String.eqb file "" = false) by (by apply String.eqb_neq).
    unfold resume, torch_load. rewrite Hin, Heqb. py_run. by rewrite Hfile.
  - intros file checkpoint sd Hin Hne Hfile Hsd.
    assert (Heqb : String.eqb file "" = false) by (by apply String.eqb_neq).
    unfold resume, torch_load. rewrite Hin, Heqb. py_run. rewrite Hfile. py_run.
    rewrite bool_decide_eq_true_2 by (apply elem_of_dom; eauto).
    unfold getitem. rewrite Hsd. unfold as_state_dict. py_run.
    unfold load_state_dict. py_run. split.
    + intros Hdom Hb. rewrite bool_decide_eq_true_2 by done. py_run. by rewrite Hb.
    + intros Hdom. rewrite bool_decide_eq_false_2 by done. py_run.
      eexists. split; [reflexivity|]. split; [done|]. split; [done|].
      intros k. cbn [weights set_weights emit]. apply partial_load_lookup.
  - intros file checkpoint Hin Hne Hfile Hnone Hbad.
    assert (Heqb : String.eqb file "" = false) by (by apply String.eqb_neq).
    unfold resume, torch_load. rewrite Hin, Heqb. py_run. rewrite Hfile. py_run.
    rewrite bool_decide_eq_false_2 by (by apply not_elem_of_dom).
    assert (Hlook : forall k w0,
      ((omap tensor_of checkpoint ∩ w0) ∪ w0) !! k
      = match w0 !! k with
        | Some old => Some (default old (checkpoint !! k ≫= tensor_of))
        | None => None
        end).
    { intros k w0. rewrite partial_load_lookup. by rewrite lookup_omap. }
    unfold load_state_dict_file, load_state_dict. cbv zeta.
    destruct (bool_decide (dom (omap tensor_of checkpoint) = dom checkpoint)) eqn:Hall;
      py_run.
    + apply bool_decide_eq_true in Hall.
      rewrite bool_decide_eq_false_2 by (destruct Hbad; congruence). py_run.
      eexists. split; [reflexivity|]. split; [done|]. split; [done|].
      intros k. cbn [weights set_weights emit]. apply Hlook.
    + eexists. split; [reflexivity|]. split; [done|]. split; [done|].
      intros k. cbn [weights set_weights emit]. apply Hlook.
Qed.

End ResumeErrors.

(** ** The best accuracy along a run *)

Section BestAccuracy.
Variable predict : gmap string Z -> Z -> Z.
Variable sgd : gmap string Z -> gmap string Z -> list batch ->
               gmap string Z * gmap string Z.
Variables (args : Args) (env : Env).

Lemma Qlt_bool_lt a b : Qlt_bool a b = true -> (a < b)%Q.
Proof.
  unfold Qlt_bool. intros H. apply negb_true_iff in H.
  apply Qnot_le_lt. intros Hle. apply Qle_bool_iff in Hle. congruence.
Qed.

Lemma always_py_lt_bind {B} (I : state -> Prop) a b (k : bool -> M B) :
  (forall x y, to_number a = Some x -> to_number b = Some y ->
               always I (k (Qlt_bool x y))) ->
  always I (bind (py_lt a b) k).
Proof.
  intros H s Hs. unfold bind, py_lt.
  destruct (to_number a) as [x|] eqn:Ha; [|done].
  destruct (to_number b) as [y|] eqn:Hb; [|done].
  by apply (H x y).
Qed.

Lemma best_report_and_evaluate (q0 : Q) :
  always (fun s => exists q, to_number (best_acc s) = Some q /\ (q0 <= q)%Q)
         (report_and_evaluate predict args env).
Proof.
  unfold report_and_evaluate, evaluate, valid, mAp, mAp_meters, update_best, save_model_complete,
    add_scalar, torch_load, load_state_dict.
  repeat first
    [ match goal with
      | |- always _ (bind get _) => apply always_get_bind; intros ? (? & ? & ?)
      | |- always _ (bind (py_lt _ _) _) => apply always_py_lt_bind; intros ? ? ? ?
      end
    | always_step
    | match goal with
      | |- forall s, _ -> _ => intros ? ?; assumption
      end ].
  intros s _. eexists. split; [reflexivity|].
  match goal with H : Qlt_bool _ _ = true |- _ => apply Qlt_bool_lt in H end.
  repeat match goal with
         | H1 : to_number ?b = Some ?x, H2 : to_number ?b = Some ?y |- _ =>
             rewrite H1 in H2; injection H2 as ->
         end.
  match goal with H : to_number (PFloat _) = Some _ |- _ => injection H as <- end.
  eapply Qle_trans; [eassumption|]. by apply Qlt_le_weak.
Qed.

(** X20: the best accuracy never decreases along the loop: in whatever state
    the loop ends or raises, it is a number at least as large as the one
    the loop was entered with. *)
Theorem best_accuracy_never_decreases fuel s (q0 : Q) :
  to_number (best_acc s) = Some q0 ->
  exists q, to_number (best_acc (final_state (train_loop predict sgd fuel args env s)))
            = Some q /\ (q0 <= q)%Q.
Proof.
  intros Hq0.
  apply (train_loop_rule predict sgd args env
           (fun _ s' => exists q, to_number (best_acc s') = Some q /\ (q0 <= q)%Q)
           (fun s' => exists q, to_number (best_acc s') = Some q /\ (q0 <= q)%Q)).
  - intros step b s0 _ HP. apply outcome_all.
    destruct (micro_batch_cases predict sgd args env step b s0)
      as [[_ ->]|[(_ & _ & ->)|(_ & _ & ->)]]; [done|done|].
    by apply best_report_and_evaluate.
  - by intros _ s0 _ ?.
  - by intros _ s0 _ ? _ _.
  - exists q0. split; [done|apply Qle_refl].
Qed.

End BestAccuracy.

(** ** The properties above on concrete runs *)

Lemma AverageMeter_running_totals_witness :
  exists m fc,
    AverageMeter.updates Qplus Qmult Qdiv (fun n => Some (inject_Z n))
      (AverageMeter.reset 0%Q (AverageMeter.new 0%Q)) example_calls = (m, None)
    /\ AverageMeter.count m = total_weight example_calls
    /\ Some (AverageMeter.val m) = fst <$> last example_calls
    /\ AverageMeter.sum m
       = AverageMeter.float_sum Qplus Qmult (fun n => Some (inject_Z n)) 0%Q example_calls
    /\ Some (inject_Z (AverageMeter.count m)) = Some fc
    /\ AverageMeter.avg m = Qdiv (AverageMeter.sum m) fc.
Proof.
  apply (proj1 (AverageMeter_running_totals Q 0%Q Qplus Qmult Qdiv
                  (fun n => Some (inject_Z n)) (AverageMeter.new 0%Q) example_calls
                  ltac:(discriminate)
                  ltac:(repeat constructor; simpl; lia)
                  ltac:(intros n _; eauto))).
Defined.

Lemma simple_accuracy_extremes_witness :
  let preds : list Z := [1; 2] in
  let labels : list Z := [1; 3] in
  (0 <= simple_accuracy preds labels <= 1)%Q
  /\ ((simple_accuracy preds labels == 1)%Q <-> preds = labels)
  /\ ((simple_accuracy preds labels == 0)%Q
      <-> Forall2 (fun p l : Z => p <> l) preds labels).
Proof.
  cbv zeta. apply (simple_accuracy_extremes [1; 2] [1; 3]); [discriminate|reflexivity].
Defined.


Lemma evaluation_is_read_only_witness :
  training_state (final_state (mAp example_predict (example_args 2 3 2 (-1) None)
                                 (example_env 3 ∅) 2 example_loop_entry))
  = training_state example_loop_entry.
Proof.
  apply (proj1 (proj2 (evaluation_is_read_only example_predict
           (example_args 2 3 2 (-1) None) (example_env 3 ∅) 2 example_loop_entry))).
  lia.
Defined.

Lemma startup_trains_fixed_checkpoint_witness :
  exists c sd,
    files (example_env 3 (<["periodic.pth" := example_periodic_checkpoint]> ∅))
      !! mAp_checkpoint_file = Some c
    /\ c !! "model_state_dict" = Some (PStateDict sd)
    /\ weights (final_state
         (startup example_predict (example_args 2 3 2 (-1) (Some "periodic.pth"))
            (example_env 3 (<["periodic.pth" := example_periodic_checkpoint]> ∅))
            (entry_state (example_weights 0)))) = sd
    /\ (test_loader (example_env 3 (<["periodic.pth" := example_periodic_checkpoint]> ∅)) <> []
        -> num_classes (example_args 2 3 2 (-1) (Some "periodic.pth")) = 40)
    /\ gradient_accumulation_steps (example_args 2 3 2 (-1) (Some "periodic.pth")) <> 0.
Proof.
  apply (startup_trains_fixed_checkpoint example_predict
           (example_args 2 3 2 (-1) (Some "periodic.pth"))
           (example_env 3 (<["periodic.pth" := example_periodic_checkpoint]> ∅))
           (entry_state (example_weights 0))).
  vm_compute. reflexivity.
Defined.

Lemma train_requires_stanford40_witness :
  exists e s',
    train example_predict example_sgd 3
      example_cifar10_args
      (example_env 3 ∅) (entry_state (example_weights 0)) = Raise e s'
    /\ optimizer_steps s' = 0%nat.
Proof.
  apply (train_requires_stanford40 example_predict example_sgd 3
           example_cifar10_args
           (example_env 3 ∅) (example_weights 0)); discriminate.
Defined.

Lemma save_model_complete_round_trip_witness :
  exists content,
    written_content (final_state (save_model_complete (example_args 2 3 2 (-1) None)
                                    (PFloat (9 # 10)) 100 example_loop_entry))
    = Some content
    /\ exists s', resume (example_args 2 3 2 (-1) (Some "best.pth"))
                    (with_file "best.pth" content (example_env 3 ∅))
                    (entry_state (example_weights 5)) = Ok tt s'
         /\ weights s' = weights example_loop_entry /\ best_acc s' = PFloat (9 # 10).
Proof.
  apply (save_model_complete_round_trip (example_args 2 3 2 (-1) None)
           (example_args 2 3 2 (-1) (Some "best.pth")) (example_env 3 ∅) "best.pth"
           (PFloat (9 # 10)) 100 example_loop_entry (entry_state (example_weights 5)));
    [reflexivity|discriminate|vm_compute; reflexivity].
Defined.

Lemma save_model_round_trip_witness :
  (save_model (example_args 2 3 2 (-1) None) (Wrapped (example_weights 4))).1 <> ""
  /\ exists s', resume (example_args 2 3 2 (-1) (Some "best/run_checkpoint.bin"))
                  (with_file
                     (save_model (example_args 2 3 2 (-1) None) (Wrapped (example_weights 4))).1
                     (save_model (example_args 2 3 2 (-1) None) (Wrapped (example_weights 4))).2
                     (example_env 3 ∅))
                  (entry_state (example_weights 5)) = Ok tt s'
       /\ weights s' = model_to_save (Wrapped (example_weights 4))
       /\ best_acc s' = best_acc (entry_state (example_weights 5)).
Proof.
  apply (save_model_round_trip (example_args 2 3 2 (-1) None)
           (example_args 2 3 2 (-1) (Some "best/run_checkpoint.bin")) (example_env 3 ∅)
           (Wrapped (example_weights 4)) (entry_state (example_weights 5)));
    [reflexivity|apply not_elem_of_dom; reflexivity|vm_compute; reflexivity].
Defined.

Lemma train_never_exceeds_num_steps_witness :
  Z.of_nat (optimizer_steps
              (final_state (train example_predict example_sgd 5 (example_args 2 3 2 (-1) None)
                              (example_env 3 ∅) (entry_state (example_weights 0)))))
  <= 3.
Proof.
  apply (train_never_exceeds_num_steps example_predict example_sgd
           (example_args 2 3 2 (-1) None) (example_env 3 ∅) 5 (example_weights 0)).
  simpl. lia.
Defined.

Lemma train_returns_after_all_or_no_updates_witness :
  Z.of_nat (optimizer_steps
              (final_state (train example_predict example_sgd 5 (example_args 2 3 2 (-1) None)
                              (example_env 3 ∅) (entry_state (example_weights 0)))))
  = 3
  \/ optimizer_steps
       (final_state (train example_predict example_sgd 5 (example_args 2 3 2 (-1) None)
                       (example_env 3 ∅) (entry_state (example_weights 0)))) = 0%nat.
Proof.
  apply (train_returns_after_all_or_no_updates example_predict example_sgd
           (example_args 2 3 2 (-1) None) (example_env 3 ∅) 5 (example_weights 0)
           (final_state (train example_predict example_sgd 5 (example_args 2 3 2 (-1) None)
                           (example_env 3 ∅) (entry_state (example_weights 0)))));
    [simpl; lia|vm_compute; reflexivity].
Defined.

Lemma non_primary_loop_is_silent_witness :
  gated_actions (final_state (train_loop example_predict example_sgd 5
                                (example_args 2 3 2 1 None) (example_env 3 ∅)
                                example_loop_entry))
  = gated_actions example_loop_entry
  /\ best_acc (final_state (train_loop example_predict example_sgd 5
                              (example_args 2 3 2 1 None) (example_env 3 ∅)
                              example_loop_entry))
     = best_acc example_loop_entry.
Proof.
  apply (non_primary_loop_is_silent example_predict example_sgd
           (example_args 2 3 2 1 None) (example_env 3 ∅) 5 example_loop_entry).
  reflexivity.
Defined.

Lemma zero_accumulation_steps_witness :
  exists s',
    train example_predict example_sgd 5 (example_args 0 3 2 (-1) None) (example_env 3 ∅)
      (entry_state (example_weights 0)) = Raise ZeroDivisionError s'
    /\ trace s' = (if primary (example_args 0 3 2 (-1) None)
                   then [EMakedirs (output_dir (example_args 0 3 2 (-1) None))] else [])
                  ++ trace (entry_state (example_weights 0))
    /\ training_state s' = training_state (entry_state (example_weights 0)).
Proof.
  apply (zero_accumulation_steps example_predict example_sgd
           (example_args 0 3 2 (-1) None) (example_env 3 ∅) 5
           (entry_state (example_weights 0))).
  reflexivity.
Defined.

Lemma zero_eval_every_witness :
  exists s',
    train_loop example_predict example_sgd 1 (example_args 2 3 0 (-1) None)
      (example_env 3 ∅) example_loop_entry = Raise ZeroDivisionError s'
    /\ global_step s' = global_step example_loop_entry + 1
    /\ optimizer_steps s' = S (optimizer_steps example_loop_entry)
    /\ filter is_evaluation (trace s') = filter is_evaluation (trace example_loop_entry).
Proof.
  apply (zero_eval_every example_predict example_sgd
           (example_args 2 3 0 (-1) None) (example_env 3 ∅) 0 example_loop_entry).
  - reflexivity.
  - simpl. lia.
  - simpl. lia.
  - intros _. discriminate.
Defined.

Lemma resume_failures_witness :
  exists s', resume (example_args 2 3 2 (-1) (Some "other.pth"))
               (example_env 3 (<["other.pth" := example_mismatched_checkpoint]> ∅))
               (entry_state (example_weights 0)) = Raise RuntimeError s'
    /\ trace s' = ETorchLoad "other.pth" :: trace (entry_state (example_weights 0))
    /\ best_acc s' = best_acc (entry_state (example_weights 0))
    /\ forall k, weights s' !! k
                 = match weights (entry_state (example_weights 0)) !! k with
                   | Some old =>
                       Some (default old ((<["extra.bias" := 1]> (example_weights 7)) !! k))
                   | None => None
                   end.
Proof.
  apply (proj2 (proj1 (proj2 (proj2
           (resume_failures (example_args 2 3 2 (-1) (Some "other.pth"))
              (example_env 3 (<["other.pth" := example_mismatched_checkpoint]> ∅))
              (entry_state (example_weights 0)))))
           "other.pth" example_mismatched_checkpoint
           (<["extra.bias" := 1]> (example_weights 7)) eq_refl ltac:(discriminate)
           eq_refl eq_refl)).
  intros H. apply (f_equal (fun d : gset string => bool_decide ("extra.bias" ∈ d))) in H.
  vm_compute in H. discriminate.
Defined.

Lemma best_accuracy_never_decreases_witness :
  exists q,
    to_number (best_acc (final_state
      (train_loop example_predict example_sgd 5 (example_args 2 3 2 (-1) None)
         (example_env 3 ∅) example_loop_entry))) = Some q
    /\ (inject_Z 0 <= q)%Q.
Proof.
  apply (best_accuracy_never_decreases example_predict example_sgd
           (example_args 2 3 2 (-1) None) (example_env 3 ∅) 5 example_loop_entry
           (inject_Z 0)).
  reflexivity.
Defined.
